(** * gnomad.assessment.validity_checks: a shallow embedding

    The Python functions of [gnomad/assessment/validity_checks.py] are
    rendered as Gallina functions.  Python exceptions and the output the
    functions write (logger lines, [Table.show], engine actions) are carried
    by a small writer/error monad.  Hail expressions are row functions whose
    result is [None] when the value is missing (NA).  Python ints are [Z];
    Python floats are IEEE 754 doubles, computed with the operations of
    [SpecFloat]. *)

From Stdlib Require Import ZArith QArith List String Ascii Bool Lia.
From Stdlib Require Import Floats.SpecFloat.
From Stdlib Require Import Permutation.
Import ListNotations.
Open Scope string_scope.
Open Scope Z_scope.
Open Scope list_scope.

(** string concatenation, as in an f-string *)
Infix "+:+" := String.append (at level 60, right associativity).

(** ** Python strings *)

Module Str.

(** [sub in s] *)
Fixpoint contains (sub s : string) : bool :=
  prefix sub s ||
  match s with
  | EmptyString => false
  | String _ s' => contains sub s'
  end.

(** [s.replace(old, "")] for a non-empty [old]: the occurrences are removed
    from left to right; [skip] counts the characters of the occurrence
    being dropped. *)
Fixpoint remove_from (old : string) (skip : nat) (s : string) : string :=
  match s with
  | EmptyString => EmptyString
  | String c s' =>
      match skip with
      | S k => remove_from old k s'
      | O =>
          if prefix old s
          then remove_from old (String.length old - 1) s'
          else String c (remove_from old 0 s')
      end
  end.

(** [s.replace(old, "")]; with an empty [old] Python puts the empty
    replacement between the characters, which leaves [s] as it is. *)
Definition remove (old s : string) : string :=
  match old with
  | EmptyString => s
  | _ => remove_from old 0 s
  end.

(** the last character, if any *)
Fixpoint last (s : string) : option ascii :=
  match s with
  | EmptyString => None
  | String c EmptyString => Some c
  | String _ s' => last s'
  end.

(** a non-empty string is truthy *)
Definition truthy (s : string) : bool :=
  match s with EmptyString => false | _ => true end.

End Str.

(** ** Python exceptions, dictionaries and output *)

Inductive exn : Type :=
| ValueError (msg : string)
| KeyError (key : string)
| IndexError
| ZeroDivisionError
| TypeError
| AttributeError
| OverflowError.

Inductive res (A : Type) : Type :=
| Ok (a : A)
| Raise (e : exn).
Arguments Ok {A} a.
Arguments Raise {A} e.

(** A Python [dict] with string keys: bindings in insertion order. *)
Definition dict (V : Type) : Type := list (string * V).

Section Dict.
Context {V : Type}.

Fixpoint dict_get (k : string) (d : dict V) : option V :=
  match d with
  | [] => None
  | (k', v) :: d' => if String.eqb k' k then Some v else dict_get k d'
  end.

(** [d[k] = v]: an existing key keeps its place, a new one goes last. *)
Fixpoint dict_set (k : string) (v : V) (d : dict V) : dict V :=
  match d with
  | [] => [(k, v)]
  | (k', v') :: d' =>
      if String.eqb k' k then (k', v) :: d' else (k', v') :: dict_set k v d'
  end.

Definition dict_keys (d : dict V) : list string := map fst d.

Definition dict_remove (k : string) (d : dict V) : dict V :=
  filter (fun kv => negb (String.eqb (fst kv) k)) d.

(** [d.pop(k)]: the value and the dictionary without the key, or KeyError. *)
Definition dict_pop (k : string) (d : dict V) : res (V * dict V) :=
  match dict_get k d with
  | Some v => Ok (v, dict_remove k d)
  | None => Raise (KeyError k)
  end.

(** [d[k]] *)
Definition dict_getitem (k : string) (d : dict V) : res V :=
  match dict_get k d with
  | Some v => Ok v
  | None => Raise (KeyError k)
  end.

(** one assignment [d[k] = v], and the dictionary a run of them builds *)
Definition assign (d : dict V) (kv : string * V) : dict V :=
  dict_set (fst kv) (snd kv) d.

Definition dict_of (kvs : list (string * V)) : dict V :=
  fold_left assign kvs [].

End Dict.

(** ** Python floats

    A [float] is an IEEE 754 double (binary64: 53 bits of precision,
    exponents below 1024); the operations round to nearest, ties to even. *)
Definition float : Type := spec_float.

(** An int as the operand of a division: the integer itself, not yet
    rounded to a double. *)
Definition exact_int (z : Z) : float :=
  match z with
  | Z0 => S754_zero false
  | Zpos p => S754_finite false p 0
  | Zneg p => S754_finite true p 0
  end.

(** [float(z)], for an int within the range of the doubles *)
Definition float_of_int (z : Z) : float := binary_normalize 53 1024 z 0 false.

(** Half-way between the largest double and 2^1024: a quotient of this
    magnitude or more rounds to 2^1024, which no double holds. *)
Definition overflow_threshold : Z := 2 ^ 1024 - 2 ^ 970.

(** [a / b] for two ints: the quotient of the integers, correctly rounded;
    ZeroDivisionError when [b] is 0, OverflowError when the quotient is too
    large for a float. *)
Definition int_truediv (a b : Z) : res float :=
  if b =? 0 then Raise ZeroDivisionError
  else if overflow_threshold * Z.abs b <=? Z.abs a then Raise OverflowError
  else Ok (SFdiv 53 1024 (exact_int a) (exact_int b)).

(** [x * y] and [x > y] for two floats *)
Definition float_mul (x y : float) : float := SFmul 53 1024 x y.

Definition float_gt (x y : float) : bool := SFltb y x.

(** The number a float stands for; infinities and NaN stand for none. *)
Definition float_value (x : float) : option Q :=
  match x with
  | S754_zero _ => Some (0 # 1)
  | S754_finite s m e =>
      Some (inject_Z (if s then Z.neg m else Z.pos m)
            * (if 0 <=? e then inject_Z (2 ^ e) else / inject_Z (2 ^ (- e))))%Q
  | S754_infinity _ | S754_nan => None
  end.

(** Values shown or logged. *)
Inductive dval : Type :=
| DNum (v : option Q)
| DStrs (v : option (list string)).

Inductive arg : Type :=
| AStr (s : string)
| AInt (z : Z)
| AFloat (x : float)
| ANone
| AVals (vs : list Q).

(** What a call leaves behind, in order: logger lines (format and
    arguments), and the actions it asks of the engine. *)
Inductive event : Type :=
| Info (fmt : string) (args : list arg)
| Warning (fmt : string) (args : list arg)
| EngineCount
| EngineAggregate
| EngineShow (shown : list (list (string * dval))).

(** A computation: the events emitted, then a value or the exception that
    stopped it. *)
Definition M (A : Type) : Type := (list event * res A)%type.

Definition ret {A} (a : A) : M A := ([], Ok a).
Definition raise {A} (e : exn) : M A := ([], Raise e).
Definition emit (ev : event) : M unit := ([ev], Ok tt).
Definition lift {A} (r : res A) : M A := ([], r).

Definition bind {A B} (m : M A) (f : A -> M B) : M B :=
  match m with
  | (l1, Ok a) => let '(l2, r) := f a in (l1 ++ l2, r)
  | (l1, Raise e) => (l1, Raise e)
  end.

Notation "x <- m ;; k" := (bind m (fun x => k))
  (at level 61, m at next level, right associativity).
Notation "m ;;; k" := (bind m (fun _ => k))
  (at level 61, right associativity).

(** [for x in xs: body x] *)
Fixpoint for_ {A} (xs : list A) (body : A -> M unit) : M unit :=
  match xs with
  | [] => ret tt
  | x :: xs' => body x ;;; for_ xs' body
  end.

(** a loop that builds a value: [acc] threaded through the iterations *)
Fixpoint fold_ {A S} (xs : list A) (body : S -> A -> M S) (acc : S) : M S :=
  match xs with
  | [] => ret acc
  | x :: xs' => acc' <- body acc x ;; fold_ xs' body acc'
  end.

Definition events {A} (m : M A) : list event := fst m.
Definition outcome {A} (m : M A) : res A := snd m.

(** ** The table engine (Hail), as far as the checks use it *)

Section Engine.
Context {Row : Type}.

(** A boolean expression over the rows; [None] is a missing value. *)
Definition BooleanExpression : Type := Row -> option bool.

Definition holds (c : BooleanExpression) (r : Row) : bool :=
  match c r with Some true => true | _ => false end.

(** [ht.filter(c)] keeps the rows where [c] is true; rows where it is
    false or missing go. *)
Definition tfilter (ht : list Row) (c : BooleanExpression) : list Row :=
  filter (holds c) ht.

(** [ht.count()] *)
Definition tcount (ht : list Row) : Z := Z.of_nat (List.length ht).

(** An aggregator: a state, fed one row at a time. *)
Record Aggregator (A : Type) : Type := {
  agg_init : A;
  agg_step : A -> Row -> A
}.
Arguments agg_init {A} _.
Arguments agg_step {A} _ _ _.

(** [hl.agg.count_where(c)] *)
Definition count_where (c : BooleanExpression) : Aggregator Z :=
  {| agg_init := 0;
     agg_step := fun n r => if holds c r then n + 1 else n |}.

(** [hl.agg.any(c)] *)
Definition agg_any (c : BooleanExpression) : Aggregator bool :=
  {| agg_init := false;
     agg_step := fun b r => b || holds c r |}.

(** [ht.aggregate(a)] for one aggregator *)
Definition aggregate1 {A} (ht : list Row) (a : Aggregator A) : A :=
  fold_left (agg_step a) ht (agg_init a).

(** [ht.aggregate] of an [hl.struct] of named aggregators: one pass over
    the rows; every row is fed to every aggregator of the struct. *)
Definition struct_step {A} (st : list (string * Aggregator A * A)) (r : Row)
  : list (string * Aggregator A * A) :=
  map (fun kas => let '(k, a, s) := kas in (k, a, agg_step a s r)) st.

Definition aggregate_struct {A} (ht : list Row)
    (fields : list (string * Aggregator A)) : list (string * A) :=
  map (fun kas => let '(k, _, s) := kas in (k, s))
      (fold_left struct_step ht
         (map (fun ka => (fst ka, snd ka, agg_init (snd ka))) fields)).

(** One entry of a [field_check_expr] dictionary. *)
Record FieldCheck : Type := {
  fc_expr : BooleanExpression;
  fc_agg_func : BooleanExpression -> Aggregator Z;
  fc_display_fields : list (string * (Row -> dval))
}.

(** [ht.select] of the display fields, as the rows [show] prints (the key
    columns, which [select] keeps, are left out). *)
Definition select (display_fields : list (string * (Row -> dval)))
    (ht : list Row) : list (list (string * dval)) :=
  map (fun r => map (fun kf => (fst kf, snd kf r)) display_fields) ht.

(** [ht.show()] prints the first ten rows. *)
Definition show (shown : list (list (string * dval))) : M unit :=
  emit (EngineShow (firstn 10 shown)).

(** [100 * (n_fail / ht_count)] *)
Definition percentage (n_fail ht_count : Z) : res float :=
  match int_truediv n_fail ht_count with
  | Ok x => Ok (float_mul (float_of_int 100) x)
  | Raise e => Raise e
  end.

(** [generic_field_check] (validity_checks.py, lines 18-72).  The count in
    hand, [report_count] is the body from the row count on. *)
Definition generic_field_check
    (ht : list Row)
    (check_description : string)
    (display_fields : list (string * (Row -> dval)))
    (cond_expr : option BooleanExpression)
    (verbose show_percent_sites : bool)
    (n_fail ht_count : option Z) : M unit :=
  let report_count (n_fail : Z) : M unit :=
    ht_count <- match show_percent_sites, ht_count with
                | true, None => emit EngineCount ;;; ret (Some (tcount ht))
                | _, _ => ret ht_count
                end ;;
    if n_fail >? 0 then
      emit (Info "Found %d sites that fail %s check:"
                 [AInt n_fail; AStr check_description]) ;;;
      (if show_percent_sites then
         match ht_count with
         | Some c =>
             percent <- lift (percentage n_fail c) ;;
             emit (Info "Percentage of sites that fail: %.2f %%"
                        [AFloat percent])
         | None => raise TypeError
         end
       else ret tt) ;;;
      match cond_expr with
      | Some c => show (select display_fields (tfilter ht c))
      | None => ret tt
      end
    else
      emit (Info "PASSED %s check" [AStr check_description]) ;;;
      if verbose then show (select display_fields ht) else ret tt
  in
  match n_fail, cond_expr with
  | None, None =>
      raise (ValueError "At least one of n_fail or cond_expr must be defined!")
  | None, Some c =>
      emit EngineCount ;;; report_count (tcount (tfilter ht c))
  | Some n, _ => report_count n
  end.

(** [generic_field_check_loop] (lines 339-371): one aggregation for all the
    counts, then the reporter, entry by entry. *)
Definition generic_field_check_loop
    (ht : list Row)
    (field_check_expr : dict FieldCheck)
    (verbose show_percent_sites : bool)
    (ht_count : option Z) : M unit :=
  emit EngineAggregate ;;;
  let ht_field_check_counts :=
    aggregate_struct ht
      (map (fun kv => (fst kv, fc_agg_func (snd kv) (fc_expr (snd kv))))
           field_check_expr) in
  for_ ht_field_check_counts (fun kn =>
    let '(check_description, n_fail) := kn in
    v <- lift (dict_getitem check_description field_check_expr) ;;
    generic_field_check ht check_description (fc_display_fields v)
      (Some (fc_expr v)) verbose show_percent_sites (Some n_fail) ht_count).

(** The loop without batching, in the words of the specification: each
    check is handed to the reporter with its predicate and no count, so
    the reporter filters the table with that one predicate and counts. *)
Definition unbatched_field_check_loop
    (ht : list Row)
    (field_check_expr : dict FieldCheck)
    (verbose show_percent_sites : bool)
    (ht_count : option Z) : M unit :=
  for_ field_check_expr (fun kv =>
    generic_field_check ht (fst kv) (fc_display_fields (snd kv))
      (Some (fc_expr (snd kv))) verbose show_percent_sites None ht_count).

End Engine.

Arguments percentage n_fail ht_count : simpl never.
Arguments Aggregator Row A : clear implicits.
Arguments FieldCheck Row : clear implicits.
Arguments BooleanExpression Row : clear implicits.
Arguments agg_init {Row A} _.
Arguments agg_step {Row A} _ _ _.

(** What a reader of the output sees: the engine's count and aggregate
    requests are not part of it. *)
Definition visible (ev : event) : bool :=
  match ev with
  | EngineCount | EngineAggregate => false
  | _ => true
  end.

Definition report {A} (m : M A) : list event * res A :=
  (filter visible (events m), outcome m).

(** The two lines by which the reporter classifies a check. *)
Definition found_line (n_fail : Z) (check_description : string) : event :=
  Info "Found %d sites that fail %s check:" [AInt n_fail; AStr check_description].

Definition passed_line (check_description : string) : event :=
  Info "PASSED %s check" [AStr check_description].

(** The percentages a call logs, in order. *)
Definition percentage_of (ev : event) : list float :=
  match ev with
  | Info fmt [AFloat x] =>
      if String.eqb fmt "Percentage of sites that fail: %.2f %%" then [x] else []
  | _ => []
  end.

Definition percentages {A} (m : M A) : list float :=
  flat_map percentage_of (events m).

(** What the reporter's verdict lines say of each check. *)
Inductive verdict : Type :=
| Passed
| FailedSites (n : Z).

Definition verdict_of (ev : event) : list (string * verdict) :=
  match ev with
  | Info fmt [AInt n; AStr d] =>
      if String.eqb fmt "Found %d sites that fail %s check:"
      then [(d, FailedSites n)] else []
  | Info fmt [AStr d] =>
      if String.eqb fmt "PASSED %s check" then [(d, Passed)] else []
  | _ => []
  end.

(** The pass/fail classification a call writes, check by check. *)
Definition verdicts {A} (m : M A) : list (string * verdict) :=
  flat_map verdict_of (events m).

(** the verdict the reporter gives a count *)
Definition count_verdict (n_fail : Z) : verdict :=
  if n_fail >? 0 then FailedSites n_fail else Passed.

(** ** Tables as objects

    A table is an object of the engine, and a Python variable holds a
    reference to it.  The methods the reporter calls on a table either read
    it ([count], [show]) or build a new table from it ([filter], [select],
    [drop]).  The store keeps every table of the session under its
    reference, so that what a call does to the tables it is handed can be
    read off the store it leaves. *)

Section Objects.
Context {Row : Type}.

(** A table of the session: a dataset, with rows of type [Row]; or a table
    made by [select], which keeps of a row the selected columns: the display
    fields, with the column [_fail] when it is selected. *)
Inductive table_object : Type :=
| DataTable (rows : list Row)
| FailTable (rows : list (option bool * list (string * dval)))
| DisplayTable (rows : list (list (string * dval))).

Definition Ref : Type := nat.

Definition Store : Type := list table_object.

(** A computation on the store: what it logs and returns, and the store it
    leaves. *)
Definition SM (A : Type) : Type := Store -> M A * Store.

Definition sm_ret {A} (a : A) : SM A := fun s => (ret a, s).

Definition sm_lift {A} (m : M A) : SM A := fun s => (m, s).

Definition sm_bind {A B} (m : SM A) (k : A -> SM B) : SM B :=
  fun s =>
    match m s with
    | ((l1, Ok a), s1) => let '((l2, r), s2) := k a s1 in ((l1 ++ l2, r), s2)
    | ((l1, Raise e), s1) => ((l1, Raise e), s1)
    end.

(** a new table joins the store under a new reference *)
Definition new_table (o : table_object) : SM Ref :=
  fun s => (ret (List.length s), s ++ [o]).

(** the table a reference stands for *)
Definition table_at (p : Ref) : SM table_object :=
  fun s => (match nth_error s p with
            | Some o => ret o
            | None => raise AttributeError
            end, s).

(** [ht.filter(c)] on a dataset *)
Definition obj_filter (p : Ref) (c : BooleanExpression Row) : SM Ref :=
  sm_bind (table_at p) (fun o =>
    match o with
    | DataTable rows => new_table (DataTable (tfilter rows c))
    | _ => sm_lift (raise AttributeError)
    end).

(** [ht.count()] *)
Definition obj_count (p : Ref) : SM Z :=
  sm_bind (table_at p) (fun o =>
    sm_lift (emit EngineCount ;;;
             ret match o with
                 | DataTable rows => tcount rows
                 | FailTable rows => tcount rows
                 | DisplayTable rows => tcount rows
                 end)).

(** [ht.select] of the column [_fail] and of the display fields *)
Definition obj_select_fail (p : Ref) (c : BooleanExpression Row)
    (display_fields : list (string * (Row -> dval))) : SM Ref :=
  sm_bind (table_at p) (fun o =>
    match o with
    | DataTable rows =>
        new_table
          (FailTable
             (map (fun r => (c r, map (fun kf => (fst kf, snd kf r))
                                      display_fields)) rows))
    | _ => sm_lift (raise AttributeError)
    end).

(** [ht.filter(ht._fail)] *)
Definition obj_filter_fail (p : Ref) : SM Ref :=
  sm_bind (table_at p) (fun o =>
    match o with
    | FailTable rows =>
        new_table
          (FailTable
             (filter (fun row => match fst row with
                                 | Some true => true
                                 | _ => false
                                 end) rows))
    | _ => sm_lift (raise AttributeError)
    end).

(** [ht.drop("_fail")] *)
Definition obj_drop_fail (p : Ref) : SM Ref :=
  sm_bind (table_at p) (fun o =>
    match o with
    | FailTable rows => new_table (DisplayTable (map snd rows))
    | _ => sm_lift (raise AttributeError)
    end).

(** [ht.select] of the display fields *)
Definition obj_select (p : Ref)
    (display_fields : list (string * (Row -> dval))) : SM Ref :=
  sm_bind (table_at p) (fun o =>
    match o with
    | DataTable rows => new_table (DisplayTable (select display_fields rows))
    | _ => sm_lift (raise AttributeError)
    end).

(** [ht.show()], for a table of display fields *)
Definition obj_show (p : Ref) : SM unit :=
  sm_bind (table_at p) (fun o =>
    match o with
    | DisplayTable rows => sm_lift (show rows)
    | _ => sm_lift (raise AttributeError)
    end).

(** [generic_field_check] (lines 18-72) on the store: [ht] is a reference,
    and every table the body makes is a table of the store.  The local
    variable [ht] is bound anew at line 66; the caller's reference is not. *)
Definition generic_field_check_on_store
    (ht : Ref)
    (check_description : string)
    (display_fields : list (string * (Row -> dval)))
    (cond_expr : option (BooleanExpression Row))
    (verbose show_percent_sites : bool)
    (n_fail ht_count : option Z) : SM unit :=
  let report_count (n_fail : Z) : SM unit :=
    sm_bind
      match show_percent_sites, ht_count with
      | true, None => sm_bind (obj_count ht) (fun c => sm_ret (Some c))
      | _, _ => sm_ret ht_count
      end
      (fun ht_count =>
         if n_fail >? 0 then
           sm_bind
             (sm_lift
                (emit (Info "Found %d sites that fail %s check:"
                            [AInt n_fail; AStr check_description]) ;;;
                 if show_percent_sites then
                   match ht_count with
                   | Some c =>
                       percent <- lift (percentage n_fail c) ;;
                       emit (Info "Percentage of sites that fail: %.2f %%"
                                  [AFloat percent])
                   | None => raise TypeError
                   end
                 else ret tt))
             (fun _ =>
                match cond_expr with
                | Some c =>
                    sm_bind (obj_select_fail ht c display_fields) (fun ht =>
                    sm_bind (obj_filter_fail ht) (fun failing =>
                    sm_bind (obj_drop_fail failing) obj_show))
                | None => sm_ret tt
                end)
         else
           sm_bind
             (sm_lift (emit (Info "PASSED %s check" [AStr check_description])))
             (fun _ =>
                if verbose
                then sm_bind (obj_select ht display_fields) obj_show
                else sm_ret tt))
  in
  match n_fail, cond_expr with
  | None, None =>
      sm_lift
        (raise (ValueError "At least one of n_fail or cond_expr must be defined!"))
  | None, Some c =>
      sm_bind (obj_filter ht c) (fun filtered =>
      sm_bind (obj_count filtered) report_count)
  | Some n, _ => report_count n
  end.

End Objects.

Arguments table_object Row : clear implicits.
Arguments Store Row : clear implicits.
Arguments SM Row A : clear implicits.

(** ** Release tables: one row per site, with its locus, its filters and
    its info struct *)

Record Locus : Type := { contig : string; position : Z }.

Record Site : Type := {
  locus : Locus;
  filters : option (list string);
  info : list (string * option Q)
}.

(** A table: the fields of its info struct, and its rows. *)
Record Table : Type := {
  info_fields : list string;
  rows : list Site
}.

(** A numeric expression over the rows; [None] is a missing value. *)
Definition NumericExpression : Type := Site -> option Q.

(** [x in xs] for a list of strings *)
Definition str_in (x : string) (xs : list string) : bool :=
  existsb (String.eqb x) xs.

Definition info_value (field : string) : NumericExpression :=
  fun r => match dict_get field (info r) with Some v => v | None => None end.

(** [t.info[field]]: a field the struct does not have is a KeyError. *)
Definition info_field (t : Table) (field : string) : res NumericExpression :=
  if str_in field (info_fields t) then Ok (info_value field)
  else Raise (KeyError field).

Definition Qlt_bool (x y : Q) : bool := negb (Qle_bool y x).

(** Comparisons are missing when an operand is. *)
Definition hl_cmp (op : Q -> Q -> bool) (a b : NumericExpression)
  : BooleanExpression Site :=
  fun r => match a r, b r with
           | Some x, Some y => Some (op x y)
           | _, _ => None
           end.

Definition hl_eq := hl_cmp Qeq_bool.
Definition hl_ne := hl_cmp (fun x y => negb (Qeq_bool x y)).
Definition hl_lt := hl_cmp Qlt_bool.
Definition hl_le := hl_cmp Qle_bool.
Definition hl_gt := hl_cmp (fun x y => Qlt_bool y x).

Definition hl_lit (q : Q) : NumericExpression := fun _ => Some q.

Definition hl_is_missing (a : NumericExpression) : BooleanExpression Site :=
  fun r => match a r with None => Some true | Some _ => Some false end.

Definition hl_is_defined (a : NumericExpression) : BooleanExpression Site :=
  fun r => match a r with None => Some false | Some _ => Some true end.

(** [a & b], in Hail's three-valued logic *)
Definition hl_and (a b : BooleanExpression Site) : BooleanExpression Site :=
  fun r => match a r, b r with
           | Some false, _ | _, Some false => Some false
           | Some true, Some true => Some true
           | _, _ => None
           end.

Definition hl_if_else (c a b : BooleanExpression Site) : BooleanExpression Site :=
  fun r => match c r with
           | Some true => a r
           | Some false => b r
           | None => None
           end.

(** the value of [hl.sum] on a row: missing terms are left out *)
Definition sum_value (es : list NumericExpression) : NumericExpression :=
  fun r => Some (fold_right (fun e acc =>
                   match e r with Some x => (x + acc)%Q | None => acc end)
                 (0 # 1) es).

(** [hl.sum] of a Python list of expressions.  The list is turned into an
    array expression first; an empty list leaves Hail without an element
    type for it, and the argument check of [hl.sum] refuses the call. *)
Definition hl_sum (es : list NumericExpression) : res NumericExpression :=
  match es with
  | [] => Raise TypeError
  | _ :: _ => Ok (sum_value es)
  end.

(** [hl.struct] of named numeric expressions, for display *)
Definition display (fields : list (string * NumericExpression))
  : list (string * (Site -> dval)) :=
  map (fun kf => (fst kf, fun r => DNum (snd kf r))) fields.

Definition display_filters : Site -> dval := fun r => DStrs (filters r).

(** [hl.filter_intervals] with the interval of a whole contig *)
Definition filter_contig (t : Table) (c : string) : Table :=
  {| info_fields := info_fields t;
     rows := filter (fun r => String.eqb (contig (locus r)) c) (rows t) |}.

Definition table_filter (t : Table) (c : BooleanExpression Site) : Table :=
  {| info_fields := info_fields t; rows := tfilter (rows t) c |}.

(** ** The check families *)

(** [compare_subset_freqs] (lines 374-447) *)
Definition compare_subset_freqs
    (t : Table) (subsets : list string) (verbose show_percent_sites : bool)
    (delimiter : string) (metric_first_field : bool) (metrics : list string)
  : M unit :=
  field_check_expr <-
    fold_ subsets (fun field_check_expr subset =>
      if Str.truthy subset then
        fold_ metrics (fun field_check_expr metric =>
          fold_ ["adj"; "raw"] (fun field_check_expr group =>
            emit (Info "Comparing the %s subset's %s %s to entire callset's %s %s"
                       [AStr subset; AStr group; AStr metric; AStr group;
                        AStr metric]) ;;;
            let check_field_left := metric +:+ delimiter +:+ group in
            let check_field_right :=
              if metric_first_field
              then metric +:+ delimiter +:+ subset +:+ delimiter +:+ group
              else subset +:+ delimiter +:+ metric +:+ delimiter +:+ group in
            l <- lift (info_field t check_field_left) ;;
            r <- lift (info_field t check_field_right) ;;
            ret (dict_set (check_field_left +:+ " != " +:+ check_field_right)
                   {| fc_expr := hl_eq l r;
                      fc_agg_func := count_where;
                      fc_display_fields :=
                        display [(check_field_left, l); (check_field_right, r)] |}
                   field_check_expr))
            field_check_expr)
          field_check_expr
      else ret field_check_expr) [] ;;
  generic_field_check_loop (rows t) field_check_expr verbose
    show_percent_sites None ;;;
  ac_raw <- lift (info_field t ("AC" +:+ delimiter +:+ "raw")) ;;
  emit EngineAggregate ;;;
  let total_defined_raw_ac :=
    aggregate1 (rows t) (count_where (hl_is_defined ac_raw)) in
  emit (Info "Total defined raw AC count: %s" [AInt total_defined_raw_ac]).

(** [check_raw_and_adj_callstats] (lines 581-714) *)
Definition check_raw_and_adj_callstats
    (t : Table) (subsets : list string) (verbose : bool)
    (delimiter : string) (metric_first_field : bool) : M unit :=
  field_check_expr <-
    fold_ ["raw"; "adj"] (fun field_check_expr group =>
      field_check_expr <-
        fold_ ["AC"; "nhomalt"] (fun field_check_expr subfield =>
          let check_field := subfield +:+ delimiter +:+ group in
          let an_field := "AN" +:+ delimiter +:+ group in
          an <- lift (info_field t an_field) ;;
          chk <- lift (info_field t check_field) ;;
          ret (dict_set
                 (check_field
                  +:+ " defined when AN defined and missing when AN missing")
                 {| fc_expr := hl_if_else (hl_is_missing an)
                                 (hl_is_defined chk) (hl_is_missing chk);
                    fc_agg_func := count_where;
                    fc_display_fields :=
                      display [(an_field, an); (check_field, chk)] |}
                 field_check_expr))
          field_check_expr ;;
      let check_field := "AF" +:+ delimiter +:+ group in
      let an_field := "AN" +:+ delimiter +:+ group in
      an <- lift (info_field t an_field) ;;
      chk <- lift (info_field t check_field) ;;
      let field_check_expr :=
        dict_set
          (check_field
           +:+ " defined when AN defined (and > 0) and missing when AN missing")
          {| fc_expr := hl_if_else (hl_is_missing an) (hl_is_defined chk)
                          (hl_and (hl_gt an (hl_lit (0 # 1))) (hl_is_missing chk));
             fc_agg_func := count_where;
             fc_display_fields := display [(an_field, an); (check_field, chk)] |}
          field_check_expr in
      ret (dict_set (check_field +:+ " missing when AN 0")
             {| fc_expr := hl_and (hl_eq an (hl_lit (0 # 1))) (hl_is_defined chk);
                fc_agg_func := count_where;
                fc_display_fields := display [(an_field, an); (check_field, chk)] |}
             field_check_expr)) [] ;;
  field_check_expr <-
    fold_ ["AC"; "AF"] (fun field_check_expr subfield =>
      let check_field := subfield +:+ delimiter +:+ "raw" in
      chk <- lift (info_field t check_field) ;;
      let field_check_expr :=
        dict_set (check_field +:+ " > 0")
          {| fc_expr := hl_le chk (hl_lit (0 # 1));
             fc_agg_func := count_where;
             fc_display_fields := display [(check_field, chk)] |}
          field_check_expr in
      let check_field := subfield +:+ delimiter +:+ "adj" in
      chk <- lift (info_field t check_field) ;;
      ret (dict_set (check_field +:+ " >= 0")
             {| fc_expr := hl_lt chk (hl_lit (0 # 1));
                fc_agg_func := count_where;
                fc_display_fields :=
                  display [(check_field, chk)] ++ [("filters", display_filters)] |}
             field_check_expr)) field_check_expr ;;
  field_check_expr <-
    fold_ ["AC"; "AN"; "nhomalt"] (fun field_check_expr subfield =>
      let check_field_left := subfield +:+ delimiter +:+ "raw" in
      let check_field_right := subfield +:+ delimiter +:+ "adj" in
      l <- lift (info_field t check_field_left) ;;
      r <- lift (info_field t check_field_right) ;;
      let field_check_expr :=
        dict_set (check_field_left +:+ " >= " +:+ check_field_right)
          {| fc_expr := hl_lt l r;
             fc_agg_func := count_where;
             fc_display_fields :=
               display [(check_field_left, l); (check_field_right, r)] |}
          field_check_expr in
      fold_ subsets (fun field_check_expr subset =>
        let subset := if Str.truthy subset then subset +:+ delimiter else subset in
        let field_check_label :=
          if metric_first_field
          then subfield +:+ delimiter +:+ subset
          else subset +:+ subfield +:+ delimiter in
        let check_field_left := field_check_label +:+ "raw" in
        let check_field_right := field_check_label +:+ "adj" in
        l <- lift (info_field t check_field_left) ;;
        r <- lift (info_field t check_field_right) ;;
        ret (dict_set (check_field_left +:+ " >= " +:+ check_field_right)
               {| fc_expr := hl_lt l r;
                  fc_agg_func := count_where;
                  fc_display_fields :=
                    display [(check_field_left, l); (check_field_right, r)] |}
               field_check_expr)) field_check_expr) field_check_expr ;;
  generic_field_check_loop (rows t) field_check_expr verbose false None.

(** [xs.index(x)]: the first position, or ValueError. *)
Fixpoint list_index (x : string) (xs : list string) : res nat :=
  match xs with
  | [] => Raise (ValueError "x is not in list")
  | y :: ys =>
      if String.eqb y x then Ok O
      else match list_index x ys with
           | Ok n => Ok (S n)
           | Raise e => Raise e
           end
  end.

Fixpoint insert_by_key (kx : nat * string) (l : list (nat * string))
  : list (nat * string) :=
  match l with
  | [] => [kx]
  | ky :: l' =>
      if (fst kx <=? fst ky)%nat then kx :: l else ky :: insert_by_key kx l'
  end.

Fixpoint keyed (sort_order xs : list string) : res (list (nat * string)) :=
  match xs with
  | [] => Ok []
  | x :: xs' =>
      match list_index x sort_order with
      | Raise e => Raise e
      | Ok n =>
          match keyed sort_order xs' with
          | Raise e => Raise e
          | Ok l => Ok ((n, x) :: l)
          end
      end
  end.

(** [sorted(xs, key=lambda x: sort_order.index(x))]: the keys are computed
    first (one outside [sort_order] is a ValueError), the sort is stable. *)
Definition sorted_by_index (sort_order xs : list string) : res (list string) :=
  match keyed sort_order xs with
  | Raise e => Raise e
  | Ok l => Ok (map snd (fold_right insert_by_key [] l))
  end.

(** The name of the field of metric [metric] whose labels follow. *)
Definition field_prefix_of (metric_first_field : bool)
    (metric delimiter subset : string) : string :=
  if metric_first_field
  then metric +:+ delimiter +:+ subset
  else subset +:+ metric +:+ delimiter.

(** [make_group_sum_expr_dict] (lines 123-211).
    [make_label_combos], of gnomad.utils.vcf, is a parameter: it reads the
    label groups and the delimiter and leaves the dictionary as it is.  The
    second component of the result is the caller's [label_groups] after the
    call. *)
Definition make_group_sum_expr_dict
    (make_label_combos : dict (list string) -> string -> list string)
    (t : Table) (subset : string) (label_groups : dict (list string))
    (sort_order : list string) (delimiter : string)
    (metric_first_field : bool) (metrics : list string)
  : M (dict (FieldCheck Site)) * dict (list string) :=
  let subset := if Str.truthy subset then subset +:+ delimiter else subset in
  let label_combos := make_label_combos label_groups delimiter in
  match dict_pop "group" label_groups with
  | Raise e => (raise e, label_groups)
  | Ok (groups, label_groups) =>
      (group <- lift (match groups with
                      | g :: _ => Ok g
                      | [] => Raise IndexError
                      end) ;;
       sum_group_keys <- lift (sorted_by_index sort_order (dict_keys label_groups)) ;;
       let sum_group := String.concat delimiter sum_group_keys in
       let info_fields := info_fields t in
       annot_dict <-
         fold_ metrics (fun annot_dict metric =>
           let field_prefix :=
             field_prefix_of metric_first_field metric delimiter subset in
           sum_group_exprs <-
             fold_ label_combos (fun sum_group_exprs label =>
               let field := field_prefix +:+ label in
               if str_in field info_fields then
                 e <- lift (info_field t field) ;;
                 ret (sum_group_exprs ++ [e])
               else
                 emit (Warning "%s is not in table's info field" [AStr field]) ;;;
                 ret sum_group_exprs) [] ;;
           s <- lift (hl_sum sum_group_exprs) ;;
           ret (dict_set
                  ("sum" +:+ delimiter +:+ field_prefix +:+ group +:+ delimiter
                   +:+ sum_group)
                  s annot_dict)) [] ;;
       fold_ metrics (fun field_check_expr metric =>
         let check_field_left :=
           if metric_first_field
           then metric +:+ delimiter +:+ subset +:+ group
           else subset +:+ metric +:+ delimiter +:+ group in
         let check_field_right :=
           "sum" +:+ delimiter +:+ check_field_left +:+ delimiter +:+ sum_group in
         l <- lift (info_field t check_field_left) ;;
         s <- lift (dict_getitem check_field_right annot_dict) ;;
         ret (dict_set (check_field_left +:+ " = " +:+ check_field_right)
                {| fc_expr := hl_ne l s;
                   fc_agg_func := count_where;
                   fc_display_fields :=
                     display [(check_field_left, l); (check_field_right, s)] |}
                field_check_expr)) [],
       label_groups)
  end.

(** [check_sex_chr_metrics] (lines 717-791).
    [in_x_nonpar] is the reference genome's test "on chrX outside the
    pseudo-autosomal regions", a parameter. *)
Definition check_sex_chr_metrics
    (in_x_nonpar : Locus -> bool)
    (t : Table) (info_metrics contigs : list string) (verbose : bool)
    (delimiter : string) : M unit :=
  let xx_metrics := filter (Str.contains (delimiter +:+ "XX")) info_metrics in
  (if str_in "chrY" contigs then
     emit (Info "Check values of XX metrics for Y variants are NA:" []) ;;;
     let t_y := filter_contig t "chrY" in
     metrics_values <-
       fold_ xx_metrics (fun metrics_values metric =>
         e <- lift (info_field t_y metric) ;;
         ret (dict_set metric (agg_any (hl_is_defined e)) metrics_values)) [] ;;
     emit EngineAggregate ;;;
     let output := aggregate_struct (rows t_y) metrics_values in
     for_ output (fun mv =>
       let '(metric, value) := mv in
       if (value : bool) then
         e <- lift (info_field t_y metric) ;;
         emit EngineAggregate ;;;
         let values_found :=
           firstn 1 (flat_map (fun r => match e r with
                                        | Some x => [x]
                                        | None => []
                                        end) (rows t_y)) in
         emit (Info "FAILED %s = %s check for Y variants. Values found: %s"
                    [AStr metric; ANone; AVals values_found])
       else
         emit (Info "PASSED %s = %s check for Y variants" [AStr metric; ANone]))
   else ret tt) ;;;
  let t_x := filter_contig t "chrX" in
  let t_xnonpar := table_filter t_x (fun r => Some (in_x_nonpar (locus r))) in
  emit EngineCount ;;;
  let n := tcount (rows t_xnonpar) in
  emit (Info "Found %d X nonpar sites" [AInt n]) ;;;
  emit (Info "Check (nhomalt == nhomalt_xx) for X nonpar variants:" []) ;;;
  let xx_metrics := filter (Str.contains "nhomalt") xx_metrics in
  field_check_expr <-
    fold_ xx_metrics (fun field_check_expr metric =>
      let standard_field := Str.remove (delimiter +:+ "XX") metric in
      let check_field_left := metric in
      let check_field_right := standard_field in
      l <- lift (info_field t_xnonpar check_field_left) ;;
      r <- lift (info_field t_xnonpar check_field_right) ;;
      ret (dict_set (check_field_left +:+ " == " +:+ check_field_right)
             {| fc_expr := hl_ne l r;
                fc_agg_func := count_where;
                fc_display_fields :=
                  display [(check_field_left, l); (check_field_right, r)] |}
             field_check_expr)) [] ;;
  generic_field_check_loop (rows t_xnonpar) field_check_expr verbose false None.

(** ** What the check families register and count *)

(** the number of rows of [t] that satisfy [p] *)
Definition rows_where (t : Table) (p : Site -> bool) : Z :=
  Z.of_nat (List.length (filter p (rows t))).

(** both values present and in the given relation *)
Definition values_rel (op : Q -> Q -> bool) (l r : string) (s : Site) : bool :=
  match info_value l s, info_value r s with
  | Some x, Some y => op x y
  | _, _ => false
  end.

Definition values_equal := values_rel Qeq_bool.
Definition values_differ := values_rel (fun x y => negb (Qeq_bool x y)).
Definition value_less := values_rel Qlt_bool.
Definition value_at_least := values_rel (fun x y => Qle_bool y x).

Definition default_metrics : list string := ["AC"; "AN"; "nhomalt"].

(** the two fields [compare_subset_freqs] compares *)
Definition subset_freq_left (delimiter metric group : string) : string :=
  metric +:+ delimiter +:+ group.

Definition subset_freq_right (delimiter : string) (metric_first_field : bool)
    (subset metric group : string) : string :=
  if metric_first_field
  then metric +:+ delimiter +:+ subset +:+ delimiter +:+ group
  else subset +:+ delimiter +:+ metric +:+ delimiter +:+ group.

Definition subset_freq_entry (delimiter : string) (metric_first_field : bool)
    (subset metric group : string) : string * FieldCheck Site :=
  let l := subset_freq_left delimiter metric group in
  let r := subset_freq_right delimiter metric_first_field subset metric group in
  (l +:+ " != " +:+ r,
   {| fc_expr := hl_eq (info_value l) (info_value r);
      fc_agg_func := count_where;
      fc_display_fields := display [(l, info_value l); (r, info_value r)] |}).

(** the assignments of [compare_subset_freqs], in order *)
Definition subset_freq_entries (delimiter : string) (metric_first_field : bool)
    (metrics subsets : list string) : list (string * FieldCheck Site) :=
  flat_map (fun subset =>
    if Str.truthy subset then
      flat_map (fun metric =>
        map (subset_freq_entry delimiter metric_first_field subset metric)
            ["adj"; "raw"]) metrics
    else []) subsets.

(** the info fields [compare_subset_freqs] reads *)
Definition subset_freq_fields (delimiter : string) (metric_first_field : bool)
    (metrics subsets : list string) : list string :=
  ("AC" +:+ delimiter +:+ "raw")
  :: flat_map (fun subset =>
       if Str.truthy subset then
         flat_map (fun metric =>
           flat_map (fun group =>
             [subset_freq_left delimiter metric group;
              subset_freq_right delimiter metric_first_field subset metric group])
             ["adj"; "raw"]) metrics
       else []) subsets.

(** The assignments of [check_raw_and_adj_callstats], loop by loop. *)
Definition callstats_group_entries (delimiter group : string)
  : list (string * FieldCheck Site) :=
  let an_field := "AN" +:+ delimiter +:+ group in
  let an := info_value an_field in
  map (fun subfield =>
         let check_field := subfield +:+ delimiter +:+ group in
         let chk := info_value check_field in
         (check_field +:+ " defined when AN defined and missing when AN missing",
          {| fc_expr := hl_if_else (hl_is_missing an)
                          (hl_is_defined chk) (hl_is_missing chk);
             fc_agg_func := count_where;
             fc_display_fields := display [(an_field, an); (check_field, chk)] |}))
      ["AC"; "nhomalt"]
  ++ (let check_field := "AF" +:+ delimiter +:+ group in
      let chk := info_value check_field in
      [(check_field
        +:+ " defined when AN defined (and > 0) and missing when AN missing",
        {| fc_expr := hl_if_else (hl_is_missing an) (hl_is_defined chk)
                        (hl_and (hl_gt an (hl_lit (0 # 1))) (hl_is_missing chk));
           fc_agg_func := count_where;
           fc_display_fields := display [(an_field, an); (check_field, chk)] |});
       (check_field +:+ " missing when AN 0",
        {| fc_expr := hl_and (hl_eq an (hl_lit (0 # 1))) (hl_is_defined chk);
           fc_agg_func := count_where;
           fc_display_fields := display [(an_field, an); (check_field, chk)] |})]).

Definition callstats_sign_entries (delimiter subfield : string)
  : list (string * FieldCheck Site) :=
  let raw := subfield +:+ delimiter +:+ "raw" in
  let adj := subfield +:+ delimiter +:+ "adj" in
  [(raw +:+ " > 0",
    {| fc_expr := hl_le (info_value raw) (hl_lit (0 # 1));
       fc_agg_func := count_where;
       fc_display_fields := display [(raw, info_value raw)] |});
   (adj +:+ " >= 0",
    {| fc_expr := hl_lt (info_value adj) (hl_lit (0 # 1));
       fc_agg_func := count_where;
       fc_display_fields :=
         display [(adj, info_value adj)] ++ [("filters", display_filters)] |})].

(** the raw >= adj entry of the fields [label]raw and [label]adj *)
Definition raw_adj_entry (label : string) : string * FieldCheck Site :=
  let l := label +:+ "raw" in
  let r := label +:+ "adj" in
  (l +:+ " >= " +:+ r,
   {| fc_expr := hl_lt (info_value l) (info_value r);
      fc_agg_func := count_where;
      fc_display_fields := display [(l, info_value l); (r, info_value r)] |}).

(** the label of a subfield in a subset ("" is the whole callset) *)
Definition raw_adj_label (delimiter : string) (metric_first_field : bool)
    (subfield subset : string) : string :=
  let subset := if Str.truthy subset then subset +:+ delimiter else subset in
  if metric_first_field
  then subfield +:+ delimiter +:+ subset
  else subset +:+ subfield +:+ delimiter.

Definition raw_adj_labels (delimiter : string) (metric_first_field : bool)
    (subsets : list string) (subfield : string) : list string :=
  (subfield +:+ delimiter)
  :: map (raw_adj_label delimiter metric_first_field subfield) subsets.

Definition callstats_entries (delimiter : string) (metric_first_field : bool)
    (subsets : list string) : list (string * FieldCheck Site) :=
  flat_map (callstats_group_entries delimiter) ["raw"; "adj"]
  ++ flat_map (callstats_sign_entries delimiter) ["AC"; "AF"]
  ++ flat_map (fun subfield =>
       map raw_adj_entry
           (raw_adj_labels delimiter metric_first_field subsets subfield))
       ["AC"; "AN"; "nhomalt"].

(** the info fields [check_raw_and_adj_callstats] reads *)
Definition callstats_fields (delimiter : string) (metric_first_field : bool)
    (subsets : list string) : list string :=
  flat_map (fun subfield =>
    [subfield +:+ delimiter +:+ "raw"; subfield +:+ delimiter +:+ "adj"])
    ["AN"; "AC"; "nhomalt"; "AF"]
  ++ flat_map (fun subfield =>
       flat_map (fun label => [label +:+ "raw"; label +:+ "adj"])
         (raw_adj_labels delimiter metric_first_field subsets subfield))
       ["AC"; "AN"; "nhomalt"].












(** Modelled from the spec: [make_label_combos] of gnomad.utils.vcf is not
    among the sources; the specification describes it as the Cartesian
    product of one value per axis, the axes visited in the canonical order,
    the values joined by the delimiter.  It serves to run
    [make_group_sum_expr_dict] on examples. *)
Fixpoint label_product (delimiter : string) (axes : list (list string))
  : list string :=
  match axes with
  | [] => []
  | [values] => values
  | values :: rest =>
      flat_map (fun x =>
        map (fun y => x +:+ delimiter +:+ y) (label_product delimiter rest))
        values
  end.

Definition make_label_combos_spec (sort_order : list string)
    (label_groups : dict (list string)) (delimiter : string) : list string :=
  match sorted_by_index sort_order (dict_keys label_groups) with
  | Ok axes =>
      label_product delimiter
        (map (fun axis => match dict_get axis label_groups with
                          | Some values => values
                          | None => []
                          end) axes)
  | Raise _ => []
  end.


(** What [check_sex_chr_metrics] reads, registers and reports. *)
Definition xx_metrics (delimiter : string) (info_metrics : list string)
  : list string :=
  filter (Str.contains (delimiter +:+ "XX")) info_metrics.

Definition xx_nhomalt_metrics (delimiter : string) (info_metrics : list string)
  : list string :=
  filter (Str.contains "nhomalt") (xx_metrics delimiter info_metrics).

(** the sex-agnostic field of an XX metric *)
Definition standard_field (delimiter metric : string) : string :=
  Str.remove (delimiter +:+ "XX") metric.

(** the values of a metric on the chrY rows that have one *)
Definition y_values (t : Table) (metric : string) : list Q :=
  flat_map (fun r => match info_value metric r with
                     | Some x => [x]
                     | None => []
                     end) (rows (filter_contig t "chrY")).

Definition defined_on_y (t : Table) (metric : string) : bool :=
  existsb (holds (hl_is_defined (info_value metric)))
          (rows (filter_contig t "chrY")).

(** the rows of chrX outside the pseudo-autosomal regions *)
Definition x_nonpar (in_x_nonpar : Locus -> bool) (t : Table) : Table :=
  table_filter (filter_contig t "chrX") (fun r => Some (in_x_nonpar (locus r))).

Definition sex_chr_entry (delimiter metric : string) : string * FieldCheck Site :=
  let r := standard_field delimiter metric in
  (metric +:+ " == " +:+ r,
   {| fc_expr := hl_ne (info_value metric) (info_value r);
      fc_agg_func := count_where;
      fc_display_fields := display [(metric, info_value metric); (r, info_value r)] |}).

Definition sex_chr_fields (delimiter : string) (info_metrics : list string)
  : list string :=
  xx_metrics delimiter info_metrics
  ++ map (standard_field delimiter) (xx_nhomalt_metrics delimiter info_metrics).

(** what the chrY check logs for a metric *)
Definition y_report (t : Table) (metric : string) : list event :=
  if defined_on_y t metric then
    [EngineAggregate;
     Info "FAILED %s = %s check for Y variants. Values found: %s"
          [AStr metric; ANone; AVals (firstn 1 (y_values t metric))]]
  else [Info "PASSED %s = %s check for Y variants" [AStr metric; ANone]].

(** The lines of the chrY check: for a metric, the values found when it
    failed, [None] when it passed. *)
Definition y_verdict_of (ev : event) : list (string * option (list Q)) :=
  match ev with
  | Info fmt [AStr metric; ANone; AVals vs] =>
      if String.eqb fmt "FAILED %s = %s check for Y variants. Values found: %s"
      then [(metric, Some vs)] else []
  | Info fmt [AStr metric; ANone] =>
      if String.eqb fmt "PASSED %s = %s check for Y variants"
      then [(metric, None)] else []
  | _ => []
  end.

Definition y_verdicts {A} (m : M A) : list (string * option (list Q)) :=
  flat_map y_verdict_of (events m).

(** the aggregators of the chrY check, one per XX metric *)
Definition y_metrics_values (delimiter : string) (info_metrics : list string)
  : dict (Aggregator Site bool) :=
  dict_of (map (fun metric => (metric, agg_any (hl_is_defined (info_value metric))))
               (xx_metrics delimiter info_metrics)).

(** what the chrY block leaves behind, when it runs *)
Definition y_block_events (t : Table) (delimiter : string)
    (info_metrics : list string) : list event :=
  Info "Check values of XX metrics for Y variants are NA:" []
  :: EngineAggregate
  :: flat_map (fun kv => y_report t (fst kv))
       (y_metrics_values delimiter info_metrics).

(** GRCh38: chrX outside 10001-2781479 and 155701383-156030895 *)
Definition grch38_in_x_nonpar (l : Locus) : bool :=
  String.eqb (contig l) "chrX"
  && negb ((10001 <=? position l) && (position l <=? 2781479)
           || (155701383 <=? position l) && (position l <=? 156030895)).

(** what the first loop of [compare_subset_freqs] logs for a subset *)
Definition subset_freq_log (metrics : list string) (subset : string) : list event :=
  if Str.truthy subset then
    flat_map (fun metric =>
      flat_map (fun group =>
        [Info "Comparing the %s subset's %s %s to entire callset's %s %s"
              [AStr subset; AStr group; AStr metric; AStr group; AStr metric]])
        ["adj"; "raw"]) metrics
  else [].

(** ** Nested values: structs, arrays and sets, for the missingness walker *)

#[local] Unset Elimination Schemes.

Inductive htype : Type :=
| TInt32
| TFloat64
| TStr
| TBool
| TArray (elt : htype)
| TSet (elt : htype)
| TStruct (fields : list (string * htype)).

(** A value; a missing one is [None] wherever a value can stand. *)
Inductive hval : Type :=
| HNum (q : Q)
| HStr (s : string)
| HBool (b : bool)
| HArray (xs : list (option hval))
| HSet (xs : list (option hval))
| HStruct (fs : list (string * option hval)).

(** A row of a table of nested values: its top-level fields. *)
Definition HRow : Type := list (string * option hval).

Definition Expression : Type := HRow -> option hval.

(** [ht.f] *)
Definition row_field (f : string) : Expression :=
  fun r => match dict_get f r with Some v => v | None => None end.

(** [e[key]] on a struct expression; missing when the struct is. *)
Definition get_field (key : string) (e : Expression) : Expression :=
  fun r => match e r with
           | Some (HStruct fs) =>
               match dict_get key fs with Some v => v | None => None end
           | _ => None
           end.

Definition is_none {A} (x : option A) : bool :=
  match x with None => true | Some _ => false end.

(** [e.all(lambda x: hl.is_missing(x))] on the value of an array or set:
    missing when the collection is. *)
Definition all_is_missing (v : option hval) : option bool :=
  match v with
  | None => None
  | Some (HArray xs) | Some (HSet xs) => Some (forallb is_none xs)
  | Some _ => Some false
  end.

(** [hl.or_else(x, d)] *)
Definition or_else (x : option bool) (d : bool) : option bool :=
  match x with None => Some d | Some b => Some b end.

(** [hl.is_missing(e)] on a value *)
Definition is_missing (v : option hval) : option bool := Some (is_none v).

(** What [check_missingness_of_struct] returns: a fraction to aggregate, or
    a dictionary of such results. *)
Inductive missingness : Type :=
| MFraction (predicate : BooleanExpression HRow)
| MDict (d : list (string * missingness)).

(** [check_missingness_of_struct] (lines 1216-1243).  The recursion follows
    the type of the expression, as [isinstance] does. *)
Fixpoint check_missingness_of_struct (ty : htype) (struct_expr : Expression)
    (prefix : string) : missingness :=
  match ty with
  | TStruct fields =>
      MDict (dict_of
               (map (fun kf =>
                       let '(key, fty) := kf in
                       (prefix +:+ "." +:+ key,
                        check_missingness_of_struct fty (get_field key struct_expr)
                          (prefix +:+ "." +:+ key)))
                    fields))
  | TArray _ | TSet _ =>
      MFraction (fun r => or_else (all_is_missing (struct_expr r)) true)
  | _ => MFraction (fun r => is_missing (struct_expr r))
  end.

(** [hl.agg.fraction(p)] over a table: the rows where [p] is true among all
    rows; missing on a table without rows. *)
Definition fraction (ht : list HRow) (p : BooleanExpression HRow) : option Q :=
  match ht with
  | [] => None
  | _ => Some (Qred (Qmake (tcount (tfilter ht p))
                           (Pos.of_nat (List.length ht))))
  end.

Inductive missingness_value : Type :=
| VFraction (v : option Q)
| VDict (d : list (string * missingness_value)).

(** [ht.aggregate] of a struct of fractions and dictionaries of fractions:
    each fraction is computed over the rows. *)
Fixpoint aggregate_missingness (ht : list HRow) (m : missingness)
  : missingness_value :=
  match m with
  | MFraction p => VFraction (fraction ht p)
  | MDict d =>
      VDict (map (fun kv => (fst kv, aggregate_missingness ht (snd kv))) d)
  end.

(** [flatten_missingness_struct], applied to the struct the aggregation
    returns: a nested dictionary is flattened and merged in, a fraction is
    stored under its key. *)
Fixpoint flatten_missingness_struct (missingness_struct : missingness_value)
  : dict (option Q) :=
  match missingness_struct with
  | VFraction _ => []
  | VDict d =>
      (fix items (d : list (string * missingness_value))
           (missingness_dict : dict (option Q)) : dict (option Q) :=
         match d with
         | [] => missingness_dict
         | (key, value) :: d' =>
             items d'
               match value with
               | VDict _ =>
                   fold_left assign (flatten_missingness_struct value)
                     missingness_dict
               | VFraction x => dict_set key x missingness_dict
               end
         end) d []
  end.

#[local] Set Elimination Schemes.

(** ** The struct [hl.struct] makes of the walker's dictionary

    The walker's result is a Python dictionary.  Handed to [hl.struct] by
    keyword, its entries are the fields of a struct, in their order; the
    value of an entry becomes an expression.  A fraction is a float
    expression.  A nested Python dictionary becomes a Hail dict, which has
    one type for all its values, cannot be typed without an entry, and keeps
    its entries in the order of their keys. *)

(** the type of a value of the dictionary *)
Inductive missingness_type : Type :=
| FractionType
| DictType (value : missingness_type).

Fixpoint missingness_type_eqb (a b : missingness_type) : bool :=
  match a, b with
  | FractionType, FractionType => true
  | DictType a', DictType b' => missingness_type_eqb a' b'
  | _, _ => false
  end.

(** The type Hail gives a value, if it can give it one: a dictionary needs
    an entry, and values of one and the same type. *)
Fixpoint impute_type (m : missingness) : option missingness_type :=
  match m with
  | MFraction _ => Some FractionType
  | MDict d =>
      match d with
      | [] => None
      | (_, v) :: d' =>
          match impute_type v with
          | None => None
          | Some t =>
              if (fix same (d : list (string * missingness)) : bool :=
                    match d with
                    | [] => true
                    | (_, v') :: d'' =>
                        match impute_type v' with
                        | Some t' => missingness_type_eqb t' t
                        | None => false
                        end && same d''
                    end) d'
              then Some (DictType t)
              else None
          end
      end
  end.

(** the entries of a Hail dict, in the order of their keys (compared
    character by character) *)
Fixpoint insert_entry {V} (kv : string * V) (l : list (string * V))
  : list (string * V) :=
  match l with
  | [] => [kv]
  | kv' :: l' =>
      if String.leb (fst kv) (fst kv') then kv :: l else kv' :: insert_entry kv l'
  end.

Definition sorted_entries {V} (l : list (string * V)) : list (string * V) :=
  fold_right insert_entry [] l.

(** a value as the expression holds it: a nested dictionary is a Hail dict,
    and so are the dictionaries nested in it *)
Fixpoint hail_value (m : missingness) : missingness :=
  match m with
  | MFraction p => MFraction p
  | MDict d =>
      MDict (sorted_entries
               ((fix values (d : list (string * missingness)) :=
                   match d with
                   | [] => []
                   | (k, v) :: d' => (k, hail_value v) :: values d'
                   end) d))
  end.

(** [hl.struct] of the dictionary, handed over by keyword: TypeError when
    what is handed over is no dictionary, or when a value has no type. *)
Definition hl_struct (fields : missingness) : res missingness :=
  match fields with
  | MFraction _ => Raise TypeError
  | MDict d =>
      if forallb (fun kv => match impute_type (snd kv) with
                            | Some _ => true
                            | None => false
                            end) d
      then Ok (MDict (map (fun kv => (fst kv, hail_value (snd kv))) d))
      else Raise TypeError
  end.

(** ** Tables with arrays of structs and an index dictionary in the
    globals, for [unfurl_array_annotations] *)

Inductive gval : Type :=
| GIndexDict (d : dict Z)
| GOther.

Record ArrayTable : Type := {
  row_type : list (string * htype);
  globals : dict gval;
  array_rows : list HRow
}.

(** The value of an unfurled expression on a row: the engine stops on an
    index outside the array. *)
Definition IndexedExpression : Type := HRow -> res (option hval).

(** [a[i]]: missing when the array is; a negative index counts from the
    end. *)
Definition index_array (a : Expression) (i : Z) : IndexedExpression :=
  fun r =>
    match a r with
    | Some (HArray xs) =>
        let n := Z.of_nat (List.length xs) in
        if (0 <=? i) && (i <? n) then Ok (nth (Z.to_nat i) xs None)
        else if (- n <=? i) && (i <? 0) then Ok (nth (Z.to_nat (i + n)) xs None)
        else Raise IndexError
    | _ => Ok None
    end.

(** [s[f]] on an element: missing when the element is. *)
Definition element_field (s : IndexedExpression) (f : string) : IndexedExpression :=
  fun r =>
    match s r with
    | Ok (Some (HStruct fs)) =>
        Ok (match dict_get f fs with Some v => v | None => None end)
    | Ok _ => Ok None
    | Raise e => Raise e
    end.

(** [ht[array][i][f]] *)
Definition unfurled (array : string) (i : Z) (f : string) : IndexedExpression :=
  element_field (index_array (row_field array) i) f.

(** [unfurl_array_annotations] (lines 1265-1301) *)
Definition unfurl_array_annotations (ht : ArrayTable)
    (indexed_array_annotations : dict string) : M (dict IndexedExpression) :=
  fold_ indexed_array_annotations (fun expr_dict item =>
    let '(array, array_index_dict) := item in
    if negb (str_in array (map fst (row_type ht))) then
      raise (ValueError ("Annotation '" +:+ array
                         +:+ "' not found in the Table rows."))
    else if negb (str_in array_index_dict (dict_keys (globals ht))) then
      raise (ValueError ("Annotation '" +:+ array_index_dict
                         +:+ "' not found in the Table globals."))
    else
      array_index_dict <-
        match dict_get array_index_dict (globals ht) with
        | Some (GIndexDict d) => ret d
        | _ => raise AttributeError
        end ;;
      fold_ array_index_dict (fun expr_dict ki =>
        let '(k, i) := ki in
        keys <- match dict_get array (row_type ht) with
                | Some (TArray (TStruct fields)) => ret (map fst fields)
                | Some (TArray _) => raise AttributeError
                | _ => raise TypeError
                end ;;
        fold_ keys (fun expr_dict f =>
          ret (dict_set (f +:+ "_" +:+ k) (unfurled array i f) expr_dict))
          expr_dict) expr_dict) [].

(** the flat fields of an array: one per entry of the index dictionary and
    field of the struct, in the order they are assigned *)
Definition unfurled_fields (array : string) (fields : list string) (d : dict Z)
  : list (string * IndexedExpression) :=
  flat_map (fun ki =>
    map (fun f => (f +:+ "_" +:+ fst ki, unfurled array (snd ki) f)) fields) d.

(** ** Small tables to run the checks on *)

Definition site (c : string) (p : Z) (i : list (string * option Q)) : Site :=
  {| locus := {| contig := c; position := p |}; filters := Some []; info := i |}.

(** One site of a callset with the subset "s": the subset's adj AC differs
    from the callset's, every other pair coincides. *)
Definition subset_table : Table :=
  {| info_fields :=
       ["AC-adj"; "AC-raw"; "AN-adj"; "AN-raw"; "nhomalt-adj"; "nhomalt-raw";
        "AC-s-adj"; "AC-s-raw"; "AN-s-adj"; "AN-s-raw";
        "nhomalt-s-adj"; "nhomalt-s-raw"];
     rows :=
       [site "chr1" 100
          [("AC-adj", Some (1 # 1)); ("AC-raw", Some (2 # 1));
           ("AN-adj", Some (4 # 1)); ("AN-raw", Some (4 # 1));
           ("nhomalt-adj", Some (0 # 1)); ("nhomalt-raw", Some (0 # 1));
           ("AC-s-adj", Some (2 # 1)); ("AC-s-raw", Some (2 # 1));
           ("AN-s-adj", Some (4 # 1)); ("AN-s-raw", Some (4 # 1));
           ("nhomalt-s-adj", Some (0 # 1)); ("nhomalt-s-raw", Some (0 # 1))]] |}.

(** One site of a callset without subsets: the raw AC is missing. *)
Definition callstats_table : Table :=
  {| info_fields :=
       ["AC-raw"; "AC-adj"; "AN-raw"; "AN-adj"; "nhomalt-raw"; "nhomalt-adj";
        "AF-raw"; "AF-adj"];
     rows :=
       [site "chr1" 100
          [("AC-raw", None); ("AC-adj", Some (5 # 1));
           ("AN-raw", Some (10 # 1)); ("AN-adj", Some (8 # 1));
           ("nhomalt-raw", Some (1 # 1)); ("nhomalt-adj", Some (1 # 1));
           ("AF-raw", Some (1 # 2)); ("AF-adj", Some (5 # 8))]] |}.

(** One site with the adj AC of two populations; the field of a third
    population, "eas", is not in the table. *)
Definition pop_table : Table :=
  {| info_fields := ["AC-adj"; "AC-afr-adj"; "AC-nfe-adj"];
     rows :=
       [site "chr1" 100
          [("AC-adj", Some (5 # 1)); ("AC-afr-adj", Some (2 # 1));
           ("AC-nfe-adj", Some (3 # 1))]] |}.

Definition pop_label_groups : dict (list string) :=
  [("group", ["adj"]); ("pop", ["afr"; "eas"; "nfe"])].

Definition pop_sort_order : list string := ["pop"; "sex"; "group"].


(** The sites of the test of [check_sex_chr_metrics]. *)
Definition sex_chr_metrics_list : list string :=
  ["nhomalt"; "nhomalt_XX"; "nhomalt_amr"; "nhomalt_amr_XX"; "AC"; "AC_XX"].

Definition sex_chr_x_sites : list Site :=
  [site "chrX" 9000
     [("nhomalt", Some (3 # 1)); ("nhomalt_XX", Some (2 # 1));
      ("nhomalt_amr", Some (5 # 1)); ("nhomalt_amr_XX", Some (1 # 1));
      ("AC", Some (6 # 1)); ("AC_XX", Some (6 # 1))];
   site "chrX" 1000000
     [("nhomalt", Some (5 # 1)); ("nhomalt_XX", Some (5 # 1));
      ("nhomalt_amr", Some (5 # 1)); ("nhomalt_amr_XX", Some (5 # 1));
      ("AC", Some (10 # 1)); ("AC_XX", Some (10 # 1))]].

Definition sex_chr_y_sites : list Site :=
  [site "chrY" 1000000
     [("nhomalt", Some (5 # 1)); ("nhomalt_XX", None);
      ("nhomalt_amr", None); ("nhomalt_amr_XX", None);
      ("AC_XX", None); ("AC", Some (6 # 1))];
   site "chrY" 2000000
     [("nhomalt", Some (5 # 1)); ("nhomalt_XX", Some (3 # 1));
      ("nhomalt_amr", None); ("nhomalt_amr_XX", None);
      ("AC_XX", None); ("AC", Some (6 # 1))]].

Definition sex_chr_table : Table :=
  {| info_fields := sex_chr_metrics_list;
     rows := sex_chr_x_sites ++ sex_chr_y_sites |}.

(** the same callset without its chrY sites *)
Definition sex_chr_x_table : Table :=
  {| info_fields := sex_chr_metrics_list; rows := sex_chr_x_sites |}.

(** The five rows of the test of [check_missingness_of_struct]. *)
Definition nested_type : htype :=
  TStruct [("a", TInt32); ("b", TStr);
           ("c", TStruct [("d", TArray TStr); ("e", TStr); ("f", TSet TStr)])].

Definition nested_row (idx : Z) (a : Z) (b : option string)
    (d : option (list (option string))) (e : option string)
    (f : list (option string)) : HRow :=
  let str := option_map HStr in
  [("idx", Some (HNum (inject_Z idx)));
   ("s", Some (HStruct
       [("a", Some (HNum (inject_Z a)));
        ("b", str b);
        ("c", Some (HStruct
            [("d", option_map (fun xs => HArray (map str xs)) d);
             ("e", str e);
             ("f", Some (HSet (map str f)))]))]))].

Definition nested_table : list HRow :=
  [nested_row 0 1 (Some "value1") (Some [None; None]) (Some "test1")
     [Some "v1"; Some "v2"];
   nested_row 1 2 (Some "value2") (Some [Some "not missing"; None]) None
     [Some "v3"; None];
   nested_row 2 3 None None None [];
   nested_row 3 4 (Some "value3") (Some [Some "foo"; Some "bar"]) (Some "test2") [];
   nested_row 4 5 (Some "value4") (Some []) (Some "test3") []].

(** The four rows of the test of [unfurl_array_annotations]. *)
Definition freq_struct (ac : Z) (af : Q) (an_eas an_sas : option Z) : option hval :=
  Some (HStruct [("AC", Some (HNum (inject_Z ac))); ("AF", Some (HNum af));
                 ("AN_eas", option_map (fun z => HNum (inject_Z z)) an_eas);
                 ("AN_sas", option_map (fun z => HNum (inject_Z z)) an_sas)]).

Definition freq_row (idx : Z) (freq : list (option hval)) : HRow :=
  [("idx", Some (HNum (inject_Z idx))); ("freq", Some (HArray freq))].

Definition freq_table : ArrayTable :=
  {| row_type :=
       [("idx", TInt32);
        ("freq", TArray (TStruct [("AC", TInt32); ("AF", TFloat64);
                                  ("AN_eas", TInt32); ("AN_sas", TInt32)]))];
     globals := [("freq_index_dict", GIndexDict [("adj", 0); ("raw", 1)])];
     array_rows :=
       [freq_row 0 [freq_struct 5 (1 # 10) (Some 20) (Some 3);
                    freq_struct 10 (1 # 20) (Some 5) None];
        freq_row 1 [freq_struct 6 (2 # 25) None (Some 4);
                    freq_struct 8 (1 # 2) None None];
        freq_row 2 [freq_struct 65 (9 # 50) None (Some 2);
                    freq_struct 88 (1 # 5) None None];
        freq_row 3 [freq_struct 8 (2 # 25) (Some 16) (Some 2); None]] |}.

(** A table whose struct has the fields AN and AN_eas and whose index
    dictionary has the keys adj and eas_adj. *)
Definition clash_table : ArrayTable :=
  {| row_type :=
       [("freq", TArray (TStruct [("AN", TInt32); ("AN_eas", TInt32)]))];
     globals := [("freq_index_dict", GIndexDict [("adj", 0); ("eas_adj", 1)])];
     array_rows :=
       [[("freq",
          Some (HArray
                  [Some (HStruct [("AN", Some (HNum (10 # 1)));
                                  ("AN_eas", Some (HNum (4 # 1)))]);
                   Some (HStruct [("AN", Some (HNum (2 # 1)));
                                  ("AN_eas", Some (HNum (1 # 1)))])]))]] |}.

(** the check "AC-adj != AC-s-adj" as [compare_subset_freqs] registers it *)
Definition coincidence_check : dict (FieldCheck Site) :=
  [subset_freq_entry "-" true "s" "AC" "adj";
   subset_freq_entry "-" true "s" "AN" "adj"].

(** ** Fields looked up on a table *)

(** [ht[name]] with a name the table does not have stops the caller with
    Hail's LookupError, while the expression is built and before any row is
    read.  [Built a] is the value built, [LookupError name] the error. *)
Inductive built (A : Type) : Type :=
| Built (a : A)
| LookupError (field : string).
Arguments Built {A} a.
Arguments LookupError {A} field.

Definition built_bind {A B} (m : built A) (f : A -> built B) : built B :=
  match m with
  | Built a => f a
  | LookupError field => LookupError field
  end.

(** a comprehension whose items are built one after the other *)
Fixpoint built_all {A B} (f : A -> built B) (xs : list A) : built (list B) :=
  match xs with
  | [] => Built []
  | x :: xs' =>
      built_bind (f x) (fun y =>
      built_bind (built_all f xs') (fun ys => Built (y :: ys)))
  end.

(** ** Tables of numbers, for [compute_and_check_summations] *)

Definition NumRow : Type := dict (option Q).

(** A table whose row fields are numbers: the fields, and the rows. *)
Record NumTable : Type := {
  num_fields : list string;
  num_rows : list NumRow
}.

Definition NumExpr : Type := NumRow -> option Q.

Definition num_value (field : string) : NumExpr :=
  fun r => match dict_get field r with Some v => v | None => None end.

(** [ht[field]] *)
Definition num_field (ht : NumTable) (field : string) : built NumExpr :=
  if str_in field (num_fields ht) then Built (num_value field)
  else LookupError field.

(** [a + b]: missing when an operand is *)
Definition hl_add (a b : NumExpr) : NumExpr :=
  fun r => match a r, b r with
           | Some x, Some y => Some (x + y)%Q
           | _, _ => None
           end.

(** [a != b]: missing when an operand is *)
Definition num_ne (a b : NumExpr) : BooleanExpression NumRow :=
  fun r => match a r, b r with
           | Some x, Some y => Some (negb (Qeq_bool x y))
           | _, _ => None
           end.

(** Python's [sum] of expressions: 0 + e1 + e2 + ... *)
Definition py_sum (es : list NumExpr) : NumExpr :=
  fold_left hl_add es (fun _ => Some (0 # 1)).

(** [ht.annotate] of named expressions: each is computed on the row as it
    was and stored under its name, over a field of that name if there is
    one. *)
Definition num_annotate (ht : NumTable) (fields : dict NumExpr) : NumTable :=
  {| num_fields :=
       fold_left (fun fs k => if str_in k fs then fs else fs ++ [k])
                 (dict_keys fields) (num_fields ht);
     num_rows :=
       map (fun r => fold_left assign
                       (map (fun kv => (fst kv, snd kv r)) fields) r)
           (num_rows ht) |}.

(** One entry of [comparison_groups]. *)
Record ComparisonGroup : Type := {
  values_to_sum : list string;
  expected_total : string
}.

(** [compute_and_check_summations] (lines 1332-1396) *)
Definition compute_and_check_summations (ht : NumTable)
    (comparison_groups : dict ComparisonGroup) : built (dict Z) :=
  let summations :=
    dict_of
      (map (fun g =>
              (fst g,
               py_sum (map num_value
                         (filter (fun field => str_in field (num_fields ht))
                                 (values_to_sum (snd g))))))
           comparison_groups) in
  let ht := num_annotate ht summations in
  built_bind
    (built_all (fun g =>
       built_bind (num_field ht (fst g)) (fun l =>
       built_bind (num_field ht (expected_total (snd g))) (fun r =>
       Built (fst g, count_where (num_ne l r)))))
       comparison_groups)
    (fun agg_exprs =>
       Built (aggregate_struct (num_rows ht) (dict_of agg_exprs))).

(** the sum registered for a group, and the dictionary of the sums *)
Definition summation_of (ht : NumTable) (g : ComparisonGroup) : NumExpr :=
  py_sum (map num_value (filter (fun field => str_in field (num_fields ht))
                                (values_to_sum g))).

Definition summations_of (ht : NumTable)
    (comparison_groups : dict ComparisonGroup) : dict NumExpr :=
  map (fun g => (fst g, summation_of ht (snd g))) comparison_groups.

(** What the counts of [compute_and_check_summations] count: the values of
    the fields of the table among [fields] on a row, if all are defined. *)
Fixpoint present_values (ht : NumTable) (fields : list string) (r : NumRow)
  : option (list Q) :=
  match fields with
  | [] => Some []
  | f :: fields' =>
      if str_in f (num_fields ht) then
        match num_value f r, present_values ht fields' r with
        | Some x, Some xs => Some (x :: xs)
        | _, _ => None
        end
      else present_values ht fields' r
  end.

(** a row where every value read is defined and the sum of the summed
    fields is not the expected total *)
Definition sum_mismatch (ht : NumTable) (g : ComparisonGroup) (r : NumRow)
  : bool :=
  match present_values ht (values_to_sum g) r,
        num_value (expected_total g) r with
  | Some xs, Some e => negb (Qeq_bool (fold_left Qplus xs (0 # 1)) e)
  | _, _ => false
  end.

(** The three rows of the test of [compute_and_check_summations]. *)
Definition summations_row (idx ac_afr ac_amr ac an_xx an_xy an : Z) : NumRow :=
  map (fun kv => (fst kv, Some (inject_Z (snd kv))))
      [("idx", idx); ("AC_afr_adj", ac_afr); ("AC_amr_adj", ac_amr);
       ("AC_adj", ac); ("AN_afr_XX_adj", an_xx); ("AN_afr_XY_adj", an_xy);
       ("AN_adj", an)].

Definition summations_table : NumTable :=
  {| num_fields := ["idx"; "AC_afr_adj"; "AC_amr_adj"; "AC_adj";
                    "AN_afr_XX_adj"; "AN_afr_XY_adj"; "AN_adj"];
     num_rows := [summations_row 0 5 10 15 20 30 50;
                  summations_row 1 3 7 10 15 25 40;
                  summations_row 2 2 3 6 10 20 35] |}.

(** the groups of the test, the first with a field the table does not have *)
Definition summations_groups : dict ComparisonGroup :=
  [("AC_group_adj_gen_anc",
    {| values_to_sum := ["AC_afr_adj"; "AC_amr_adj"; "AC_asj_adj"];
       expected_total := "AC_adj" |});
   ("AN_group_adj_gen_anc_sex",
    {| values_to_sum := ["AN_afr_XX_adj"; "AN_afr_XY_adj"];
       expected_total := "AN_adj" |})].

(** a row where the sums of two groups are both defined and differ *)
Definition sums_differ (ht : NumTable) (g h : ComparisonGroup) (r : NumRow)
  : bool :=
  match summation_of ht g r, summation_of ht h r with
  | Some x, Some y => negb (Qeq_bool x y)
  | _, _ => false
  end.

(** ** The check of the VCF header *)

(** The lines [vcf_field_check] logs: two warnings, the three error lines
    of a failed check, and the line of a passed one. *)
Inductive vcf_line : Type :=
| EmptyDescription (field : string)
| NotInHeader (field : string)
| Reconcile
| MissingFields (fields : list string)
| MissingDescriptions (fields : list string)
| PassedVcfFields.

(** [header_dict[item][field]]; [None] when either key is not there, the
    KeyError the check catches. *)
Definition header_description (header_dict : dict (dict (dict string)))
    (item field : string) : option (dict string) :=
  match dict_get item header_dict with
  | Some fields => dict_get field fields
  | None => None
  end.

(** the elements of a list, each once *)
Fixpoint distinct (xs : list string) : list string :=
  match xs with
  | [] => []
  | x :: xs' => x :: filter (fun y => negb (String.eqb x y)) (distinct xs')
  end.

(** The filters of the rows, exploded and collected as a set; a row whose
    filters are missing gives none.  Python lists the elements of the set
    in an order of its own; here it is the order of first occurrence. *)
Definition collect_filters (rows : list Site) : list string :=
  distinct (flat_map (fun r => match filters r with
                               | Some fs => fs
                               | None => []
                               end) rows).

(** the inner loop of [vcf_field_check]: the fields of one item *)
Definition vcf_check_fields (is_matrix_table : bool)
    (header_dict : dict (dict (dict string))) (item : string)
    (annots : list string)
  : list vcf_line * (list string * list string) :=
  fold_left (fun st field =>
    let '(log, (temp_missing_fields, temp_missing_descriptions)) := st in
    match header_description header_dict item field with
    | Some description =>
        if (List.length description =? 0)%nat then
          (log ++ [EmptyDescription field],
           (temp_missing_fields, temp_missing_descriptions ++ [field]))
        else st
    | None =>
        (log ++ [NotInHeader field],
         (if is_matrix_table && negb (String.eqb field "END")
          then temp_missing_fields ++ [field] else temp_missing_fields,
          temp_missing_descriptions))
    end) annots ([], ([], [])).

(** the annotations of an item; [None] is Python's None *)
Definition vcf_annots (rows : list Site)
    (row_annotations entry_annotations : option (list string)) (item : string)
  : option (list string) :=
  if String.eqb item "info" then row_annotations
  else if String.eqb item "format" then entry_annotations
  else Some (collect_filters rows).

(** the loop over the items; a [for] over None is a TypeError *)
Fixpoint vcf_check_items (is_matrix_table : bool) (rows : list Site)
    (header_dict : dict (dict (dict string)))
    (row_annotations entry_annotations : option (list string))
    (items : list string) (log : list vcf_line)
    (missing_fields missing_descriptions : list string)
  : list vcf_line * res (list string * list string) :=
  match items with
  | [] => (log, Ok (missing_fields, missing_descriptions))
  | item :: items' =>
      match vcf_annots rows row_annotations entry_annotations item with
      | None => (log, Raise TypeError)
      | Some annots =>
          let '(lines, (temp_missing_fields, temp_missing_descriptions)) :=
            vcf_check_fields is_matrix_table header_dict item annots in
          vcf_check_items is_matrix_table rows header_dict
            row_annotations entry_annotations items' (log ++ lines)
            (missing_fields ++ temp_missing_fields)
            (missing_descriptions ++ temp_missing_descriptions)
      end
  end.

(** [vcf_field_check] (lines 847-921), on the rows of a MatrixTable
    ([is_matrix_table]) or of a Table.  [hist_fields] is built and not
    read. *)
Definition vcf_field_check (is_matrix_table : bool) (rows : list Site)
    (header_dict : dict (dict (dict string)))
    (row_annotations entry_annotations : option (list string))
    (hists : list string) : list vcf_line * res bool :=
  let hist_fields :=
    flat_map (fun hist =>
      (hist +:+ "_bin_freq")
        :: (if Str.contains "dp" hist then [hist +:+ "_n_larger"] else []))
      hists in
  let items :=
    ["info"; "filter"]
      ++ match entry_annotations with
         | Some (_ :: _) => ["format"]
         | _ => []
         end in
  match vcf_check_items is_matrix_table rows header_dict
          row_annotations entry_annotations items [] [] [] with
  | (log, Raise e) => (log, Raise e)
  | (log, Ok (missing_fields, missing_descriptions)) =>
      if negb ((List.length missing_fields =? 0)%nat)
         || negb ((List.length missing_descriptions =? 0)%nat)
      then (log ++ [Reconcile; MissingFields missing_fields;
                    MissingDescriptions missing_descriptions], Ok false)
      else (log ++ [PassedVcfFields], Ok true)
  end.

(** the items and their annotations, when the row annotations are given *)
Definition vcf_items (entry_annotations : option (list string)) : list string :=
  ["info"; "filter"]
    ++ match entry_annotations with
       | Some (_ :: _) => ["format"]
       | _ => []
       end.

Definition vcf_annots_of (rows : list Site) (row_annotations : list string)
    (entry_annotations : option (list string)) (item : string) : list string :=
  if String.eqb item "info" then row_annotations
  else if String.eqb item "format" then
    match entry_annotations with Some fs => fs | None => [] end
  else collect_filters rows.

(** The fields [vcf_field_check] looks up, each with its item. *)
Definition vcf_checked (rows : list Site) (row_annotations : list string)
    (entry_annotations : option (list string)) : list (string * string) :=
  map (pair "info") row_annotations
  ++ map (pair "filter") (collect_filters rows)
  ++ match entry_annotations with
     | Some fs => map (pair "format") fs
     | None => []
     end.

(** a field that fails the check: in the header with an empty description,
    or, for a MatrixTable, not in the header and not named END *)
Definition vcf_fails (is_matrix_table : bool)
    (header_dict : dict (dict (dict string))) (item_field : string * string)
  : bool :=
  match header_description header_dict (fst item_field) (snd item_field) with
  | Some description => (List.length description =? 0)%nat
  | None => is_matrix_table && negb (String.eqb (snd item_field) "END")
  end.

(** A site with the given filters. *)
Definition filtered_site (fs : list string) : Site :=
  {| locus := {| contig := "chr1"; position := 1 |};
     filters := Some fs; info := [] |}.

(** A header that describes the info field AC and no filter. *)
Definition ac_header : dict (dict (dict string)) :=
  [("info", [("AC", [("Description", "Alternate allele count")])]);
   ("filter", [])].

(** ** Missingness of the row annotations *)

(** a loop that builds a value from fields looked up one after the other *)
Fixpoint built_fold {A S} (f : S -> A -> built S) (xs : list A) (acc : S)
  : built S :=
  match xs with
  | [] => Built acc
  | x :: xs' => built_bind (f acc x) (built_fold f xs')
  end.

(** A release table with all its row annotations.  [Site] keeps what the
    check families read of a row: the locus, the filters and the info
    struct.  A release table has other row fields (alleles, rsid, qual,
    ...) and globals; of a value of these [compute_missingness] only asks
    whether it is missing. *)
Record AnnotatedSite : Type := {
  site_fields : Site;
  other_missing : list (string * bool)
}.

Record AnnotatedTable : Type := {
  annotated_info_fields : list string;
  other_row_fields : list string;
  global_missing : list (string * bool);
  annotated_rows : list AnnotatedSite
}.

(** [hl.is_missing(t.info[x])]: a field the info struct does not have is a
    KeyError. *)
Definition info_metric_missing (t : AnnotatedTable) (x : string)
  : res (BooleanExpression AnnotatedSite) :=
  if str_in x (annotated_info_fields t)
  then Ok (fun r => hl_is_missing (info_value x) (site_fields r))
  else Raise (KeyError x).

(** [hl.is_missing(t[x])]: [x] is a row field or a global.  The locus and
    the info struct of a site are always there, the filters may be missing;
    another row field is missing on the rows that say so (or give no value
    for it); a global is missing or not, whatever the row.  Any other name
    is not a field of the table. *)
Definition row_field_missing (t : AnnotatedTable) (x : string)
  : built (BooleanExpression AnnotatedSite) :=
  if String.eqb x "locus" then Built (fun _ => Some false)
  else if String.eqb x "filters"
  then Built (fun r => Some (is_none (filters (site_fields r))))
  else if String.eqb x "info" then Built (fun _ => Some false)
  else if str_in x (other_row_fields t)
  then Built (fun r => Some match dict_get x (other_missing r) with
                            | Some missing => missing
                            | None => true
                            end)
  else match dict_get x (global_missing t) with
       | Some missing => Built (fun _ => Some missing)
       | None => LookupError x
       end.

(** [compute_missingness] (lines 794-844).  The sum of the booleans
    [hl.is_missing] gives is the number of rows where it is true; the two
    divisions of a metric are divisions of ints. *)
Definition compute_missingness (t : AnnotatedTable)
    (info_metrics non_info_metrics : list string) (n_sites : Z)
    (missingness_threshold : float) : M (built unit) :=
  emit (Info ("Missingness threshold (upper cutoff for what is allowed for "
              +:+ "missingness checks): %.2f")
             [AFloat missingness_threshold]) ;;;
  metrics_missing <-
    fold_ info_metrics (fun metrics_missing x =>
      p <- lift (info_metric_missing t x) ;;
      ret (dict_set x (count_where p) metrics_missing)) [] ;;
  match built_fold (fun metrics_missing x =>
          built_bind (row_field_missing t x) (fun p =>
          Built (dict_set x (count_where p) metrics_missing)))
          non_info_metrics metrics_missing with
  | LookupError field => ret (LookupError field)
  | Built metrics_missing =>
      emit EngineAggregate ;;;
      let output := aggregate_struct (annotated_rows t) metrics_missing in
      n_fail <-
        fold_ output (fun n_fail item =>
          let '(metric, n_missing) := item in
          ratio <- lift (int_truediv n_missing n_sites) ;;
          if float_gt ratio missingness_threshold then
            percent <- lift (int_truediv (100 * n_missing) n_sites) ;;
            emit (Info "FAILED missingness check for %s: %d sites or %.2f%% missing"
                       [AStr metric; AInt n_missing; AFloat percent]) ;;;
            ret (n_fail + 1)
          else
            percent <- lift (int_truediv (100 * n_missing) n_sites) ;;
            emit (Info "Passed missingness check for %s: %d sites or %.2f%% missing"
                       [AStr metric; AInt n_missing; AFloat percent]) ;;;
            ret n_fail) 0 ;;
      emit (Info "%d missing metrics checks failed" [AInt n_fail]) ;;;
      ret (Built tt)
  end.

(** The number of rows where a metric is missing, in the words of the
    documentation: for a metric of the info struct, the rows whose info has
    no value for it; for a row annotation, the rows where the annotation
    has no value (all the rows, or none, for a global). *)
Definition info_missing_count (t : AnnotatedTable) (x : string) : Z :=
  Z.of_nat (List.length
    (filter (fun r => match dict_get x (info (site_fields r)) with
                      | Some (Some _) => false
                      | _ => true
                      end) (annotated_rows t))).

Definition annotation_missing (t : AnnotatedTable) (x : string)
    (r : AnnotatedSite) : bool :=
  if String.eqb x "locus" then false
  else if String.eqb x "filters"
  then match filters (site_fields r) with Some _ => false | None => true end
  else if String.eqb x "info" then false
  else if str_in x (other_row_fields t)
  then match dict_get x (other_missing r) with
       | Some false => false
       | _ => true
       end
  else match dict_get x (global_missing t) with
       | Some true => true
       | _ => false
       end.

Definition row_field_missing_count (t : AnnotatedTable) (x : string) : Z :=
  Z.of_nat (List.length (filter (annotation_missing t x) (annotated_rows t))).

Definition missing_counts (t : AnnotatedTable)
    (info_metrics non_info_metrics : list string) : list (string * Z) :=
  map (fun x => (x, info_missing_count t x)) info_metrics
  ++ map (fun x => (x, row_field_missing_count t x)) non_info_metrics.

(** the names [t[x]] finds *)
Definition table_fields (t : AnnotatedTable) : list string :=
  ["locus"; "filters"; "info"] ++ other_row_fields t
  ++ dict_keys (global_missing t).

(** Ten sites.  AC is missing on the first three, AN on the first four;
    the alleles are missing on the first six; the filters on none; the
    global freq_meta has a value. *)
Definition missingness_site (i : Z) : AnnotatedSite :=
  {| site_fields :=
       {| locus := {| contig := "chr1"; position := i |};
          filters := Some [];
          info := [("AC", if i <? 3 then None else Some (1 # 1));
                   ("AN", if i <? 4 then None else Some (2 # 1))] |};
     other_missing := [("alleles", i <? 6)] |}.

Definition missingness_table : AnnotatedTable :=
  {| annotated_info_fields := ["AC"; "AN"];
     other_row_fields := ["alleles"];
     global_missing := [("freq_meta", false)];
     annotated_rows := map missingness_site [0; 1; 2; 3; 4; 5; 6; 7; 8; 9] |}.

(** The floats the literals 0.3 and 0.5 stand for: the double nearest to
    3/10, and 1/2. *)
Definition float_0_3 : float := S754_finite false 5404319552844595 (-54).

Definition float_0_5 : float := S754_finite false 4503599627370496 (-53).

(** ** Missingness of the unfurled arrays *)

(** [hl.is_missing(ht[name])]: [name] is a row field, or a global, which
    has a value; any other name is not a field of the table. *)
Definition table_field_missing (ht : ArrayTable) (name : string)
  : built (BooleanExpression HRow) :=
  if str_in name (map fst (row_type ht))
  then Built (fun r => is_missing (row_field name r))
  else if str_in name (dict_keys (globals ht))
  then Built (fun _ => Some false)
  else LookupError name.

(** [check_array_struct_missingness] (lines 1304-1329): the names come
    from [unfurl_array_annotations], the values from the fields of the
    table that carry these names. *)
Definition check_array_struct_missingness (ht : ArrayTable)
    (indexed_array_annotations : dict string)
  : M (built (dict (option Q))) :=
  annotations <- unfurl_array_annotations ht indexed_array_annotations ;;
  match built_all (fun field_name =>
          built_bind (table_field_missing ht field_name) (fun p =>
          Built (field_name, p)))
          (dict_keys annotations) with
  | LookupError field => ret (LookupError field)
  | Built missingness_dict =>
      emit EngineAggregate ;;;
      ret (Built (map (fun kp => (fst kp, fraction (array_rows ht) (snd kp)))
                      missingness_dict))
  end.

(** The table of the tests after [ht.annotate] of the unfurled fields: each
    row also carries the fields of its two array elements, flat. *)
Definition flat_fields (k : string) (s : option hval) : HRow :=
  map (fun f =>
         (f +:+ "_" +:+ k,
          match s with
          | Some (HStruct fs) =>
              match dict_get f fs with Some v => v | None => None end
          | _ => None
          end))
      ["AC"; "AF"; "AN_eas"; "AN_sas"].

Definition annotated_freq_table : ArrayTable :=
  {| row_type :=
       row_type freq_table
       ++ flat_map (fun k => [("AC_" +:+ k, TInt32); ("AF_" +:+ k, TFloat64);
                              ("AN_eas_" +:+ k, TInt32);
                              ("AN_sas_" +:+ k, TInt32)])
                   ["adj"; "raw"];
     globals := globals freq_table;
     array_rows :=
       map (fun r =>
              r ++ match row_field "freq" r with
                   | Some (HArray [adj; raw]) =>
                       flat_fields "adj" adj ++ flat_fields "raw" raw
                   | _ => []
                   end)
           (array_rows freq_table) |}.

(** ** What a call shows and asks of the engine *)

(** the tables a call shows ([Table.show]), in order *)
Definition shown_tables {A} (m : M A) : list (list (list (string * dval))) :=
  flat_map (fun ev => match ev with
                      | EngineShow shown => [shown]
                      | _ => []
                      end) (events m).

(** The passes over the table a call asks of the engine: a count, an
    aggregation and the query behind a [show] each run the engine over the
    table; a logger line does not. *)
Definition is_request (ev : event) : bool :=
  match ev with
  | EngineCount | EngineAggregate | EngineShow _ => true
  | Info _ _ | Warning _ _ => false
  end.

Definition engine_requests {A} (m : M A) : list event :=
  filter is_request (events m).

(** ** The leaves of a struct, for the missingness walker *)

#[local] Unset Elimination Schemes.

(** The fractions of a result of [check_missingness_of_struct], each with
    the key it is stored under, in order; the keys of nested dictionaries
    are not among them. *)
Fixpoint missingness_leaves (m : missingness)
  : list (string * BooleanExpression HRow) :=
  match m with
  | MFraction _ => []
  | MDict d =>
      (fix go (d : list (string * missingness)) :=
         match d with
         | [] => []
         | (k, v) :: d' =>
             match v with
             | MFraction p => [(k, p)]
             | MDict _ => missingness_leaves v
             end ++ go d'
         end) d
  end.

(** The leaves of a type, each with its dotted name under [prefix] and the
    predicate that says when it counts as missing on a row. *)
Fixpoint struct_leaves (ty : htype) (e : Expression) (prefix : string)
  : list (string * BooleanExpression HRow) :=
  match ty with
  | TStruct fields =>
      (fix go (fields : list (string * htype)) :=
         match fields with
         | [] => []
         | (key, fty) :: fields' =>
             struct_leaves fty (get_field key e) (prefix +:+ "." +:+ key)
             ++ go fields'
         end) fields
  | TArray _ | TSet _ =>
      [(prefix, fun r => or_else (all_is_missing (e r)) true)]
  | _ => [(prefix, fun r => is_missing (e r))]
  end.

(** the strings of a list are pairwise distinct *)
Fixpoint distinctb (xs : list string) : bool :=
  match xs with
  | [] => true
  | x :: xs' => negb (str_in x xs') && distinctb xs'
  end.

(** A struct type as Hail has them: the fields of every struct have
    distinct names. *)
Fixpoint fields_distinct (ty : htype) : bool :=
  match ty with
  | TStruct fields =>
      distinctb (map fst fields)
      && (fix all (fields : list (string * htype)) :=
            match fields with
            | [] => true
            | (_, fty) :: fields' => fields_distinct fty && all fields'
            end) fields
  | _ => true
  end.

(** The type Hail gives the walker's result, read off the type walked: a
    leaf gives a fraction; a struct gives a dictionary, which has a type
    when the struct has a field and all its fields give one and the same
    type. *)
Fixpoint walker_type (ty : htype) : option missingness_type :=
  match ty with
  | TStruct fields =>
      match fields with
      | [] => None
      | (_, fty) :: fields' =>
          match walker_type fty with
          | None => None
          | Some t =>
              if (fix same (fields : list (string * htype)) : bool :=
                    match fields with
                    | [] => true
                    | (_, fty') :: fields'' =>
                        match walker_type fty' with
                        | Some t' => missingness_type_eqb t' t
                        | None => false
                        end && same fields''
                    end) fields'
              then Some (DictType t)
              else None
          end
      end
  | _ => Some FractionType
  end.

#[local] Set Elimination Schemes.

(** A struct with a leaf and a struct side by side in a nested struct. *)
Definition mixed_type : htype :=
  TStruct [("a", TInt32);
           ("c", TStruct [("d", TStr); ("g", TStruct [("h", TStr)])])].

(** A struct whose nested struct names its fields out of order, and two
    rows of a table with it: n is missing on the second, c.d on the first. *)
Definition unordered_type : htype :=
  TStruct [("n", TInt32); ("c", TStruct [("e", TStr); ("d", TStr)])].

Definition unordered_table : list HRow :=
  [[("s", Some (HStruct
        [("n", Some (HNum (1 # 1)));
         ("c", Some (HStruct [("e", Some (HStr "x")); ("d", None)]))]))];
   [("s", Some (HStruct
        [("n", None);
         ("c", Some (HStruct [("e", Some (HStr "y"));
                              ("d", Some (HStr "z"))]))]))]].

(** the fraction of one leaf over a table *)
Definition leaf_fraction (ht : list HRow) (kp : string * BooleanExpression HRow)
  : string * option Q :=
  (fst kp, fraction ht (snd kp)).

(* ===================================================================== *)
(** * Properties *)


(** ** The monad and the dictionaries *)

Lemma bind_ret_l {A B} (a : A) (f : A -> M B) : bind (ret a) f = f a.
Proof. unfold bind, ret. destruct (f a); reflexivity. Qed.

Lemma bind_emit (ev : event) {B} (k : M B) :
  (emit ev ;;; k) = (ev :: events k, outcome k).
Proof. unfold bind, emit. destruct k; reflexivity. Qed.

Lemma bind_lift_ok {A B} (a : A) (f : A -> M B) : bind (lift (Ok a)) f = f a.
Proof. unfold bind, lift. destruct (f a); reflexivity. Qed.

Lemma for_map {A B} (h : A -> B) (xs : list A) (body : B -> M unit) :
  for_ (map h xs) body = for_ xs (fun x => body (h x)).
Proof. induction xs as [|x xs IH]; simpl; [reflexivity | now rewrite IH]. Qed.

Lemma for_ext {A} (xs : list A) (f g : A -> M unit) :
  (forall x, In x xs -> f x = g x) -> for_ xs f = for_ xs g.
Proof.
  induction xs as [|x xs IH]; simpl; intros H; [reflexivity|].
  rewrite (H x) by now left. rewrite IH; [reflexivity|].
  intros y Hy. apply H. now right.
Qed.

Lemma report_bind (m1 m2 k1 k2 : M unit) :
  report m1 = report m2 -> report k1 = report k2 ->
  report (m1 ;;; k1) = report (m2 ;;; k2).
Proof.
  destruct m1 as [l1 [[]|e1]], m2 as [l2 [[]|e2]], k1 as [j1 r1], k2 as [j2 r2];
    unfold report, bind, events, outcome; simpl;
    intros H1 H2; inversion H1; inversion H2; subst;
    rewrite ?filter_app; congruence.
Qed.

Lemma report_engine_count {A} (k : M A) :
  report (emit EngineCount ;;; k) = report k.
Proof. rewrite bind_emit. destruct k as [l r]. reflexivity. Qed.

Lemma report_for {A} (xs : list A) (f g : A -> M unit) :
  (forall x, In x xs -> report (f x) = report (g x)) ->
  report (for_ xs f) = report (for_ xs g).
Proof.
  induction xs as [|x xs IH]; simpl; intros H; [reflexivity|].
  apply report_bind; [apply H; now left|].
  apply IH. intros y Hy. apply H. now right.
Qed.

Lemma dict_get_In {V} (k : string) (v : V) (d : dict V) :
  NoDup (dict_keys d) -> In (k, v) d -> dict_get k d = Some v.
Proof.
  induction d as [|[k' v'] d IH]; simpl; intros Hnd Hin; [contradiction|].
  inversion Hnd as [|? ? Hnotin Hnd']; subst.
  destruct Hin as [Heq | Hin].
  - inversion Heq; subst. now rewrite String.eqb_refl.
  - destruct (String.eqb_spec k' k) as [-> | _].
    + exfalso. apply Hnotin. unfold dict_keys.
      change k with (fst (k, v)). now apply in_map.
    + now apply IH.
Qed.

Lemma bind_ok {A B} (l : list event) (a : A) (k : A -> M B) :
  bind (l, Ok a) k = (l ++ events (k a), outcome (k a)).
Proof. unfold bind, events, outcome. destruct (k a); reflexivity. Qed.

Lemma surjective_M {A} (m : M A) : m = (events m, outcome m).
Proof. destruct m; reflexivity. Qed.

Lemma bind_outcome_ok {A B} (m : M A) (a : A) (k : A -> M B) :
  outcome m = Ok a ->
  bind m k = (events m ++ events (k a), outcome (k a)).
Proof.
  intros H. rewrite (surjective_M m), H. apply bind_ok.
Qed.

(** a loop whose iterations all return: the events in order *)
Lemma for_ok {A} (xs : list A) (f : A -> M unit) :
  (forall x, In x xs -> outcome (f x) = Ok tt) ->
  for_ xs f = (flat_map (fun x => events (f x)) xs, Ok tt).
Proof.
  induction xs as [|x xs IH]; intros H; simpl; [reflexivity|].
  rewrite (bind_outcome_ok (f x) tt) by (apply H; now left).
  rewrite IH by (intros y Hy; apply H; now right). reflexivity.
Qed.

(** a building loop whose iterations all return *)
Lemma fold_ok {A S} (xs : list A) (body : S -> A -> M S)
    (ev : A -> list event) (g : S -> A -> S) (acc : S) :
  (forall s x, In x xs -> body s x = (ev x, Ok (g s x))) ->
  fold_ xs body acc = (flat_map ev xs, Ok (fold_left g xs acc)).
Proof.
  revert acc. induction xs as [|x xs IH]; intros acc H; simpl; [reflexivity|].
  rewrite (H acc x) by now left. rewrite bind_ok.
  rewrite IH by (intros s y Hy; apply H; now right). reflexivity.
Qed.

Lemma dict_get_map {V W} (g : V -> W) (k : string) (d : dict V) :
  dict_get k (map (fun kv => (fst kv, g (snd kv))) d)
  = option_map g (dict_get k d).
Proof.
  induction d as [|[k' v] d IH]; simpl; [reflexivity|].
  now destruct (String.eqb k' k).
Qed.

Lemma dict_set_keys_in {V} (k k0 : string) (v : V) (d : dict V) :
  In k0 (dict_keys (dict_set k v d)) -> k0 = k \/ In k0 (dict_keys d).
Proof.
  induction d as [|[k' v'] d IH]; simpl.
  - intros [H|[]]; auto.
  - destruct (String.eqb_spec k' k) as [->|Hne]; simpl.
    + intros [H|H]; auto.
    + intros [H|H]; auto. destruct (IH H); auto.
Qed.

(** assignments keep the keys of a dictionary distinct *)
Lemma dict_set_NoDup {V} (k : string) (v : V) (d : dict V) :
  NoDup (dict_keys d) -> NoDup (dict_keys (dict_set k v d)).
Proof.
  induction d as [|[k' v'] d IH]; simpl; intros Hnd.
  - constructor; [intros []|constructor].
  - inversion Hnd as [|? ? Hnotin Hnd']; subst.
    destruct (String.eqb_spec k' k) as [->|Hne]; simpl.
    + now constructor.
    + constructor; [|now apply IH].
      intros Hin. destruct (dict_set_keys_in _ _ _ _ Hin) as [->|Hin'];
        [now apply Hne | now apply Hnotin].
Qed.

Lemma dict_get_set_eq {V} (k : string) (v : V) (d : dict V) :
  dict_get k (dict_set k v d) = Some v.
Proof.
  induction d as [|[k' v'] d IH]; simpl.
  - now rewrite String.eqb_refl.
  - destruct (String.eqb_spec k' k) as [->|Hne]; simpl.
    + now rewrite String.eqb_refl.
    + destruct (String.eqb_spec k' k); [contradiction | exact IH].
Qed.

Lemma dict_get_set_ne {V} (k k0 : string) (v : V) (d : dict V) :
  k0 <> k -> dict_get k0 (dict_set k v d) = dict_get k0 d.
Proof.
  intros Hne. induction d as [|[k' v'] d IH]; simpl.
  - destruct (String.eqb_spec k k0); [now subst | reflexivity].
  - destruct (String.eqb_spec k' k) as [->|Hne']; simpl.
    + destruct (String.eqb_spec k k0); [now subst | reflexivity].
    + destruct (String.eqb_spec k' k0); [reflexivity | exact IH].
Qed.

Lemma assign_all_NoDup {V} (kvs : list (string * V)) (d : dict V) :
  NoDup (dict_keys d) -> NoDup (dict_keys (fold_left assign kvs d)).
Proof.
  revert d. induction kvs as [|[k v] kvs IH]; intros d Hnd; simpl; [exact Hnd|].
  apply IH. now apply dict_set_NoDup.
Qed.

(** After a run of assignments, a key all of whose assignments carry the
    same value holds that value. *)
Lemma assign_all_get {V} (kvs : list (string * V)) (d : dict V) (k : string) (v : V) :
  In (k, v) kvs ->
  (forall v', In (k, v') kvs -> v' = v) ->
  dict_get k (fold_left assign kvs d) = Some v.
Proof.
  revert d. induction kvs as [|[k' v'] kvs IH]; intros d Hin Hsame; [contradiction|].
  simpl. destruct (in_dec (fun a b => string_dec a b) k (map fst kvs)) as [Hlater|Hnot].
  - apply in_map_iff in Hlater. destruct Hlater as [[k2 v2] [Hk Hin2]].
    simpl in Hk; subst k2.
    assert (v2 = v) by (apply Hsame; now right). subst v2.
    apply IH; [exact Hin2|]. intros v3 H3. apply Hsame. now right.
  - destruct Hin as [Heq|Hin].
    + inversion Heq; subst. clear IH Hsame.
      assert (Hkeep : forall d0, dict_get k d0 = Some v ->
                 dict_get k (fold_left assign kvs d0) = Some v).
      { induction kvs as [|[k2 v2] kvs IH2]; intros d0 Hd0; simpl; [exact Hd0|].
        apply IH2.
        - intros Hin. apply Hnot. now right.
        - unfold assign; simpl. rewrite dict_get_set_ne; [exact Hd0|].
          intros ->. apply Hnot. now left. }
      apply Hkeep. unfold assign; simpl. apply dict_get_set_eq.
    + exfalso. apply Hnot. change k with (fst (k, v)). now apply in_map.
Qed.

(** a key found in a dictionary built by assignments was assigned that
    value *)
Lemma assign_all_get_inv {V} (kvs : list (string * V)) (d : dict V) (k : string) (v : V) :
  dict_get k (fold_left assign kvs d) = Some v ->
  In (k, v) kvs \/ dict_get k d = Some v.
Proof.
  revert d. induction kvs as [|[k' v'] kvs IH]; intros d; simpl; [auto|].
  intros H. destruct (IH _ H) as [H1|H1]; [auto|].
  unfold assign in H1; simpl in H1.
  destruct (string_dec k k') as [->|Hne].
  - rewrite dict_get_set_eq in H1. inversion H1; subst. auto.
  - rewrite dict_get_set_ne in H1 by exact Hne. auto.
Qed.

Lemma dict_of_keys_in {V} (kvs : list (string * V)) (k : string) :
  In k (dict_keys (dict_of kvs)) <-> In k (map fst kvs).
Proof.
  unfold dict_of.
  assert (H : forall d, In k (dict_keys (fold_left assign kvs d))
                        <-> In k (map fst kvs) \/ In k (dict_keys d)).
  { induction kvs as [|[k' v'] kvs IH]; intros d; simpl; [tauto|].
    rewrite IH. unfold assign; cbn [fst snd]. split.
    - intros [H|H]; [tauto|]. apply dict_set_keys_in in H. destruct H as [->|H]; auto.
    - intros [[<-|H]|H]; [right| now left | right].
      + clear. induction d as [|[k0 v0] d IH]; simpl; [now left|].
        destruct (String.eqb_spec k0 k') as [->|Hne]; simpl; [now left | now right].
      + clear - H. induction d as [|[k0 v0] d IH]; simpl in *; [contradiction|].
        destruct (String.eqb_spec k0 k') as [->|Hne]; simpl; tauto. }
  rewrite H. simpl. tauto.
Qed.

(** ** Strings *)

Lemma append_assoc (a b c : string) : (a +:+ b) +:+ c = a +:+ b +:+ c.
Proof. induction a as [|x a IH]; simpl; [reflexivity | now rewrite IH]. Qed.

Lemma append_length (a b : string) :
  String.length (a +:+ b) = (String.length a + String.length b)%nat.
Proof. induction a as [|x a IH]; simpl; [reflexivity | now rewrite IH]. Qed.

Lemma append_inv_head (a b c : string) : a +:+ b = a +:+ c -> b = c.
Proof. induction a as [|x a IH]; simpl; intros H; [exact H|]. inversion H; auto. Qed.

(** equal concatenations with heads of one length: the parts agree *)
Lemma append_same_length (a b c d : string) :
  String.length a = String.length c ->
  a +:+ b = c +:+ d -> a = c /\ b = d.
Proof.
  revert c. induction a as [|x a IH]; intros [|y c]; simpl; intros Hlen H;
    try discriminate; [auto|].
  inversion H; subst. destruct (IH c) as [-> ->]; auto.
Qed.

Lemma last_append (a b : string) :
  b <> EmptyString -> Str.last (a +:+ b) = Str.last b.
Proof.
  intros Hb. induction a as [|x a IH]; simpl; [reflexivity|].
  destruct (a +:+ b) eqn:E; [|exact IH].
  destruct a; simpl in E; [contradiction | discriminate].
Qed.

(** ** Divisions *)

Lemma overflow_threshold_large : 2 ^ 80 < overflow_threshold.
Proof. reflexivity. Qed.

(** The quotient just below the threshold rounds to the largest double; at
    the threshold the rounding gives no double any more, and the division
    of ints raises instead. *)
Example int_truediv_largest :
  int_truediv (overflow_threshold - 1) 1
  = Ok (S754_finite false 9007199254740991 971)
  /\ int_truediv (3 * overflow_threshold - 1) (-3)
     = Ok (S754_finite true 9007199254740991 971)
  /\ SFdiv 53 1024 (exact_int overflow_threshold) (exact_int 1)
     = S754_infinity false
  /\ int_truediv overflow_threshold 1 = Raise OverflowError.
Proof. repeat split; vm_compute; reflexivity. Qed.

(** 3 / 10 is the float of the literal 0.3; 0 / -5 is -0.0; a quotient
    below half the smallest double is 0.0. *)
Example int_truediv_small :
  int_truediv 3 10 = Ok (S754_finite false 5404319552844595 (-54))
  /\ int_truediv 0 (-5) = Ok (S754_zero true)
  /\ int_truediv 1 (2 ^ 1075) = Ok (S754_zero false).
Proof. repeat split; vm_compute; reflexivity. Qed.

(** a quotient of ints below the overflow threshold is a float *)
Lemma int_truediv_value (a b : Z) :
  b <> 0 -> Z.abs a < overflow_threshold * Z.abs b ->
  int_truediv a b = Ok (SFdiv 53 1024 (exact_int a) (exact_int b)).
Proof.
  intros Hb Ha. unfold int_truediv.
  destruct (Z.eqb_spec b 0); [contradiction|].
  destruct (Z.leb_spec (overflow_threshold * Z.abs b) (Z.abs a)); [lia | reflexivity].
Qed.

Lemma int_truediv_zero (a : Z) : int_truediv a 0 = Raise ZeroDivisionError.
Proof. reflexivity. Qed.

Lemma int_truediv_raises (a b : Z) (e : exn) :
  int_truediv a b = Raise e -> e = ZeroDivisionError \/ e = OverflowError.
Proof.
  unfold int_truediv. destruct (b =? 0); [intros H; inversion H; auto|].
  destruct (_ <=? _); intros H; inversion H; auto.
Qed.

(** a numerator within a bound, over any divisor but 0 *)
Lemma int_truediv_bounded (a b : Z) :
  b <> 0 -> Z.abs a <= 2 ^ 80 ->
  int_truediv a b = Ok (SFdiv 53 1024 (exact_int a) (exact_int b)).
Proof.
  intros Hb Ha. apply int_truediv_value; [exact Hb|].
  pose proof overflow_threshold_large as HK.
  assert (overflow_threshold * 1 <= overflow_threshold * Z.abs b)
    by (apply Z.mul_le_mono_nonneg_l; lia).
  lia.
Qed.

Lemma percentage_value (n c : Z) :
  c <> 0 -> Z.abs n < overflow_threshold * Z.abs c ->
  percentage n c
  = Ok (SFmul 53 1024 (binary_normalize 53 1024 100 0 false)
          (SFdiv 53 1024 (exact_int n) (exact_int c))).
Proof.
  intros Hc Hn. unfold percentage. now rewrite int_truediv_value.
Qed.

Lemma percentage_zero (n : Z) : percentage n 0 = Raise ZeroDivisionError.
Proof. reflexivity. Qed.

Lemma percentage_raises (n c : Z) (e : exn) :
  percentage n c = Raise e -> e = ZeroDivisionError \/ e = OverflowError.
Proof.
  unfold percentage. destruct (int_truediv n c) eqn:E; [discriminate|].
  intros H. inversion H; subst. exact (int_truediv_raises n c _ E).
Qed.

(** a count within a bound, over any row count but 0 *)
Lemma percentage_bounded (n c : Z) :
  c <> 0 -> Z.abs n <= 2 ^ 80 -> exists x, percentage n c = Ok x.
Proof.
  intros Hc Hn. unfold percentage.
  rewrite (int_truediv_bounded n c Hc Hn). eauto.
Qed.

(** the percentage of a part of a whole is a float *)
Lemma percentage_of_part (n c : Z) :
  0 < n <= c -> exists x, percentage n c = Ok x.
Proof.
  intros H. eexists. apply percentage_value; [lia|].
  pose proof overflow_threshold_large as HK.
  assert (overflow_threshold * 1 <= overflow_threshold * Z.abs c)
    by (apply Z.mul_le_mono_nonneg_l; lia).
  assert (2 ^ 80 * 1 <= 2 ^ 80 * Z.abs c)
    by (apply Z.mul_le_mono_nonneg_l; lia).
  assert (2 * Z.abs c <= 2 ^ 80 * Z.abs c)
    by (apply Z.mul_le_mono_nonneg_r; lia).
  assert (2 ^ 80 * Z.abs c <= overflow_threshold * Z.abs c)
    by (apply Z.mul_le_mono_nonneg_r; lia).
  lia.
Qed.

(** ** The engine's aggregations *)

Section EngineFacts.
Context {Row : Type}.

Lemma struct_fold {A} (ht : list Row) (st : list (string * Aggregator Row A * A)) :
  map (fun kas => let '(k, _, s) := kas in (k, s)) (fold_left struct_step ht st)
  = map (fun kas => let '(k, a, s) := kas in (k, fold_left (agg_step a) ht s)) st.
Proof.
  revert st. induction ht as [|r ht IH]; intros st; simpl.
  - apply map_ext. now intros [[k a] s].
  - rewrite IH. unfold struct_step. rewrite map_map.
    apply map_ext. now intros [[k a] s].
Qed.

(** The batched aggregation computes what each aggregator computes alone. *)
Lemma aggregate_struct_each {A} (ht : list Row)
    (fields : list (string * Aggregator Row A)) :
  aggregate_struct ht fields
  = map (fun ka => (fst ka, aggregate1 ht (snd ka))) fields.
Proof.
  unfold aggregate_struct. rewrite struct_fold, map_map.
  apply map_ext. now intros [k a].
Qed.

Lemma count_where_fold (c : BooleanExpression Row) (ht : list Row) (n : Z) :
  fold_left (agg_step (count_where c)) ht n
  = n + Z.of_nat (List.length (filter (holds c) ht)).
Proof.
  revert n. induction ht as [|r ht IH]; intros n; simpl; [lia|].
  rewrite IH. destruct (holds c r); simpl List.length; lia.
Qed.

(** [count_where] counts the rows [filter] keeps. *)
Lemma count_where_filter (c : BooleanExpression Row) (ht : list Row) :
  aggregate1 ht (count_where c) = tcount (tfilter ht c).
Proof. unfold aggregate1. rewrite count_where_fold. reflexivity. Qed.

Lemma any_fold (c : BooleanExpression Row) (ht : list Row) (b : bool) :
  fold_left (agg_step (agg_any c)) ht b = b || existsb (holds c) ht.
Proof.
  revert b. induction ht as [|r ht IH]; intros b; simpl.
  - now rewrite orb_false_r.
  - rewrite IH. now rewrite orb_assoc.
Qed.

(** with a count in hand the reporter skips the filter-and-count pass,
    and nothing else changes *)
Lemma generic_field_check_precomputed (ht : list Row) desc df c verbose sp hc :
  report (generic_field_check ht desc df (Some c) verbose sp
            (Some (tcount (tfilter ht c))) hc)
  = report (generic_field_check ht desc df (Some c) verbose sp None hc).
Proof.
  unfold generic_field_check. cbv zeta. now rewrite report_engine_count.
Qed.

(** the verdict of a call with a count in hand, whatever the rest *)
Lemma verdicts_precomputed (ht : list Row) desc df cond_expr verbose sp
    (n : Z) hc :
  verdicts (generic_field_check ht desc df cond_expr verbose sp (Some n) hc)
  = [(desc, count_verdict n)].
Proof.
  unfold verdicts, count_verdict, generic_field_check. cbv zeta.
  generalize (tcount ht); intros total.
  destruct sp, hc as [c|], verbose, cond_expr as [p|]; simpl;
    repeat match goal with
           | |- context [percentage ?a ?b] => destruct (percentage a b); simpl
           | |- context [if ?b then _ else _] => destruct b; simpl
           end;
    reflexivity.
Qed.

(** the loop is the reporter, run once per entry with the batched count *)
Lemma generic_field_check_loop_counts (ht : list Row)
    (field_check_expr : dict (FieldCheck Row)) verbose sp hc :
  NoDup (dict_keys field_check_expr) ->
  (forall k v, In (k, v) field_check_expr -> fc_agg_func v = count_where) ->
  generic_field_check_loop ht field_check_expr verbose sp hc
  = (emit EngineAggregate ;;;
     for_ field_check_expr (fun kv =>
       generic_field_check ht (fst kv) (fc_display_fields (snd kv))
         (Some (fc_expr (snd kv))) verbose sp
         (Some (tcount (tfilter ht (fc_expr (snd kv))))) hc)).
Proof.
  intros Hkeys Hagg. unfold generic_field_check_loop.
  rewrite aggregate_struct_each, map_map, for_map.
  match goal with
  | |- (_ ;;; ?a) = (_ ;;; ?b) => assert (Heq : a = b); [|now rewrite Heq]
  end.
  apply for_ext. intros [k v] Hin; cbn [fst snd].
  rewrite (Hagg k v Hin), count_where_filter.
  unfold dict_getitem. rewrite (dict_get_In k v _ Hkeys Hin).
  apply (bind_lift_ok v).
Qed.

Lemma tfilter_count_le (ht : list Row) (c : BooleanExpression Row) :
  0 <= tcount (tfilter ht c) <= tcount ht.
Proof.
  unfold tcount, tfilter. pose proof (filter_length_le (holds c) ht). lia.
Qed.

(** with the table's own count the reporter always returns *)
Lemma generic_field_check_counted_ok (ht : list Row) desc df c verbose sp :
  outcome (generic_field_check ht desc df (Some c) verbose sp
             (Some (tcount (tfilter ht c))) None) = Ok tt.
Proof.
  pose proof (tfilter_count_le ht c) as Hle.
  unfold generic_field_check. cbv zeta.
  revert Hle. generalize (select df (tfilter ht c)). intros shown.
  generalize (tcount (tfilter ht c)); intros n.
  generalize (select df ht); intros shown'.
  generalize (tcount ht); intros total Hle.
  destruct sp, verbose; simpl;
    destruct (Z.gtb_spec n 0); simpl; try reflexivity.
  all: destruct (percentage_of_part n total ltac:(lia)) as [x ->];
    reflexivity.
Qed.

(** The verdicts of a loop: one per entry, in the order of the
    dictionary, each from the number of rows its predicate keeps. *)
Lemma generic_field_check_loop_verdicts (ht : list Row)
    (field_check_expr : dict (FieldCheck Row)) verbose sp :
  NoDup (dict_keys field_check_expr) ->
  (forall k v, In (k, v) field_check_expr -> fc_agg_func v = count_where) ->
  outcome (generic_field_check_loop ht field_check_expr verbose sp None) = Ok tt
  /\ verdicts (generic_field_check_loop ht field_check_expr verbose sp None)
     = map (fun kv => (fst kv,
                       count_verdict (tcount (tfilter ht (fc_expr (snd kv))))))
           field_check_expr.
Proof.
  intros Hkeys Hagg.
  rewrite generic_field_check_loop_counts by assumption.
  rewrite bind_emit, for_ok
    by (intros x _; apply generic_field_check_counted_ok).
  split; [reflexivity|].
  unfold verdicts, events; cbn [fst].
  change (flat_map verdict_of (EngineAggregate :: ?l))
    with (flat_map verdict_of l).
  clear. induction field_check_expr as [|[k v] d IH]; [reflexivity|].
  cbn [flat_map map fst snd]. rewrite flat_map_app, IH.
  change (?a :: ?l) with ([a] ++ l). f_equal.
  apply (verdicts_precomputed ht k (fc_display_fields v) (Some (fc_expr v))).
Qed.

End EngineFacts.


(** ** Loops that assign into a dictionary *)

Lemma fold_left_map {A B S} (f : S -> B -> S) (h : A -> B) (xs : list A) (a : S) :
  fold_left (fun s x => f s (h x)) xs a = fold_left f (map h xs) a.
Proof. revert a. induction xs as [|x xs IH]; intros a; simpl; auto. Qed.

Lemma fold_left_flat_map {A B S} (f : S -> B -> S) (h : A -> list B)
    (xs : list A) (a : S) :
  fold_left (fun s x => fold_left f (h x) s) xs a = fold_left f (flat_map h xs) a.
Proof.
  revert a. induction xs as [|x xs IH]; intros a; simpl; [reflexivity|].
  now rewrite fold_left_app, IH.
Qed.

Lemma flat_map_nil {A B} (f : A -> list B) (xs : list A) :
  (forall x, In x xs -> f x = []) -> flat_map f xs = [].
Proof.
  induction xs as [|x xs IH]; intros H; simpl; [reflexivity|].
  rewrite (H x) by now left. apply IH. intros y Hy. apply H. now right.
Qed.

Lemma info_field_present (t : Table) (f : string) :
  str_in f (info_fields t) = true -> info_field t f = Ok (info_value f).
Proof. unfold info_field. now intros ->. Qed.

Lemma str_in_In (x : string) (xs : list string) : str_in x xs = true <-> In x xs.
Proof.
  unfold str_in. rewrite existsb_exists. split.
  - intros [y [Hy Heq]]. apply String.eqb_eq in Heq. now subst.
  - intros H. exists x. split; [exact H | apply String.eqb_refl].
Qed.

(** The verdicts of a loop over a dictionary built by assignments: a
    description all of whose assignments carry one entry gets the verdict of
    that entry's count. *)
Lemma assigned_checks_verdicts {Row} (ht : list Row)
    (kvs : list (string * FieldCheck Row)) verbose sp :
  (forall k v, In (k, v) kvs -> fc_agg_func v = count_where) ->
  outcome (generic_field_check_loop ht (dict_of kvs) verbose sp None) = Ok tt
  /\ NoDup (map fst (verdicts (generic_field_check_loop ht (dict_of kvs) verbose sp None)))
  /\ forall k v,
       In (k, v) kvs -> (forall v', In (k, v') kvs -> v' = v) ->
       dict_get k (verdicts (generic_field_check_loop ht (dict_of kvs) verbose sp None))
       = Some (count_verdict (tcount (tfilter ht (fc_expr v)))).
Proof.
  intros Hagg.
  assert (Hnd : NoDup (dict_keys (dict_of kvs))).
  { apply assign_all_NoDup. constructor. }
  assert (Hagg' : forall k v, In (k, v) (dict_of kvs) -> fc_agg_func v = count_where).
  { intros k v Hin. pose proof (dict_get_In k v _ Hnd Hin) as Hget.
    apply assign_all_get_inv in Hget. destruct Hget as [H|H]; [|discriminate].
    now apply (Hagg k). }
  destruct (generic_field_check_loop_verdicts ht (dict_of kvs) verbose sp Hnd Hagg')
    as [Hok Hv].
  split; [exact Hok|]. rewrite Hv. split.
  - rewrite map_map. cbn [fst]. exact Hnd.
  - intros k v Hin Hsame.
    rewrite (dict_get_map (fun e => count_verdict (tcount (tfilter ht (fc_expr e))))).
    unfold dict_of. now rewrite (assign_all_get kvs [] k v Hin Hsame).
Qed.


(** ** compare_subset_freqs *)

Section SubsetFreqs.
Variables (t : Table) (delimiter : string) (metric_first_field : bool)
          (metrics subsets : list string).
Hypothesis Hfields :
  forall f, In f (subset_freq_fields delimiter metric_first_field metrics subsets) ->
            str_in f (info_fields t) = true.

Lemma subset_freq_fields_in subset metric group :
  In subset subsets -> Str.truthy subset = true -> In metric metrics ->
  In group ["adj"; "raw"] ->
  str_in (subset_freq_left delimiter metric group) (info_fields t) = true
  /\ str_in (subset_freq_right delimiter metric_first_field subset metric group)
       (info_fields t) = true.
Proof.
  intros Hs Ht Hm Hg.
  assert (Hin : forall f,
    In f [subset_freq_left delimiter metric group;
          subset_freq_right delimiter metric_first_field subset metric group] ->
    In f (subset_freq_fields delimiter metric_first_field metrics subsets)).
  { intros f Hf. right. apply in_flat_map. exists subset. split; [exact Hs|].
    rewrite Ht. apply in_flat_map. exists metric. split; [exact Hm|].
    apply in_flat_map. exists group. split; [exact Hg | exact Hf]. }
  split; apply Hfields, Hin; simpl; auto.
Qed.

(** the first loop of [compare_subset_freqs] builds the dictionary of
    [subset_freq_entries] *)
Lemma compare_subset_freqs_build :
  fold_ subsets (fun field_check_expr subset =>
    if Str.truthy subset then
      fold_ metrics (fun field_check_expr metric =>
        fold_ ["adj"; "raw"] (fun field_check_expr group =>
          emit (Info "Comparing the %s subset's %s %s to entire callset's %s %s"
                     [AStr subset; AStr group; AStr metric; AStr group;
                      AStr metric]) ;;;
          let check_field_left := metric +:+ delimiter +:+ group in
          let check_field_right :=
            if metric_first_field
            then metric +:+ delimiter +:+ subset +:+ delimiter +:+ group
            else subset +:+ delimiter +:+ metric +:+ delimiter +:+ group in
          l <- lift (info_field t check_field_left) ;;
          r <- lift (info_field t check_field_right) ;;
          ret (dict_set (check_field_left +:+ " != " +:+ check_field_right)
                 {| fc_expr := hl_eq l r;
                    fc_agg_func := count_where;
                    fc_display_fields :=
                      display [(check_field_left, l); (check_field_right, r)] |}
                 field_check_expr))
          field_check_expr)
        field_check_expr
    else ret field_check_expr) []
  = (flat_map (subset_freq_log metrics) subsets,
     Ok (dict_of (subset_freq_entries delimiter metric_first_field metrics subsets))).
Proof.
  unfold dict_of, subset_freq_entries. rewrite <- fold_left_flat_map.
  apply fold_ok. intros s subset Hs. unfold subset_freq_log.
  destruct (Str.truthy subset) eqn:Ht; [|reflexivity].
  rewrite <- fold_left_flat_map. apply fold_ok. intros s1 metric Hm.
  rewrite <- fold_left_map. apply fold_ok. intros s2 group Hg.
  destruct (subset_freq_fields_in subset metric group Hs Ht Hm Hg) as [Hl Hr].
  unfold subset_freq_left, subset_freq_right in Hl, Hr.
  cbv zeta. rewrite (info_field_present _ _ Hl), (info_field_present _ _ Hr).
  reflexivity.
Qed.

Lemma subset_freq_log_quiet : flat_map verdict_of (flat_map (subset_freq_log metrics) subsets) = [].
Proof.
  apply flat_map_nil. intros ev Hev.
  apply in_flat_map in Hev. destruct Hev as [subset [_ Hev]].
  unfold subset_freq_log in Hev. destruct (Str.truthy subset); [|contradiction].
  apply in_flat_map in Hev. destruct Hev as [metric [_ Hev]].
  apply in_flat_map in Hev. destruct Hev as [group [_ [<-|[]]]]. reflexivity.
Qed.

Lemma subset_freq_entries_agg k v :
  In (k, v) (subset_freq_entries delimiter metric_first_field metrics subsets) ->
  fc_agg_func v = count_where.
Proof.
  unfold subset_freq_entries. intros H.
  apply in_flat_map in H. destruct H as [subset [_ H]].
  destruct (Str.truthy subset); [|contradiction].
  apply in_flat_map in H. destruct H as [metric [_ H]].
  apply in_map_iff in H. destruct H as [group [H _]].
  inversion H; reflexivity.
Qed.

(** [compare_subset_freqs] returns, and its verdicts are those of its
    loop over the dictionary of [subset_freq_entries] *)
Lemma compare_subset_freqs_run verbose show_percent_sites :
  outcome (compare_subset_freqs t subsets verbose show_percent_sites delimiter
             metric_first_field metrics) = Ok tt
  /\ verdicts (compare_subset_freqs t subsets verbose show_percent_sites delimiter
                 metric_first_field metrics)
     = verdicts (generic_field_check_loop (rows t)
                   (dict_of (subset_freq_entries delimiter metric_first_field
                               metrics subsets))
                   verbose show_percent_sites None).
Proof.
  unfold compare_subset_freqs.
  match goal with
  | |- context [bind ?b _] =>
      replace b
        with (flat_map (subset_freq_log metrics) subsets,
              @Ok (dict (FieldCheck Site))
                (dict_of (subset_freq_entries delimiter metric_first_field
                            metrics subsets)))
        by (symmetry; exact compare_subset_freqs_build)
  end.
  rewrite bind_ok.
  destruct (assigned_checks_verdicts (rows t)
              (subset_freq_entries delimiter metric_first_field metrics subsets)
              verbose show_percent_sites subset_freq_entries_agg) as [Hok _].
  set (loop := generic_field_check_loop _ _ _ _ _) in *.
  rewrite (bind_outcome_ok loop tt) by exact Hok.
  rewrite info_field_present by (apply Hfields; now left).
  unfold outcome, events, verdicts; cbn [fst snd bind lift emit].
  split; [reflexivity|]. unfold events; cbn [fst].
  rewrite !flat_map_app, subset_freq_log_quiet. cbn. now rewrite app_nil_r.
Qed.

End SubsetFreqs.


Lemma append_nonempty_r (a b : string) : b <> EmptyString -> a +:+ b <> EmptyString.
Proof. destruct a; simpl; [auto | discriminate]. Qed.

(** the last character of a concatenation ending in a non-empty string *)
Ltac nonempty_append :=
  repeat first [ assumption | discriminate | apply append_nonempty_r ].

Lemma last_String (c : ascii) (s : string) :
  s <> EmptyString -> Str.last (String c s) = Str.last s.
Proof. destruct s; [contradiction | reflexivity]. Qed.

Ltac last_of_append_goal :=
  repeat first [ rewrite last_append; [|solve [nonempty_append]]
               | rewrite last_String; [|solve [nonempty_append]] ].

Tactic Notation "last_of_append" "in" hyp(H) :=
  repeat (rewrite last_append in H; [|solve [nonempty_append]]).

Lemma tier_nonempty (g : string) : In g ["adj"; "raw"] -> g <> EmptyString.
Proof. intros [<-|[<-|[]]]; discriminate. Qed.

Lemma tier_by_last (g1 g2 : string) :
  In g1 ["adj"; "raw"] -> In g2 ["adj"; "raw"] ->
  Str.last g1 = Str.last g2 -> g1 = g2.
Proof.
  intros [<-|[<-|[]]] [<-|[<-|[]]]; simpl; intros H; try reflexivity; discriminate.
Qed.

(** with the metrics AC, AN and nhomalt, a description of
    [compare_subset_freqs] names one pair of fields: two assignments to the
    same description carry the same entry *)
Lemma subset_freq_entry_determined d mff s1 m1 g1 s2 m2 g2 :
  In m1 default_metrics -> In m2 default_metrics ->
  In g1 ["adj"; "raw"] -> In g2 ["adj"; "raw"] ->
  fst (subset_freq_entry d mff s1 m1 g1) = fst (subset_freq_entry d mff s2 m2 g2) ->
  subset_freq_entry d mff s1 m1 g1 = subset_freq_entry d mff s2 m2 g2.
Proof.
  intros Hm1 Hm2 Hg1 Hg2 HK. unfold subset_freq_entry in *. cbv zeta in *.
  cbn [fst] in HK.
  assert (Hg : g1 = g2).
  { apply tier_by_last; [assumption..|].
    apply (f_equal Str.last) in HK.
    pose proof (tier_nonempty _ Hg1). pose proof (tier_nonempty _ Hg2).
    unfold subset_freq_left, subset_freq_right in HK.
    destruct mff; last_of_append in HK; exact HK. }
  subst g2.
  assert (Hm : m1 = m2).
  { unfold subset_freq_left in HK. rewrite !append_assoc in HK.
    unfold default_metrics in Hm1, Hm2.
    destruct Hm1 as [<-|[<-|[<-|[]]]], Hm2 as [<-|[<-|[<-|[]]]];
      try reflexivity; simpl in HK; discriminate. }
  subst m2.
  apply append_inv_head, append_inv_head in HK. now rewrite HK.
Qed.

Lemma subset_freq_entries_determined d mff subsets k v :
  In (k, v) (subset_freq_entries d mff default_metrics subsets) ->
  forall v', In (k, v') (subset_freq_entries d mff default_metrics subsets) -> v' = v.
Proof.
  assert (Hshape : forall k v,
    In (k, v) (subset_freq_entries d mff default_metrics subsets) ->
    exists s m g, In m default_metrics /\ In g ["adj"; "raw"]
                  /\ (k, v) = subset_freq_entry d mff s m g).
  { clear. intros k v H. unfold subset_freq_entries in H.
    apply in_flat_map in H. destruct H as [s [_ H]].
    destruct (Str.truthy s); [|contradiction].
    apply in_flat_map in H. destruct H as [m [Hm H]].
    apply in_map_iff in H. destruct H as [g [H Hg]].
    exists s, m, g. auto. }
  intros H v' H'.
  destruct (Hshape _ _ H) as (s1 & m1 & g1 & Hm1 & Hg1 & E1).
  destruct (Hshape _ _ H') as (s2 & m2 & g2 & Hm2 & Hg2 & E2).
  assert (E : subset_freq_entry d mff s2 m2 g2 = subset_freq_entry d mff s1 m1 g1).
  { apply subset_freq_entry_determined; try assumption.
    now rewrite <- E1, <- E2. }
  rewrite <- E1, <- E2 in E. now inversion E.
Qed.

Lemma holds_values_rel (op : Q -> Q -> bool) (l r : string) (s : Site) :
  holds (hl_cmp op (info_value l) (info_value r)) s = values_rel op l r s.
Proof.
  unfold holds, hl_cmp, values_rel.
  destruct (info_value l s), (info_value r s); try reflexivity.
  now destruct (op q q0).
Qed.

Lemma count_values_rel (t : Table) (op : Q -> Q -> bool) (l r : string) :
  tcount (tfilter (rows t) (hl_cmp op (info_value l) (info_value r)))
  = rows_where t (values_rel op l r).
Proof.
  unfold tcount, tfilter, rows_where. do 2 f_equal.
  apply filter_ext. intros s. apply holds_values_rel.
Qed.


(** ** check_raw_and_adj_callstats *)

Lemma fold_quiet {A S} (xs : list A) (body : S -> A -> M S) (g : S -> A -> S)
    (acc : S) :
  (forall s x, In x xs -> body s x = ret (g s x)) ->
  fold_ xs body acc = ret (fold_left g xs acc).
Proof.
  intros H. rewrite (fold_ok xs body (fun _ => []) g acc) by exact H.
  unfold ret. f_equal. apply flat_map_nil. reflexivity.
Qed.


Ltac in_list := simpl; repeat (first [ left; reflexivity | right ]).

Section RawAdj.
Variables (t : Table) (delimiter : string) (metric_first_field : bool)
          (subsets : list string).
Hypothesis Hfields :
  forall f, In f (callstats_fields delimiter metric_first_field subsets) ->
            str_in f (info_fields t) = true.

Lemma callstats_tier_field subfield tier :
  In subfield ["AN"; "AC"; "nhomalt"; "AF"] -> In tier ["raw"; "adj"] ->
  info_field t (subfield +:+ delimiter +:+ tier)
  = Ok (info_value (subfield +:+ delimiter +:+ tier)).
Proof.
  intros Hs Ht. apply info_field_present, Hfields.
  unfold callstats_fields. apply in_or_app. left.
  apply in_flat_map. exists subfield. split; [exact Hs|].
  destruct Ht as [<-|[<-|[]]]; in_list.
Qed.

Lemma callstats_label_field subfield label tier :
  In subfield ["AC"; "AN"; "nhomalt"] ->
  In label (raw_adj_labels delimiter metric_first_field subsets subfield) ->
  In tier ["raw"; "adj"] ->
  info_field t (label +:+ tier) = Ok (info_value (label +:+ tier)).
Proof.
  intros Hs Hl Ht. apply info_field_present, Hfields.
  unfold callstats_fields. apply in_or_app. right.
  apply in_flat_map. exists subfield. split; [exact Hs|].
  apply in_flat_map. exists label. split; [exact Hl|].
  destruct Ht as [<-|[<-|[]]]; in_list.
Qed.

(** with its fields in the table, [check_raw_and_adj_callstats] is the loop
    over the dictionary of [callstats_entries] *)
Lemma check_raw_and_adj_callstats_run verbose :
  check_raw_and_adj_callstats t subsets verbose delimiter metric_first_field
  = generic_field_check_loop (rows t)
      (dict_of (callstats_entries delimiter metric_first_field subsets))
      verbose false None.
Proof.
  unfold check_raw_and_adj_callstats.
  match goal with
  | |- context [fold_ ["raw"; "adj"] ?body ?acc] =>
      rewrite (fold_quiet ["raw"; "adj"] body
                 (fun s group =>
                    fold_left assign (callstats_group_entries delimiter group) s)
                 acc)
  end.
  2:{ intros s group Hg. cbn [fold_]. cbv zeta.
      rewrite (callstats_tier_field "AN" group) by (assumption || in_list).
      rewrite (callstats_tier_field "AC" group) by (assumption || in_list).
      rewrite (callstats_tier_field "nhomalt" group) by (assumption || in_list).
      rewrite (callstats_tier_field "AF" group) by (assumption || in_list).
      reflexivity. }
  rewrite bind_ret_l.
  match goal with
  | |- context [fold_ ["AC"; "AF"] ?body ?acc] =>
      rewrite (fold_quiet ["AC"; "AF"] body
                 (fun s subfield =>
                    fold_left assign (callstats_sign_entries delimiter subfield) s)
                 acc)
  end.
  2:{ intros s subfield Hs. cbv zeta.
      assert (Hs' : In subfield ["AN"; "AC"; "nhomalt"; "AF"])
        by (destruct Hs as [<-|[<-|[]]]; in_list).
      rewrite (callstats_tier_field subfield "raw") by (assumption || in_list).
      rewrite (callstats_tier_field subfield "adj") by (assumption || in_list).
      reflexivity. }
  rewrite bind_ret_l.
  match goal with
  | |- context [fold_ ["AC"; "AN"; "nhomalt"] ?body ?acc] =>
      rewrite (fold_quiet ["AC"; "AN"; "nhomalt"] body
                 (fun s subfield =>
                    fold_left assign
                      (map raw_adj_entry
                         (raw_adj_labels delimiter metric_first_field subsets
                            subfield)) s)
                 acc)
  end.
  2:{ intros s subfield Hs. cbv zeta.
      assert (Hs' : In subfield ["AN"; "AC"; "nhomalt"; "AF"])
        by (destruct Hs as [<-|[<-|[<-|[]]]]; in_list).
      rewrite (callstats_tier_field subfield "raw") by (assumption || in_list).
      rewrite (callstats_tier_field subfield "adj") by (assumption || in_list).
      rewrite !bind_lift_ok.
      match goal with
      | |- fold_ subsets ?body ?acc = _ =>
          rewrite (fold_quiet subsets body
                     (fun s subset =>
                        assign s (raw_adj_entry
                                    (raw_adj_label delimiter metric_first_field
                                       subfield subset)))
                     acc)
      end.
      - unfold raw_adj_labels. cbn [map fold_left].
        rewrite fold_left_map, map_map. do 2 f_equal.
        unfold assign, raw_adj_entry. cbn [fst snd].
        now rewrite !append_assoc.
      - intros s0 subset Hsub.
        assert (Hl : In (raw_adj_label delimiter metric_first_field subfield subset)
                        (raw_adj_labels delimiter metric_first_field subsets subfield)).
        { right. now apply in_map. }
        pose proof (callstats_label_field subfield _ "raw" Hs Hl ltac:(in_list)) as Hr.
        pose proof (callstats_label_field subfield _ "adj" Hs Hl ltac:(in_list)) as Ha.
        unfold raw_adj_label in Hr, Ha. cbv zeta in Hr, Ha.
        rewrite Hr, Ha. reflexivity. }
  rewrite bind_ret_l.
  unfold dict_of, callstats_entries.
  now rewrite !fold_left_app, <- !fold_left_flat_map.
Qed.

End RawAdj.


Lemma raw_adj_key_last (label : string) :
  Str.last (fst (raw_adj_entry label)) = Some "j"%char.
Proof. unfold raw_adj_entry. cbn [fst]. now last_of_append_goal. Qed.

Lemma raw_adj_key_inj (l1 l2 : string) :
  fst (raw_adj_entry l1) = fst (raw_adj_entry l2) -> l1 = l2.
Proof.
  unfold raw_adj_entry. cbn [fst]. intros H.
  assert (Hlen : String.length l1 = String.length l2).
  { apply (f_equal String.length) in H.
    rewrite !append_length in H. simpl in H. lia. }
  rewrite !append_assoc in H.
  now destruct (append_same_length _ _ _ _ Hlen H).
Qed.

Lemma callstats_group_key_last d g k v :
  In (k, v) (callstats_group_entries d g) ->
  Str.last k = Some "g"%char \/ Str.last k = Some "0"%char.
Proof.
  unfold callstats_group_entries. cbv zeta. cbn [map app In].
  intros [H|[H|[H|[H|[]]]]]; inversion H; subst; clear H;
    last_of_append_goal; auto.
Qed.

Lemma callstats_sign_key_last d f k v :
  In (k, v) (callstats_sign_entries d f) -> Str.last k = Some "0"%char.
Proof.
  unfold callstats_sign_entries. cbv zeta. cbn [In].
  intros [H|[H|[]]]; inversion H; subst; clear H; now last_of_append_goal.
Qed.

Lemma callstats_entries_agg d mff subsets k v :
  In (k, v) (callstats_entries d mff subsets) -> fc_agg_func v = count_where.
Proof.
  unfold callstats_entries. rewrite !in_app_iff, !in_flat_map.
  intros [[g [_ H]]|[[f [_ H]]|[f [_ H]]]].
  - unfold callstats_group_entries in H. cbv zeta in H. cbn [map app In] in H.
    destruct H as [H|[H|[H|[H|[]]]]]; inversion H; reflexivity.
  - unfold callstats_sign_entries in H. cbv zeta in H. cbn [In] in H.
    destruct H as [H|[H|[]]]; inversion H; reflexivity.
  - apply in_map_iff in H. destruct H as [l [H _]]. inversion H; reflexivity.
Qed.

(** a raw >= adj description is assigned the entry of its own two fields
    only *)
Lemma callstats_entries_determined d mff subsets label v' :
  In (fst (raw_adj_entry label), v') (callstats_entries d mff subsets) ->
  v' = snd (raw_adj_entry label).
Proof.
  unfold callstats_entries. rewrite !in_app_iff, !in_flat_map.
  pose proof (raw_adj_key_last label) as Hj.
  intros [[g [_ H]]|[[f [_ H]]|[f [_ H]]]].
  - apply callstats_group_key_last in H. rewrite Hj in H.
    destruct H as [H|H]; discriminate H.
  - apply callstats_sign_key_last in H. rewrite Hj in H. discriminate H.
  - apply in_map_iff in H. destruct H as [l [H _]].
    assert (l = label) by (apply raw_adj_key_inj; now rewrite H).
    subst l. now rewrite H.
Qed.

Lemma rows_where_zero (t : Table) (p : Site -> bool) :
  count_verdict (rows_where t p) = Passed
  <-> forall s, In s (rows t) -> p s = false.
Proof.
  unfold count_verdict, rows_where.
  destruct (Z.gtb_spec (Z.of_nat (List.length (filter p (rows t)))) 0) as [Hpos|Hz].
  - split; [discriminate|]. intros Hall. exfalso.
    destruct (filter p (rows t)) as [|s l] eqn:E; [simpl in Hpos; lia|].
    assert (Hin : In s (filter p (rows t))) by (rewrite E; now left).
    apply filter_In in Hin. destruct Hin as [Hin Hp].
    rewrite (Hall s Hin) in Hp. discriminate.
  - split; [|reflexivity]. intros _ s Hin.
    destruct (p s) eqn:Hp; [|reflexivity]. exfalso.
    assert (Hin' : In s (filter p (rows t))) by (apply filter_In; auto).
    destruct (filter p (rows t)); [contradiction | simpl in Hz; lia].
Qed.


(** ** make_group_sum_expr_dict *)


Lemma dict_get_remove {V} (k : string) (d : dict V) :
  dict_get k (dict_remove k d) = None.
Proof.
  induction d as [|[k' v] d IH]; simpl; [reflexivity|].
  destruct (String.eqb_spec k' k) as [->|Hne]; simpl; [exact IH|].
  destruct (String.eqb_spec k' k); [contradiction | exact IH].
Qed.

Section GroupSum.
Variables (t : Table) (metric_first_field : bool)
          (delimiter subset group sum_group : string)
          (label_combos : list string).








End GroupSum.


(** ** check_sex_chr_metrics *)

Lemma for_events {A} (xs : list A) (f : A -> M unit) (ev : A -> list event) :
  (forall x, In x xs -> f x = (ev x, Ok tt)) ->
  for_ xs f = (flat_map ev xs, Ok tt).
Proof.
  intros H. rewrite for_ok by (intros x Hx; now rewrite (H x Hx)).
  f_equal. clear -H. induction xs as [|x xs IH]; simpl; [reflexivity|].
  rewrite (H x) by now left. rewrite IH; [reflexivity|].
  intros y Hy. apply H. now right.
Qed.

Lemma dict_get_map_key {V W} (g : string -> W) (k : string) (d : dict V) :
  dict_get k (map (fun kv => (fst kv, g (fst kv))) d)
  = option_map (fun _ => g k) (dict_get k d).
Proof.
  induction d as [|[k' v] d IH]; simpl; [reflexivity|].
  destruct (String.eqb_spec k' k) as [->|_]; [reflexivity | exact IH].
Qed.

Lemma dict_of_In {V} (kvs : list (string * V)) (k : string) (v : V) :
  In (k, v) (dict_of kvs) -> In (k, v) kvs.
Proof.
  intros Hin.
  assert (Hnd : NoDup (dict_keys (dict_of kvs)))
    by (apply assign_all_NoDup; constructor).
  pose proof (dict_get_In k v _ Hnd Hin) as Hget.
  apply assign_all_get_inv in Hget. now destruct Hget as [H|H]; [|discriminate].
Qed.

(** the reporter writes no line of the chrY check *)
Lemma generic_field_check_y_quiet {Row} (ht : list Row) desc df cond_expr verbose
    sp n hc :
  y_verdicts (generic_field_check ht desc df cond_expr verbose sp (Some n) hc) = [].
Proof.
  unfold y_verdicts, generic_field_check. cbv zeta.
  generalize (tcount ht); intros total.
  destruct sp, hc as [c|], verbose, cond_expr as [p|]; simpl;
    repeat match goal with
           | |- context [percentage ?a ?b] => destruct (percentage a b); simpl
           | |- context [if ?b then _ else _] => destruct b; simpl
           end;
    reflexivity.
Qed.

Lemma generic_field_check_loop_y_quiet {Row} (ht : list Row)
    (kvs : list (string * FieldCheck Row)) verbose sp :
  (forall k v, In (k, v) kvs -> fc_agg_func v = count_where) ->
  y_verdicts (generic_field_check_loop ht (dict_of kvs) verbose sp None) = [].
Proof.
  intros Hagg.
  rewrite generic_field_check_loop_counts.
  - rewrite bind_emit, for_ok
      by (intros x _; apply generic_field_check_counted_ok).
    unfold y_verdicts, events; cbn [fst flat_map y_verdict_of app].
    apply flat_map_nil. intros ev Hev. apply in_flat_map in Hev.
    destruct Hev as [[k v] [_ Hev]].
    pose proof (generic_field_check_y_quiet ht k (fc_display_fields v)
                  (Some (fc_expr v)) verbose sp
                  (tcount (tfilter ht (fc_expr v))) None) as Hq.
    unfold y_verdicts in Hq.
    destruct (y_verdict_of ev) as [|p l] eqn:E; [reflexivity|]. exfalso.
    assert (Hin : In p (flat_map y_verdict_of
                          (events (generic_field_check ht k (fc_display_fields v)
                                     (Some (fc_expr v)) verbose sp
                                     (Some (tcount (tfilter ht (fc_expr v)))) None)))).
    { apply in_flat_map. exists ev. split; [exact Hev|]. rewrite E. now left. }
    rewrite Hq in Hin. exact Hin.
  - apply assign_all_NoDup. constructor.
  - intros k v Hin. apply (Hagg k). now apply dict_of_In.
Qed.

Section SexChr.
Variables (in_x_nonpar : Locus -> bool) (t : Table)
          (info_metrics : list string) (delimiter : string).
Hypothesis Hfields :
  forall f, In f (sex_chr_fields delimiter info_metrics) ->
            str_in f (info_fields t) = true.

Lemma xx_metric_field metric :
  In metric (xx_metrics delimiter info_metrics) ->
  info_field (filter_contig t "chrY") metric = Ok (info_value metric).
Proof.
  intros Hin. apply info_field_present. cbn [filter_contig info_fields].
  apply Hfields. unfold sex_chr_fields. apply in_or_app. now left.
Qed.

Lemma metrics_values_In k a :
  In (k, a) (y_metrics_values delimiter info_metrics) ->
  In k (xx_metrics delimiter info_metrics)
  /\ a = agg_any (hl_is_defined (info_value k)).
Proof.
  intros Hin. apply dict_of_In in Hin. apply in_map_iff in Hin.
  destruct Hin as [m [E Hm]]. inversion E; subst. auto.
Qed.

Lemma defined_on_y_aggregate metric :
  aggregate1 (rows (filter_contig t "chrY"))
    (agg_any (hl_is_defined (info_value metric)))
  = defined_on_y t metric.
Proof. unfold aggregate1, defined_on_y. now rewrite any_fold. Qed.

(** the loop over the result of the chrY aggregation *)
Lemma y_loop (body : string * bool -> M unit) :
  (forall metric value,
     body (metric, value)
     = if value then
         e <- lift (info_field (filter_contig t "chrY") metric) ;;
         emit EngineAggregate ;;;
         emit (Info "FAILED %s = %s check for Y variants. Values found: %s"
                    [AStr metric; ANone;
                     AVals (firstn 1
                              (flat_map (fun r => match e r with
                                                  | Some x => [x]
                                                  | None => []
                                                  end)
                                 (rows (filter_contig t "chrY"))))])
       else emit (Info "PASSED %s = %s check for Y variants" [AStr metric; ANone])) ->
  for_ (aggregate_struct (rows (filter_contig t "chrY")) (y_metrics_values delimiter info_metrics)) body
  = (flat_map (fun kv => y_report t (fst kv)) (y_metrics_values delimiter info_metrics), Ok tt).
Proof.
  intros Hbody. rewrite aggregate_struct_each, for_map.
  apply for_events. intros [k a] Hin. cbn [fst snd].
  destruct (metrics_values_In k a Hin) as [Hk ->].
  rewrite Hbody, defined_on_y_aggregate. unfold y_report.
  destruct (defined_on_y t k); [|reflexivity].
  rewrite (xx_metric_field k Hk). reflexivity.
Qed.

Lemma y_report_verdicts (d : dict (Aggregator Site bool)) :
  flat_map y_verdict_of (flat_map (fun kv => y_report t (fst kv)) d)
  = map (fun kv => (fst kv,
                    (fun metric =>
                       if defined_on_y t metric
                       then Some (firstn 1 (y_values t metric)) else None)
                      (fst kv))) d.
Proof.
  induction d as [|[k a] d IH]; [reflexivity|].
  cbn [flat_map map fst snd]. rewrite flat_map_app, IH.
  unfold y_report. now destruct (defined_on_y t k).
Qed.

Lemma y_report_quiet (d : dict (Aggregator Site bool)) :
  flat_map verdict_of (flat_map (fun kv => y_report t (fst kv)) d) = [].
Proof.
  apply flat_map_nil. intros ev Hev. apply in_flat_map in Hev.
  destruct Hev as [[k a] [_ Hev]]. unfold y_report in Hev. cbn [fst] in Hev.
  destruct (defined_on_y t k); simpl in Hev;
    repeat (destruct Hev as [<-|Hev]; [reflexivity|]); contradiction.
Qed.

Lemma sex_chr_entries_agg k v :
  In (k, v) (map (sex_chr_entry delimiter)
               (xx_nhomalt_metrics delimiter info_metrics)) ->
  fc_agg_func v = count_where.
Proof.
  intros H. apply in_map_iff in H. destruct H as [m [E _]]. now inversion E.
Qed.

(** [check_sex_chr_metrics], with its fields in the table: the chrY block
    when "chrY" is among the contigs, then the loop over the X non-PAR
    checks *)
Lemma check_sex_chr_metrics_run contigs verbose :
  check_sex_chr_metrics in_x_nonpar t info_metrics contigs verbose delimiter
  = ((if str_in "chrY" contigs then y_block_events t delimiter info_metrics else [])
     ++ [EngineCount;
         Info "Found %d X nonpar sites" [AInt (tcount (rows (x_nonpar in_x_nonpar t)))];
         Info "Check (nhomalt == nhomalt_xx) for X nonpar variants:" []]
     ++ events (generic_field_check_loop (rows (x_nonpar in_x_nonpar t))
                  (dict_of (map (sex_chr_entry delimiter)
                              (xx_nhomalt_metrics delimiter info_metrics)))
                  verbose false None),
     Ok tt).
Proof.
  unfold check_sex_chr_metrics. cbv zeta.
  fold (xx_metrics delimiter info_metrics).
  fold (xx_nhomalt_metrics delimiter info_metrics).
  fold (x_nonpar in_x_nonpar t).
  match goal with
  | |- context [fold_ (xx_nhomalt_metrics delimiter info_metrics) ?body ?acc] =>
      rewrite (fold_quiet (xx_nhomalt_metrics delimiter info_metrics) body
                 (fun s metric => assign s (sex_chr_entry delimiter metric)) acc)
  end.
  2:{ intros s metric Hm.
      assert (H1 : In metric (xx_metrics delimiter info_metrics)).
      { unfold xx_nhomalt_metrics in Hm. now apply filter_In in Hm. }
      rewrite (info_field_present (x_nonpar in_x_nonpar t) metric)
        by (apply Hfields; unfold sex_chr_fields; apply in_or_app; now left).
      fold (standard_field delimiter metric).
      rewrite (info_field_present (x_nonpar in_x_nonpar t)
                 (standard_field delimiter metric))
        by (apply Hfields; unfold sex_chr_fields; apply in_or_app; right;
            now apply in_map).
      reflexivity. }
  rewrite bind_ret_l, fold_left_map. fold (@dict_of (FieldCheck Site)).
  destruct (assigned_checks_verdicts (rows (x_nonpar in_x_nonpar t))
              (map (sex_chr_entry delimiter)
                 (xx_nhomalt_metrics delimiter info_metrics))
              verbose false sex_chr_entries_agg) as [Hok _].
  set (loop := generic_field_check_loop _ _ _ _ _) in *.
  destruct (str_in "chrY" contigs).
  - match goal with
    | |- context [fold_ (xx_metrics delimiter info_metrics) ?body ?acc] =>
        rewrite (fold_quiet (xx_metrics delimiter info_metrics) body
                   (fun s metric =>
                      assign s (metric, agg_any (hl_is_defined (info_value metric))))
                   acc)
    end.
    2:{ intros s metric Hm.
        now rewrite (xx_metric_field metric Hm). }
    rewrite bind_ret_l, fold_left_map. fold (@dict_of (Aggregator Site bool)).
    fold (y_metrics_values delimiter info_metrics).
    rewrite y_loop by (intros metric [|]; reflexivity).
    rewrite (surjective_M loop), Hok. reflexivity.
  - rewrite (surjective_M loop), Hok. reflexivity.
Qed.

End SexChr.


Lemma defined_on_y_iff (t : Table) (metric : string) :
  defined_on_y t metric = true
  <-> exists s, In s (rows t) /\ contig (locus s) = "chrY"
                /\ info_value metric s <> None.
Proof.
  unfold defined_on_y. rewrite existsb_exists. cbn [filter_contig rows].
  split.
  - intros [s [Hin Hdef]]. apply filter_In in Hin. destruct Hin as [Hin Hc].
    apply String.eqb_eq in Hc. exists s. repeat split; auto.
    unfold holds, hl_is_defined in Hdef.
    destruct (info_value metric s); [discriminate | discriminate Hdef].
  - intros [s [Hin [Hc Hdef]]]. exists s. split.
    + apply filter_In. split; [exact Hin|]. now apply String.eqb_eq.
    + unfold holds, hl_is_defined.
      destruct (info_value metric s); [reflexivity | contradiction].
Qed.

Lemma y_values_found (t : Table) (metric : string) :
  defined_on_y t metric = true -> exists v, firstn 1 (y_values t metric) = [v].
Proof.
  unfold defined_on_y, y_values. generalize (rows (filter_contig t "chrY")).
  intros l. induction l as [|s l IH]; simpl; [discriminate|].
  unfold holds at 1, hl_is_defined at 1.
  destruct (info_value metric s) as [x|]; simpl.
  - intros _. now exists x.
  - exact IH.
Qed.


(** ** The missingness walker *)

Lemma missingness_induction (P : missingness -> Prop) :
  (forall p, P (MFraction p)) ->
  (forall d, (forall k m, In (k, m) d -> P m) -> P (MDict d)) ->
  forall m, P m.
Proof.
  intros Hf Hd.
  refine (fix IH (m : missingness) : P m :=
            match m with
            | MFraction p => Hf p
            | MDict d =>
                Hd d ((fix go (d : list (string * missingness))
                         : forall k m, In (k, m) d -> P m :=
                         match d with
                         | [] => fun k m H => match H with end
                         | (k0, m0) :: d' => fun k m H => _
                         end) d)
            end).
  destruct H as [E|H].
  - replace m with m0 by congruence. exact (IH m0).
  - exact (go d' k m H).
Qed.

Lemma dict_get_Some_In {V} (k : string) (v : V) (d : dict V) :
  dict_get k d = Some v -> In (k, v) d.
Proof.
  induction d as [|[k' v'] d IH]; simpl; [discriminate|].
  destruct (String.eqb_spec k' k) as [->|_].
  - intros E. inversion E. now left.
  - intros E. right. now apply IH.
Qed.

Lemma dict_set_In {V} (k k0 : string) (v v0 : V) (d : dict V) :
  In (k0, v0) (dict_set k v d) -> (k0 = k /\ v0 = v) \/ In (k0, v0) d.
Proof.
  induction d as [|[k' v'] d IH]; simpl.
  - intros [E|[]]. inversion E. auto.
  - destruct (String.eqb_spec k' k) as [->|_]; simpl.
    + intros [E|H]; [inversion E|]; auto.
    + intros [E|H]; [auto|]. destruct (IH H); auto.
Qed.

Lemma assign_all_In {V} (kvs : list (string * V)) (d : dict V) (k : string) (v : V) :
  In (k, v) (fold_left assign kvs d) -> In (k, v) kvs \/ In (k, v) d.
Proof.
  revert d. induction kvs as [|[k' v'] kvs IH]; intros d; simpl; [auto|].
  intros H. destruct (IH _ H) as [H1|H1]; [auto|].
  unfold assign in H1; cbn [fst snd] in H1.
  destruct (dict_set_In _ _ _ _ _ H1) as [[-> ->]|H2]; auto.
Qed.

Lemma Qred_bounds (n : Z) (d : positive) :
  0 <= n <= Z.pos d -> (0 <= Qred (n # d) <= 1)%Q.
Proof.
  intros H. rewrite Qred_correct.
  split; unfold Qle; cbn [Qnum Qden]; lia.
Qed.

(** a fraction is a fraction: between 0 and 1 *)
Lemma fraction_bounds (ht : list HRow) (p : BooleanExpression HRow) (q : Q) :
  fraction ht p = Some q -> (0 <= q <= 1)%Q.
Proof.
  unfold fraction. destruct ht as [|r ht]; [discriminate|].
  intros E.
  apply (f_equal (fun o => match o with Some x => x | None => q end)) in E.
  cbv beta iota in E. rewrite <- E. apply Qred_bounds.
  pose proof (tfilter_count_le (r :: ht) p) as Hle.
  replace (Z.pos (Pos.of_nat (List.length (r :: ht)))) with (tcount (r :: ht));
    [exact Hle|].
  unfold tcount. cbn [List.length].
  now rewrite <- Pos.of_nat_succ, Znat.Zpos_P_of_succ_nat, Nat2Z.inj_succ.
Qed.

(** every value of the flattened result is the fraction of some predicate
    over the table *)
Lemma flatten_missingness_structs_are_fractions (ht : list HRow) (m : missingness) :
  forall k v, In (k, v) (flatten_missingness_struct (aggregate_missingness ht m)) ->
              exists p, v = fraction ht p.
Proof.
  induction m as [p|d IH] using missingness_induction; intros k v Hin.
  - contradiction.
  - cbn [aggregate_missingness flatten_missingness_struct] in Hin.
    revert Hin.
    assert (Hacc : forall k v, In (k, v) (@nil (string * option Q)) ->
                               exists p, v = fraction ht p) by (intros ? ? []).
    revert Hacc. generalize (@nil (string * option Q)) as acc.
    induction d as [|[k0 m0] d IHd]; intros acc Hacc; cbn [map].
    + intros Hin. now apply (Hacc k).
    + cbn [fst snd]. apply IHd.
      * intros k1 m1 H1. apply (IH k1). now right.
      * intros k1 v1 H1.
        destruct m0 as [p0|d0]; cbn [aggregate_missingness] in H1.
        -- apply dict_set_In in H1. destruct H1 as [[_ ->]|H1]; [now exists p0|].
           now apply (Hacc k1).
        -- apply assign_all_In in H1. destruct H1 as [H1|H1]; [|now apply (Hacc k1)].
           apply (IH k0 (MDict d0) (or_introl eq_refl) k1 v1). exact H1.
Qed.


Lemma forallb_is_none {A} (xs : list (option A)) :
  forallb is_none xs = true <-> Forall (fun x => x = None) xs.
Proof.
  rewrite forallb_forall, Forall_forall. split; intros H x Hx.
  - specialize (H x Hx). now destruct x.
  - now rewrite (H x Hx).
Qed.

(** an array or set counts as missing when it is absent, or when all its
    elements (none, if it is empty) are missing *)
Lemma collection_missing_iff (v : option hval) :
  or_else (all_is_missing v) true = Some true
  <-> v = None
      \/ exists xs, (v = Some (HArray xs) \/ v = Some (HSet xs))
                    /\ (xs = [] \/ Forall (fun x => x = None) xs).
Proof.
  destruct v as [[q|s|b|xs|xs|fs]|]; simpl.
  1-3, 6: split; [discriminate|];
    intros [H|[xs [[H|H] _]]]; discriminate H.
  3: split; auto.
  all: split.
  - intros H. right. exists xs. split; [auto|]. right.
    apply forallb_is_none. now inversion H.
  - intros [H|[ys [[H|H] Hall]]]; try discriminate H.
    inversion H; subst ys. f_equal. apply forallb_is_none.
    destruct Hall as [->|Hall]; [constructor | exact Hall].
  - intros H. right. exists xs. split; [auto|]. right.
    apply forallb_is_none. now inversion H.
  - intros [H|[ys [[H|H] Hall]]]; try discriminate H.
    inversion H; subst ys. f_equal. apply forallb_is_none.
    destruct Hall as [->|Hall]; [constructor | exact Hall].
Qed.


(** ** unfurl_array_annotations *)

Lemma dict_set_new {V} (k : string) (v : V) (d : dict V) :
  ~ In k (dict_keys d) -> dict_set k v d = d ++ [(k, v)].
Proof.
  induction d as [|[k' v'] d IH]; simpl; intros Hnot; [reflexivity|].
  destruct (String.eqb_spec k' k) as [->|_].
  - exfalso. apply Hnot. now left.
  - rewrite IH; [reflexivity|]. intros H. apply Hnot. now right.
Qed.

(** assignments to keys that are all new and distinct append in order *)
Lemma assign_all_distinct {V} (kvs : list (string * V)) (d : dict V) :
  NoDup (map fst kvs) ->
  (forall k, In k (map fst kvs) -> ~ In k (dict_keys d)) ->
  fold_left assign kvs d = d ++ kvs.
Proof.
  revert d. induction kvs as [|[k v] kvs IH]; intros d Hnd Hnew; simpl.
  - now rewrite app_nil_r.
  - inversion Hnd as [|? ? Hk Hnd']; subst.
    unfold assign at 2; cbn [fst snd].
    rewrite dict_set_new by (apply Hnew; now left).
    rewrite IH; [now rewrite <- app_assoc | exact Hnd'|].
    intros k' Hk' Hin. unfold dict_keys in Hin. rewrite map_app in Hin.
    apply in_app_or in Hin. destruct Hin as [Hin|[<-|[]]].
    + apply (Hnew k'); [now right | exact Hin].
    + now apply Hk.
Qed.

Lemma dict_get_str_in {V} (k : string) (v : V) (d : dict V) :
  dict_get k d = Some v -> str_in k (map fst d) = true.
Proof.
  intros H. apply str_in_In. apply dict_get_Some_In in H.
  change k with (fst (k, v)). now apply in_map.
Qed.

(** one array, present with its index dictionary: the flat fields are
    assigned entry by entry, field by field *)
Lemma unfurl_array_annotations_run (ht : ArrayTable) (array idx : string)
    (fields : list (string * htype)) (d : dict Z) :
  dict_get array (row_type ht) = Some (TArray (TStruct fields)) ->
  dict_get idx (globals ht) = Some (GIndexDict d) ->
  unfurl_array_annotations ht [(array, idx)]
  = ret (dict_of (unfurled_fields array (map fst fields) d)).
Proof.
  intros Harray Hdict. unfold unfurl_array_annotations. cbn [fold_].
  rewrite (dict_get_str_in _ _ _ Harray).
  unfold dict_keys. rewrite (dict_get_str_in _ _ _ Hdict). cbn [negb].
  rewrite Hdict, bind_ret_l, Harray.
  match goal with
  | |- context [fold_ d ?body ?acc] =>
      rewrite (fold_quiet d body
                 (fun s ki =>
                    fold_left assign
                      (map (fun f => (f +:+ "_" +:+ fst ki,
                                      unfurled array (snd ki) f))
                           (map fst fields)) s)
                 acc)
  end.
  - rewrite bind_ret_l. unfold dict_of, unfurled_fields.
    now rewrite fold_left_flat_map.
  - intros s [k i] _. rewrite bind_ret_l. cbn [fst snd].
    rewrite <- fold_left_map. apply fold_quiet. reflexivity.
Qed.

Lemma index_array_in_range (array : string) (r : HRow) (xs : list (option hval))
    (i : Z) :
  row_field array r = Some (HArray xs) ->
  0 <= i < Z.of_nat (List.length xs) ->
  index_array (row_field array) i r = Ok (nth (Z.to_nat i) xs None).
Proof.
  intros Hxs Hi. unfold index_array. rewrite Hxs. cbv zeta.
  destruct (Z.leb_spec 0 i); [|lia].
  destruct (Z.ltb_spec i (Z.of_nat (List.length xs))); [reflexivity | lia].
Qed.


(** ** The repository's tests, on the embedding *)

(** test_check_sex_chr_metrics_logs: the four lines the test looks for *)
Example test_check_sex_chr_metrics_logs :
  let log := events (check_sex_chr_metrics grch38_in_x_nonpar sex_chr_table
                       sex_chr_metrics_list ["chrX"; "chrY"] false "_") in
  In (Info "FAILED %s = %s check for Y variants. Values found: %s"
           [AStr "nhomalt_XX"; ANone; AVals [3 # 1]]) log
  /\ In (Info "PASSED %s = %s check for Y variants" [AStr "nhomalt_amr_XX"; ANone]) log
  /\ In (Info "PASSED %s = %s check for Y variants" [AStr "AC_XX"; ANone]) log
  /\ In (found_line 1 "nhomalt_XX == nhomalt") log.
Proof. vm_compute. intuition. Qed.

(** test_unfurl_array_annotations: the keys, and the last row, whose second
    array entry is null *)
Example test_unfurl_array_annotations :
  exists expr_dict,
    outcome (unfurl_array_annotations freq_table [("freq", "freq_index_dict")])
    = Ok expr_dict
    /\ dict_keys expr_dict
       = ["AC_adj"; "AF_adj"; "AN_eas_adj"; "AN_sas_adj";
          "AC_raw"; "AF_raw"; "AN_eas_raw"; "AN_sas_raw"]
    /\ map (fun ke => snd ke (freq_row 3 [freq_struct 8 (2 # 25) (Some 16) (Some 2);
                                          None]))
           expr_dict
       = [Ok (Some (HNum (8 # 1))); Ok (Some (HNum (2 # 25)));
          Ok (Some (HNum (16 # 1))); Ok (Some (HNum (2 # 1)));
          Ok None; Ok None; Ok None; Ok None].
Proof. eexists. split; [vm_compute; reflexivity|]. split; reflexivity. Qed.

(* ===================================================================== *)
(** * The claims *)

Section ReporterClaims.
Context {Row : Type}.
Implicit Types (ht : list Row) (cond_expr : option (BooleanExpression Row)).

(** C1. For every table and every dictionary of field checks whose
    reduction is [count_where], the single batched aggregation of
    [generic_field_check_loop] yields, for each entry, the number of rows
    left by filtering the table with that entry's predicate alone; the loop
    is the reporter run once per entry with that count, and what it
    reports is what the unbatched loop (filter and count per check)
    reports. *)
Theorem batched_counts_equal_independent_counts
    ht (field_check_expr : dict (FieldCheck Row)) verbose show_percent_sites ht_count
    (Hkeys : NoDup (dict_keys field_check_expr))
    (Hagg : forall k v, In (k, v) field_check_expr -> fc_agg_func v = count_where) :
  aggregate_struct ht
    (map (fun kv => (fst kv, fc_agg_func (snd kv) (fc_expr (snd kv))))
         field_check_expr)
  = map (fun kv => (fst kv, tcount (tfilter ht (fc_expr (snd kv)))))
        field_check_expr
  /\ generic_field_check_loop ht field_check_expr verbose show_percent_sites ht_count
     = (emit EngineAggregate ;;;
        for_ field_check_expr (fun kv =>
          generic_field_check ht (fst kv) (fc_display_fields (snd kv))
            (Some (fc_expr (snd kv))) verbose show_percent_sites
            (Some (tcount (tfilter ht (fc_expr (snd kv))))) ht_count))
  /\ report (generic_field_check_loop ht field_check_expr verbose
               show_percent_sites ht_count)
     = report (unbatched_field_check_loop ht field_check_expr verbose
                 show_percent_sites ht_count).
Proof.
  assert (Hcounts :
    aggregate_struct ht
      (map (fun kv => (fst kv, fc_agg_func (snd kv) (fc_expr (snd kv))))
           field_check_expr)
    = map (fun kv => (fst kv, tcount (tfilter ht (fc_expr (snd kv)))))
          field_check_expr).
  { rewrite aggregate_struct_each, map_map. apply map_ext_in.
    intros [k v] Hin; simpl. rewrite (Hagg k v Hin).
    now rewrite count_where_filter. }
  pose proof (generic_field_check_loop_counts ht field_check_expr verbose
                show_percent_sites ht_count Hkeys Hagg) as Hloop.
  split; [exact Hcounts | split; [exact Hloop|]].
  rewrite Hloop, bind_emit. unfold unbatched_field_check_loop.
  transitivity (report (for_ field_check_expr (fun kv =>
         generic_field_check ht (fst kv) (fc_display_fields (snd kv))
           (Some (fc_expr (snd kv))) verbose show_percent_sites
           (Some (tcount (tfilter ht (fc_expr (snd kv))))) ht_count))).
  { destruct (for_ _ _) as [l r]. reflexivity. }
  apply report_for. intros [k v] _. apply generic_field_check_precomputed.
Qed.

(** C3. [generic_field_check] raises the ValueError exactly when both
    [n_fail] and [cond_expr] are None, and then nothing has been counted,
    shown or logged. *)
Theorem generic_field_check_value_error_iff
    ht check_description display_fields cond_expr verbose show_percent_sites
    (n_fail ht_count : option Z) (msg : string) :
  (outcome (generic_field_check ht check_description display_fields cond_expr
              verbose show_percent_sites n_fail ht_count) = Raise (ValueError msg)
   <-> n_fail = None /\ cond_expr = None
       /\ msg = "At least one of n_fail or cond_expr must be defined!")
  /\ generic_field_check ht check_description display_fields None
       verbose show_percent_sites None ht_count
     = ([], Raise (ValueError "At least one of n_fail or cond_expr must be defined!")).
Proof.
  split; [|reflexivity].
  unfold generic_field_check.
  destruct n_fail as [n|], cond_expr as [c|]; cbv zeta.
  4:{ simpl. split.
      - intros H; inversion H; auto.
      - intros [_ [_ Hmsg]]; now rewrite Hmsg. }
  all: split; [|intros [H1 [H2 _]]; discriminate].
  all: generalize (tcount ht); intros total;
    try (generalize (tcount (tfilter ht c)); intros n).
  all: destruct show_percent_sites, ht_count as [hc|], verbose; simpl;
    repeat match goal with
           | |- context [percentage ?a ?b] =>
               let E := fresh "E" in destruct (percentage a b) eqn:E; simpl
           | |- context [if ?b then _ else _] => destruct b; simpl
           end;
    intros H; try discriminate H; inversion H; subst;
    match goal with
    | E : percentage _ _ = Raise _ |- _ =>
        destruct (percentage_raises _ _ _ E); discriminate
    end.
Qed.

(** ** The reporter on the store *)

Lemma nth_error_snoc {A} (s : list A) (o : A) :
  nth_error (s ++ [o]) (List.length s) = Some o.
Proof.
  rewrite nth_error_app2 by lia. now rewrite Nat.sub_diag.
Qed.

Lemma nth_error_app_old {A} (s new : list A) (p : nat) (o : A) :
  nth_error s p = Some o -> nth_error (s ++ new) p = Some o.
Proof.
  intros H. rewrite nth_error_app1; [exact H|].
  apply nth_error_Some. now rewrite H.
Qed.

(** the rows [drop] leaves of the rows [filter] keeps of a [select] *)
Lemma drop_filter_select {A B} (c : A -> option bool) (f : A -> B) (ht : list A) :
  map snd (filter (fun row : option bool * B =>
                     match fst row with Some true => true | _ => false end)
                  (map (fun r => (c r, f r)) ht))
  = map f (filter (fun r => match c r with Some true => true | _ => false end) ht).
Proof.
  induction ht as [|r ht IH]; simpl; [reflexivity|].
  destruct (c r) as [[|]|]; simpl; now rewrite IH.
Qed.

(** every step of a computation on the store leaves the tables of the
    store in place *)
Lemma sm_bind_extends {A B} (m : SM Row A) (k : A -> SM Row B) :
  (forall s, exists new, snd (m s) = s ++ new) ->
  (forall a s, exists new, snd (k a s) = s ++ new) ->
  forall s, exists new, snd (sm_bind m k s) = s ++ new.
Proof.
  intros Hm Hk s. unfold sm_bind.
  destruct (Hm s) as [new1 H1]. destruct (m s) as [[l1 [a|e]] s1]; cbn [snd] in *.
  - destruct (Hk a s1) as [new2 H2]. destruct (k a s1) as [[l2 r] s2]; cbn [snd] in *.
    exists (new1 ++ new2). subst. now rewrite app_assoc.
  - exists new1. exact H1.
Qed.

Lemma sm_lift_extends {A} (m : M A) (s : Store Row) :
  exists new, snd (sm_lift m s) = s ++ new.
Proof. exists []. now rewrite app_nil_r. Qed.

Lemma sm_ret_extends {A} (a : A) (s : Store Row) :
  exists new, snd (sm_ret a s) = s ++ new.
Proof. exists []. now rewrite app_nil_r. Qed.

Lemma new_table_extends (o : table_object Row) (s : Store Row) :
  exists new, snd (new_table o s) = s ++ new.
Proof. now exists [o]. Qed.

Lemma table_at_extends (p : Ref) (s : Store Row) :
  exists new, snd (table_at p s) = s ++ new.
Proof. exists []. now rewrite app_nil_r. Qed.

Ltac store_extends :=
  repeat first
    [ apply sm_bind_extends; [|intros ?]
    | intros ?;
      first [ apply sm_lift_extends | apply sm_ret_extends
            | apply new_table_extends | apply table_at_extends ]
    | match goal with
      | |- forall s, exists _, snd ((if ?b then _ else _) s) = _ => destruct b
      | |- forall s, exists _, snd (match ?x with _ => _ end s) = _ => destruct x
      end ].

Lemma generic_field_check_on_store_extends (p : Ref) desc df cond_expr
    verbose sp (n_fail hc : option Z) (s : Store Row) :
  exists new,
    snd (generic_field_check_on_store p desc df cond_expr verbose sp n_fail hc s)
    = s ++ new.
Proof.
  unfold generic_field_check_on_store, obj_filter, obj_count, obj_select_fail,
    obj_filter_fail, obj_drop_fail, obj_select, obj_show.
  cbv zeta. revert s.
  destruct n_fail as [n|], cond_expr as [c|], sp, hc as [k|], verbose;
    store_extends.
Qed.

Ltac store_run Hp :=
  unfold sm_bind, table_at, new_table, sm_lift, sm_ret;
  repeat first
    [ rewrite nth_error_snoc
    | rewrite (nth_error_app_old _ _ _ _ Hp)
    | rewrite Hp
    | progress simpl
    | match goal with
      | |- context [if ?b then _ else _] => destruct b
      | |- context [percentage ?a ?b] => destruct (percentage a b)
      end ].

(** on the store the reporter logs, shows and returns what it does on the
    table its reference stands for *)
Lemma generic_field_check_on_store_result (s : Store Row) (p : Ref) ht desc df
    cond_expr verbose sp (n_fail hc : option Z) :
  nth_error s p = Some (DataTable ht) ->
  fst (generic_field_check_on_store p desc df cond_expr verbose sp n_fail hc s)
  = generic_field_check ht desc df cond_expr verbose sp n_fail hc.
Proof.
  intros Hp.
  unfold generic_field_check_on_store, generic_field_check, obj_filter,
    obj_count, obj_select_fail, obj_filter_fail, obj_drop_fail, obj_select,
    obj_show.
  cbv zeta.
  destruct n_fail as [n|], cond_expr as [c|], sp, hc as [k|], verbose;
    store_run Hp; try reflexivity.
  all: unfold select, tfilter, holds; rewrite drop_filter_select; reflexivity.
Qed.

(** when the reporter counts itself, its verdict is that of the number of
    rows its predicate keeps *)
Lemma verdicts_self_counted ht desc df c verbose sp hc :
  verdicts (generic_field_check ht desc df (Some c) verbose sp None hc)
  = [(desc, count_verdict (tcount (tfilter ht c)))].
Proof.
  rewrite <- (verdicts_precomputed ht desc df (Some c) verbose sp
                (tcount (tfilter ht c)) hc).
  unfold generic_field_check. cbv zeta. rewrite bind_emit. reflexivity.
Qed.

(** C9. The verdict of the reporter is a function of the failure count.
    - With a count in hand (a count: not negative) it writes exactly one
      verdict line: PASSED when the count is 0, "Found N sites that fail
      ..." when it is positive.
    - With a predicate and no count it counts the rows where the predicate
      is true, and the verdict is that of this number.
    - For a positive count, when the percentage is requested and the row
      count (the one handed in, or the table's) is not 0, the one
      percentage logged is 100 * (n_fail / row count) in floating point:
      the quotient of the two ints rounded to a double, then the product
      with 100 rounded to a double; no percentage is logged when it is not
      requested or the check passes.
    - Any two calls with the same count give the same verdict, whatever the
      table, the predicate and the flags.
    - On a store of tables, a call handed a reference to the table logs,
      shows and returns the same, and leaves every table of the store as it
      was, the dataset included: the tables it makes are new ones.  A
      second call on the store the first one leaves logs, shows and returns
      what the first did. *)
Theorem generic_field_check_classification
    ht check_description display_fields cond_expr verbose show_percent_sites
    (n_fail : Z) (ht_count : option Z)
    (Hcount : 0 <= n_fail) :
  verdicts (generic_field_check ht check_description display_fields
              cond_expr verbose show_percent_sites (Some n_fail) ht_count)
  = [(check_description, if n_fail =? 0 then Passed else FailedSites n_fail)]
  /\ (In (passed_line check_description)
         (events (generic_field_check ht check_description display_fields
                    cond_expr verbose show_percent_sites (Some n_fail) ht_count))
      <-> n_fail = 0)
  /\ (In (found_line n_fail check_description)
         (events (generic_field_check ht check_description display_fields
                    cond_expr verbose show_percent_sites (Some n_fail) ht_count))
      <-> 0 < n_fail)
  /\ (forall c : BooleanExpression Row,
        verdicts (generic_field_check ht check_description display_fields
                    (Some c) verbose show_percent_sites None ht_count)
        = [(check_description,
            if Z.of_nat (List.length
                 (filter (fun r => match c r with
                                   | Some true => true
                                   | _ => false
                                   end) ht)) =? 0
            then Passed
            else FailedSites
                   (Z.of_nat (List.length
                      (filter (fun r => match c r with
                                        | Some true => true
                                        | _ => false
                                        end) ht))))])
  /\ (forall total : Z,
        show_percent_sites = true -> 0 < n_fail ->
        total = match ht_count with
                | Some c => c
                | None => Z.of_nat (List.length ht)
                end ->
        total <> 0 -> n_fail < (2 ^ 1024 - 2 ^ 970) * Z.abs total ->
        percentages (generic_field_check ht check_description display_fields
                       cond_expr verbose show_percent_sites (Some n_fail)
                       ht_count)
        = [SFmul 53 1024 (binary_normalize 53 1024 100 0 false)
             (SFdiv 53 1024
                (S754_finite false (Z.to_pos n_fail) 0)
                (S754_finite (total <? 0) (Z.to_pos (Z.abs total)) 0))])
  /\ (show_percent_sites = false \/ n_fail = 0 ->
      percentages (generic_field_check ht check_description display_fields
                     cond_expr verbose show_percent_sites (Some n_fail)
                     ht_count) = [])
  /\ (forall (ht' : list Row) cond_expr' verbose' show_percent_sites' ht_count',
        verdicts (generic_field_check ht' check_description display_fields
                    cond_expr' verbose' show_percent_sites' (Some n_fail)
                    ht_count')
        = verdicts (generic_field_check ht check_description display_fields
                      cond_expr verbose show_percent_sites (Some n_fail)
                      ht_count))
  /\ (forall (s : Store Row) (p : Ref) (n_fail' : option Z),
        nth_error s p = Some (DataTable ht) ->
        fst (generic_field_check_on_store p check_description display_fields
               cond_expr verbose show_percent_sites n_fail' ht_count s)
        = generic_field_check ht check_description display_fields cond_expr
            verbose show_percent_sites n_fail' ht_count
        /\ (forall q o,
              nth_error s q = Some o ->
              nth_error
                (snd (generic_field_check_on_store p check_description
                        display_fields cond_expr verbose show_percent_sites
                        n_fail' ht_count s)) q
              = Some o)
        /\ fst (generic_field_check_on_store p check_description display_fields
                  cond_expr verbose show_percent_sites n_fail' ht_count
                  (snd (generic_field_check_on_store p check_description
                          display_fields cond_expr verbose show_percent_sites
                          n_fail' ht_count s)))
           = fst (generic_field_check_on_store p check_description
                    display_fields cond_expr verbose show_percent_sites
                    n_fail' ht_count s)).
Proof.
  split; [|split; [|split; [|split; [|split; [|split; [|split]]]]]].
  - rewrite verdicts_precomputed. unfold count_verdict.
    destruct (Z.gtb_spec n_fail 0), (Z.eqb_spec n_fail 0); try reflexivity; lia.
  - unfold generic_field_check, passed_line. cbv zeta.
    generalize (tcount ht); intros total.
    destruct (Z.gtb_spec n_fail 0);
      destruct show_percent_sites, ht_count as [c|], verbose, cond_expr as [p|];
      simpl;
      repeat match goal with
             | |- context [percentage ?a ?b] => destruct (percentage a b); simpl
             | |- context [if ?b then _ else _] => destruct b; simpl
             end;
      split; intros Hin; try lia;
      repeat match goal with
             | H : _ \/ _ |- _ => destruct H
             | H : False |- _ => contradiction
             | H : _ = _ |- _ => discriminate H
             end; auto.
  - unfold generic_field_check, found_line. cbv zeta.
    generalize (tcount ht); intros total.
    destruct (Z.gtb_spec n_fail 0);
      destruct show_percent_sites, ht_count as [c|], verbose, cond_expr as [p|];
      simpl;
      repeat match goal with
             | |- context [percentage ?a ?b] => destruct (percentage a b); simpl
             | |- context [if ?b then _ else _] => destruct b; simpl
             end;
      split; intros Hin; try lia;
      repeat match goal with
             | H : _ \/ _ |- _ => destruct H
             | H : False |- _ => contradiction
             | H : _ = _ |- _ => discriminate H
             end; auto.
  - intros c. rewrite verdicts_self_counted. unfold count_verdict.
    change (Z.of_nat (List.length
              (filter (fun r => match c r with
                                | Some true => true
                                | _ => false
                                end) ht)))
      with (tcount (tfilter ht c)).
    pose proof (tfilter_count_le ht c).
    destruct (Z.gtb_spec (tcount (tfilter ht c)) 0),
             (Z.eqb_spec (tcount (tfilter ht c)) 0); try reflexivity; lia.
  - intros total -> Hpos Htotal Hne Hlt.
    assert (Hvalue : percentage n_fail total
                     = Ok (SFmul 53 1024 (binary_normalize 53 1024 100 0 false)
                             (SFdiv 53 1024
                                (S754_finite false (Z.to_pos n_fail) 0)
                                (S754_finite (total <? 0)
                                   (Z.to_pos (Z.abs total)) 0)))).
    { rewrite percentage_value by (unfold overflow_threshold; lia).
      do 3 f_equal.
      - destruct n_fail; try lia. reflexivity.
      - destruct total; try lia; reflexivity. }
    unfold percentages, generic_field_check. cbv zeta.
    destruct (Z.gtb_spec n_fail 0); [|lia].
    change (Z.of_nat (List.length ht)) with (tcount ht) in Htotal.
    destruct ht_count as [c|]; subst total;
      rewrite ?bind_emit, ?bind_ret_l; simpl; rewrite Hvalue;
      destruct cond_expr; reflexivity.
  - intros Hno. unfold percentages, generic_field_check. cbv zeta.
    generalize (tcount ht); intros total.
    destruct Hno as [->| ->].
    + destruct (n_fail >? 0), ht_count as [c|], verbose, cond_expr as [p|];
        reflexivity.
    + destruct show_percent_sites, ht_count as [c|], verbose, cond_expr as [p|];
        reflexivity.
  - intros. now rewrite !verdicts_precomputed.
  - intros s p n_fail' Hp.
    destruct (generic_field_check_on_store_extends p check_description
                display_fields cond_expr verbose show_percent_sites n_fail'
                ht_count s) as [new Hnew].
    split; [|split].
    + now apply generic_field_check_on_store_result.
    + intros q o Hq. rewrite Hnew. now apply nth_error_app_old.
    + rewrite (generic_field_check_on_store_result s p ht) by exact Hp.
      apply generic_field_check_on_store_result.
      rewrite Hnew. now apply nth_error_app_old.
Qed.

End ReporterClaims.

Lemma batched_counts_equal_independent_counts_witness :
  NoDup (dict_keys coincidence_check)
  /\ report (generic_field_check_loop (rows subset_table) coincidence_check
               false true None)
     = report (unbatched_field_check_loop (rows subset_table) coincidence_check
                 false true None).
Proof.
  assert (Hkeys : NoDup (dict_keys coincidence_check)).
  { repeat constructor; simpl; intros H;
      repeat (destruct H as [H|H]; [discriminate H|]); exact H. }
  split; [exact Hkeys|].
  refine (proj2 (proj2 (batched_counts_equal_independent_counts
                          (rows subset_table) coincidence_check false true None
                          Hkeys _))).
  intros k v [H|[H|[]]]; inversion H; reflexivity.
Defined.

Lemma generic_field_check_classification_witness :
  0 <= 7
  /\ verdicts (generic_field_check (rows subset_table) "AC-adj != AC-s-adj" []
                 None false true (Some 7) (Some 25))
     = [("AC-adj != AC-s-adj", FailedSites 7)]
  /\ percentages (generic_field_check (rows subset_table) "AC-adj != AC-s-adj"
                    [] None false true (Some 7) (Some 25))
     = [S754_finite false 7881299347898369 (-48)]
  /\ float_value (S754_finite false 7881299347898369 (-48))
     = Some (7881299347898369 # 281474976710656)
  /\ (28 < 7881299347898369 # 281474976710656)%Q.
Proof.
  destruct (generic_field_check_classification (rows subset_table)
              "AC-adj != AC-s-adj" [] None false true 7 (Some 25) ltac:(lia))
    as (Hverdict & _ & _ & _ & Hpercent & _).
  split; [lia|]. split; [exact Hverdict|]. split; [|split; reflexivity].
  rewrite (Hpercent 25 eq_refl ltac:(lia) eq_refl ltac:(lia)
             ltac:(vm_compute; reflexivity)).
  reflexivity.
Defined.

(** C2, as stated, fails: on [subset_table] the callset's AC-adj (1) and the
    subset's AC-s-adj (2) differ on the one row, yet the entry labelled
    "AC-adj != AC-s-adj" is reported as passed: no failing row. *)
Lemma compare_subset_freqs_mismatch_not_counted :
  rows_where subset_table (values_differ "AC-adj" "AC-s-adj") = 1
  /\ dict_get "AC-adj != AC-s-adj"
       (verdicts (compare_subset_freqs subset_table ["s"] false true "-" true
                    default_metrics))
     = Some Passed
  /\ dict_get "AC-adj != AC-s-adj"
       (verdicts (compare_subset_freqs subset_table ["s"] false true "-" true
                    default_metrics))
     <> Some (count_verdict
                (rows_where subset_table (values_differ "AC-adj" "AC-s-adj"))).
Proof.
  split; [|split]; [vm_compute; reflexivity .. |].
  vm_compute. discriminate.
Qed.

(** C2, amended. On a table that has the fields compared, for every
    non-empty subset, every metric of AC, AN, nhomalt and every tier of adj,
    raw, [compare_subset_freqs] returns and the verdict it reports for the
    entry labelled "metric-tier != metric-subset-tier" is that of the number
    of rows where the callset's field and the subset's field are both
    present and equal: coincidence is the failure condition. *)
Theorem compare_subset_freqs_counts_coinciding_rows
    (t : Table) (subsets : list string) (verbose show_percent_sites : bool)
    (delimiter : string) (metric_first_field : bool)
    (Hfields : forall f,
       In f (subset_freq_fields delimiter metric_first_field default_metrics subsets) ->
       str_in f (info_fields t) = true) :
  outcome (compare_subset_freqs t subsets verbose show_percent_sites delimiter
             metric_first_field default_metrics) = Ok tt
  /\ forall subset metric group,
       In subset subsets -> subset <> EmptyString ->
       In metric default_metrics -> In group ["adj"; "raw"] ->
       dict_get (subset_freq_left delimiter metric group +:+ " != "
                 +:+ subset_freq_right delimiter metric_first_field subset metric group)
         (verdicts (compare_subset_freqs t subsets verbose show_percent_sites
                      delimiter metric_first_field default_metrics))
       = Some (count_verdict
                 (rows_where t
                    (values_equal
                       (subset_freq_left delimiter metric group)
                       (subset_freq_right delimiter metric_first_field subset
                          metric group)))).
Proof.
  destruct (compare_subset_freqs_run t delimiter metric_first_field default_metrics
              subsets Hfields verbose show_percent_sites) as [Hok Hv].
  split; [exact Hok|]. intros subset metric group Hs Hne Hm Hg. rewrite Hv.
  destruct (assigned_checks_verdicts (rows t)
              (subset_freq_entries delimiter metric_first_field default_metrics subsets)
              verbose show_percent_sites
              (subset_freq_entries_agg delimiter metric_first_field default_metrics
                 subsets)) as (_ & _ & Hget).
  assert (Hin : In (subset_freq_entry delimiter metric_first_field subset metric group)
                   (subset_freq_entries delimiter metric_first_field default_metrics
                      subsets)).
  { unfold subset_freq_entries. apply in_flat_map. exists subset. split; [exact Hs|].
    destruct subset; [contradiction|]. cbn [Str.truthy].
    apply in_flat_map. exists metric. split; [exact Hm|]. now apply in_map. }
  unfold subset_freq_entry in Hin. cbv zeta in Hin.
  rewrite (Hget _ _ Hin (subset_freq_entries_determined _ _ _ _ _ Hin)).
  cbn [fc_expr]. unfold hl_eq, values_equal. now rewrite count_values_rel.
Qed.

Lemma compare_subset_freqs_counts_coinciding_rows_witness :
  (forall f,
     In f (subset_freq_fields "-" true default_metrics ["s"]) ->
     str_in f (info_fields subset_table) = true)
  /\ outcome (compare_subset_freqs subset_table ["s"] false true "-" true
                default_metrics) = Ok tt.
Proof.
  assert (H : forall f,
     In f (subset_freq_fields "-" true default_metrics ["s"]) ->
     str_in f (info_fields subset_table) = true).
  { intros f Hf. vm_compute in Hf.
    repeat (destruct Hf as [<-|Hf]; [vm_compute; reflexivity|]). contradiction. }
  split; [exact H|].
  exact (proj1 (compare_subset_freqs_counts_coinciding_rows subset_table ["s"]
                  false true "-" true H)).
Defined.

(** C4, as stated, fails in its last part: on [callstats_table] the raw AC
    is missing on the one row, so raw >= adj does not hold there, yet the
    check "AC-raw >= AC-adj" passes. *)
Lemma check_raw_and_adj_callstats_passes_on_missing :
  dict_get "AC-raw >= AC-adj"
    (verdicts (check_raw_and_adj_callstats callstats_table [""] false "-" true))
  = Some Passed
  /\ ~ (dict_get "AC-raw >= AC-adj"
          (verdicts (check_raw_and_adj_callstats callstats_table [""] false "-" true))
        = Some Passed
        <-> forall s, In s (rows callstats_table) ->
                      value_at_least "AC-raw" "AC-adj" s = true).
Proof.
  assert (H : dict_get "AC-raw >= AC-adj"
                (verdicts (check_raw_and_adj_callstats callstats_table [""] false
                             "-" true)) = Some Passed)
    by (vm_compute; reflexivity).
  split; [exact H|]. intros [Hall _]. specialize (Hall H).
  specialize (Hall _ (or_introl eq_refl)). vm_compute in Hall. discriminate.
Qed.

(** C4, amended. On a table that has the fields read, for every subfield of
    AC, AN, nhomalt and every configured subset ("" being the whole
    callset), [check_raw_and_adj_callstats] returns and the verdict of the
    entry "[label]raw >= [label]adj" is that of the number of rows where both
    values are present and raw is strictly less than adj; the check passes
    exactly when no row is such a row (a row with a value missing never
    fails). *)
Theorem check_raw_and_adj_callstats_counts_raw_below_adj
    (t : Table) (subsets : list string) (verbose : bool) (delimiter : string)
    (metric_first_field : bool)
    (Hfields : forall f,
       In f (callstats_fields delimiter metric_first_field subsets) ->
       str_in f (info_fields t) = true) :
  outcome (check_raw_and_adj_callstats t subsets verbose delimiter
             metric_first_field) = Ok tt
  /\ forall subfield subset,
       In subfield ["AC"; "AN"; "nhomalt"] -> In subset subsets ->
       let label := raw_adj_label delimiter metric_first_field subfield subset in
       dict_get ((label +:+ "raw") +:+ " >= " +:+ (label +:+ "adj"))
         (verdicts (check_raw_and_adj_callstats t subsets verbose delimiter
                      metric_first_field))
       = Some (count_verdict
                 (rows_where t (value_less (label +:+ "raw") (label +:+ "adj"))))
       /\ (dict_get ((label +:+ "raw") +:+ " >= " +:+ (label +:+ "adj"))
             (verdicts (check_raw_and_adj_callstats t subsets verbose delimiter
                          metric_first_field))
           = Some Passed
           <-> forall s, In s (rows t) ->
                 value_less (label +:+ "raw") (label +:+ "adj") s = false).
Proof.
  rewrite (check_raw_and_adj_callstats_run t delimiter metric_first_field subsets
             Hfields verbose).
  destruct (assigned_checks_verdicts (rows t)
              (callstats_entries delimiter metric_first_field subsets) verbose false
              (callstats_entries_agg delimiter metric_first_field subsets))
    as (Hok & _ & Hget).
  split; [exact Hok|]. intros subfield subset Hf Hs label.
  assert (Hin : In (raw_adj_entry label)
                   (callstats_entries delimiter metric_first_field subsets)).
  { unfold callstats_entries. apply in_or_app. right. apply in_or_app. right.
    apply in_flat_map. exists subfield. split; [exact Hf|].
    apply in_map. right. now apply in_map. }
  assert (Hv : dict_get ((label +:+ "raw") +:+ " >= " +:+ (label +:+ "adj"))
                 (verdicts (generic_field_check_loop (rows t)
                    (dict_of (callstats_entries delimiter metric_first_field subsets))
                    verbose false None))
               = Some (count_verdict
                   (rows_where t (value_less (label +:+ "raw") (label +:+ "adj"))))).
  { refine (eq_trans (Hget (fst (raw_adj_entry label)) (snd (raw_adj_entry label))
                         _ _) _).
    - now rewrite <- surjective_pairing.
    - intros v'. apply callstats_entries_determined.
    - cbn [raw_adj_entry snd fc_expr]. unfold hl_lt, value_less.
      now rewrite count_values_rel. }
  split; [exact Hv|]. rewrite Hv. split.
  - intros H. apply rows_where_zero. now inversion H.
  - intros H. f_equal. now apply rows_where_zero.
Qed.

Lemma check_raw_and_adj_callstats_counts_raw_below_adj_witness :
  (forall f, In f (callstats_fields "-" true [""]) ->
             str_in f (info_fields callstats_table) = true)
  /\ outcome (check_raw_and_adj_callstats callstats_table [""] false "-" true)
     = Ok tt.
Proof.
  assert (H : forall f, In f (callstats_fields "-" true [""]) ->
                        str_in f (info_fields callstats_table) = true).
  { intros f Hf. vm_compute in Hf.
    repeat (destruct Hf as [<-|Hf]; [vm_compute; reflexivity|]). contradiction. }
  split; [exact H|].
  exact (proj1 (check_raw_and_adj_callstats_counts_raw_below_adj callstats_table
                  [""] false "-" true H)).
Defined.






(** C10. [make_group_sum_expr_dict] pops "group" from the dictionary it is
    handed: after any call the caller's [label_groups] has no "group" key
    (it is the dictionary without that key when it had one); a call on the
    dictionary a first call leaves, and any call on a dictionary without
    "group", raises KeyError "group" and returns no check dictionary. *)
Theorem make_group_sum_expr_dict_pops_group
    (make_label_combos : dict (list string) -> string -> list string)
    (t : Table) (subset : string) (label_groups : dict (list string))
    (sort_order : list string) (delimiter : string) (metric_first_field : bool)
    (metrics : list string) :
  dict_get "group"
    (snd (make_group_sum_expr_dict make_label_combos t subset label_groups
            sort_order delimiter metric_first_field metrics)) = None
  /\ (dict_get "group" label_groups <> None ->
      snd (make_group_sum_expr_dict make_label_combos t subset label_groups
             sort_order delimiter metric_first_field metrics)
      = dict_remove "group" label_groups)
  /\ (forall make_label_combos' t' subset' sort_order' delimiter'
             metric_first_field' metrics',
        make_group_sum_expr_dict make_label_combos' t' subset'
          (snd (make_group_sum_expr_dict make_label_combos t subset label_groups
                  sort_order delimiter metric_first_field metrics))
          sort_order' delimiter' metric_first_field' metrics'
        = (raise (KeyError "group"),
           snd (make_group_sum_expr_dict make_label_combos t subset label_groups
                  sort_order delimiter metric_first_field metrics)))
  /\ (dict_get "group" label_groups = None ->
      make_group_sum_expr_dict make_label_combos t subset label_groups
        sort_order delimiter metric_first_field metrics
      = (raise (KeyError "group"), label_groups)).
Proof.
  assert (Hnone : forall mlc t0 s0 lg so d mff ms,
    dict_get "group" lg = None ->
    make_group_sum_expr_dict mlc t0 s0 lg so d mff ms
    = (raise (KeyError "group"), lg)).
  { intros mlc t0 s0 lg so d mff ms H.
    unfold make_group_sum_expr_dict, dict_pop. cbv zeta. now rewrite H. }
  assert (Hafter : dict_get "group"
    (snd (make_group_sum_expr_dict make_label_combos t subset label_groups
            sort_order delimiter metric_first_field metrics)) = None).
  { unfold make_group_sum_expr_dict, dict_pop. cbv zeta.
    destruct (dict_get "group" label_groups) eqn:E; cbn [snd].
    - apply dict_get_remove.
    - exact E. }
  split; [exact Hafter|]. split; [|split].
  - intros H. unfold make_group_sum_expr_dict, dict_pop. cbv zeta.
    destruct (dict_get "group" label_groups); [reflexivity | contradiction].
  - intros. now apply Hnone.
  - apply Hnone.
Qed.

Lemma make_group_sum_expr_dict_pops_group_witness :
  dict_get "group" pop_label_groups <> None
  /\ snd (make_group_sum_expr_dict (make_label_combos_spec pop_sort_order)
            pop_table "" pop_label_groups pop_sort_order "-" true ["AC"])
     = [("pop", ["afr"; "eas"; "nfe"])]
  /\ dict_get "group" [("pop", ["afr"; "eas"; "nfe"])] = None
  /\ make_group_sum_expr_dict (make_label_combos_spec pop_sort_order)
       pop_table "" [("pop", ["afr"; "eas"; "nfe"])] pop_sort_order "-" true ["AC"]
     = (raise (KeyError "group"), [("pop", ["afr"; "eas"; "nfe"])]).
Proof.
  assert (H1 : dict_get "group" pop_label_groups <> None) by discriminate.
  assert (H2 : dict_get "group" [("pop", ["afr"; "eas"; "nfe"])] = None)
    by reflexivity.
  split; [exact H1|]. split; [|split; [exact H2|]].
  - exact (proj1 (proj2 (make_group_sum_expr_dict_pops_group
             (make_label_combos_spec pop_sort_order) pop_table "" pop_label_groups
             pop_sort_order "-" true ["AC"])) H1).
  - exact (proj2 (proj2 (proj2 (make_group_sum_expr_dict_pops_group
             (make_label_combos_spec pop_sort_order) pop_table ""
             [("pop", ["afr"; "eas"; "nfe"])] pop_sort_order "-" true ["AC"]))) H2).
Defined.

(** C8, as stated, fails: on a callset without chrY sites, checked with the
    contigs it has, every XX metric is undefined on every chrY row, yet no
    pass is reported for the chrY check: the check is not run. *)
Lemma check_sex_chr_metrics_silent_without_chrY :
  defined_on_y sex_chr_x_table "nhomalt_XX" = false
  /\ In "nhomalt_XX" (xx_metrics "_" sex_chr_metrics_list)
  /\ dict_get "nhomalt_XX"
       (y_verdicts (check_sex_chr_metrics grch38_in_x_nonpar sex_chr_x_table
                      sex_chr_metrics_list ["chrX"] false "_"))
     = None.
Proof. vm_compute. repeat split; auto. Qed.

(** C8, amended. On a table that has the XX metrics and the sex-agnostic
    fields of the XX nhomalt metrics, [check_sex_chr_metrics] returns.  The
    chrY check runs only when "chrY" is among the contigs handed in; then,
    for every metric whose name carries the XX tag, it reports a failure,
    with one of the values found, when the metric is defined on some chrY
    row, and a pass when it is defined on none.  For every XX nhomalt
    metric (their descriptions being distinct) the verdict of
    "metric == standard" is that of the number of chrX non-PAR rows where
    the two counts are both present and differ. *)
Theorem check_sex_chr_metrics_reports
    (in_x_nonpar : Locus -> bool) (t : Table) (info_metrics contigs : list string)
    (verbose : bool) (delimiter : string)
    (Hfields : forall f, In f (sex_chr_fields delimiter info_metrics) ->
                         str_in f (info_fields t) = true)
    (Hdesc : forall m1 m2,
       In m1 (xx_nhomalt_metrics delimiter info_metrics) ->
       In m2 (xx_nhomalt_metrics delimiter info_metrics) ->
       fst (sex_chr_entry delimiter m1) = fst (sex_chr_entry delimiter m2) ->
       m1 = m2) :
  outcome (check_sex_chr_metrics in_x_nonpar t info_metrics contigs verbose
             delimiter) = Ok tt
  /\ (str_in "chrY" contigs = false ->
      y_verdicts (check_sex_chr_metrics in_x_nonpar t info_metrics contigs verbose
                    delimiter) = [])
  /\ (str_in "chrY" contigs = true ->
      forall metric, In metric (xx_metrics delimiter info_metrics) ->
        dict_get metric
          (y_verdicts (check_sex_chr_metrics in_x_nonpar t info_metrics contigs
                         verbose delimiter))
        = Some (if defined_on_y t metric
                then Some (firstn 1 (y_values t metric)) else None)
        /\ (defined_on_y t metric = true ->
            exists v, firstn 1 (y_values t metric) = [v])
        /\ (defined_on_y t metric = true
            <-> exists s, In s (rows t) /\ contig (locus s) = "chrY"
                          /\ info_value metric s <> None))
  /\ (forall metric, In metric (xx_nhomalt_metrics delimiter info_metrics) ->
        dict_get (metric +:+ " == " +:+ standard_field delimiter metric)
          (verdicts (check_sex_chr_metrics in_x_nonpar t info_metrics contigs
                       verbose delimiter))
        = Some (count_verdict
                  (rows_where (x_nonpar in_x_nonpar t)
                     (values_differ metric (standard_field delimiter metric))))).
Proof.
  rewrite (check_sex_chr_metrics_run in_x_nonpar t info_metrics delimiter Hfields
             contigs verbose).
  pose proof (generic_field_check_loop_y_quiet (rows (x_nonpar in_x_nonpar t))
                (map (sex_chr_entry delimiter)
                   (xx_nhomalt_metrics delimiter info_metrics))
                verbose false (sex_chr_entries_agg info_metrics delimiter)) as Hyq.
  destruct (assigned_checks_verdicts (rows (x_nonpar in_x_nonpar t))
              (map (sex_chr_entry delimiter)
                 (xx_nhomalt_metrics delimiter info_metrics))
              verbose false (sex_chr_entries_agg info_metrics delimiter))
    as (_ & _ & Hget).
  set (loop := generic_field_check_loop _ _ _ _ _) in *.
  unfold y_verdicts, events in Hyq.
  split; [reflexivity|]. split; [|split].
  - intros ->. unfold y_verdicts, events; cbn [fst app].
    cbn [flat_map y_verdict_of app]. exact Hyq.
  - intros -> metric Hm. split; [|split].
    + unfold y_verdicts, events; cbn [fst]. unfold y_block_events.
      rewrite !flat_map_app. cbn [flat_map y_verdict_of app].
      rewrite Hyq, !app_nil_r, y_report_verdicts.
      rewrite (dict_get_map_key
                 (fun metric => if defined_on_y t metric
                                then Some (firstn 1 (y_values t metric)) else None)).
      unfold y_metrics_values, dict_of.
      rewrite (assign_all_get _ [] metric
                 (agg_any (hl_is_defined (info_value metric)))).
      * reflexivity.
      * apply in_map_iff. exists metric. auto.
      * intros v' Hv'. apply in_map_iff in Hv'. destruct Hv' as [m' [E _]].
        now inversion E.
    + apply y_values_found.
    + apply defined_on_y_iff.
  - intros metric Hm.
    assert (Hv : verdicts
                   ((if str_in "chrY" contigs
                     then y_block_events t delimiter info_metrics else [])
                    ++ [EngineCount;
                        Info "Found %d X nonpar sites"
                             [AInt (tcount (rows (x_nonpar in_x_nonpar t)))];
                        Info "Check (nhomalt == nhomalt_xx) for X nonpar variants:" []]
                    ++ events loop, @Ok unit tt)
                 = verdicts loop).
    { unfold verdicts, events; cbn [fst]. rewrite !flat_map_app.
      cbn [flat_map verdict_of app].
      destruct (str_in "chrY" contigs); [|reflexivity].
      unfold y_block_events. cbn [flat_map verdict_of app].
      now rewrite y_report_quiet. }
    rewrite Hv.
    refine (eq_trans (Hget (fst (sex_chr_entry delimiter metric))
                        (snd (sex_chr_entry delimiter metric)) _ _) _).
    + rewrite <- surjective_pairing. now apply in_map.
    + intros v' Hv'. apply in_map_iff in Hv'. destruct Hv' as [m' [E Hm']].
      assert (m' = metric).
      { apply Hdesc; try assumption. now rewrite E. }
      subst m'. now rewrite E.
    + cbn [sex_chr_entry snd fc_expr]. unfold hl_ne, values_differ.
      now rewrite count_values_rel.
Qed.

Lemma check_sex_chr_metrics_reports_witness :
  (forall f, In f (sex_chr_fields "_" sex_chr_metrics_list) ->
             str_in f (info_fields sex_chr_table) = true)
  /\ outcome (check_sex_chr_metrics grch38_in_x_nonpar sex_chr_table
                sex_chr_metrics_list ["chrX"; "chrY"] false "_") = Ok tt.
Proof.
  assert (H : forall f, In f (sex_chr_fields "_" sex_chr_metrics_list) ->
                        str_in f (info_fields sex_chr_table) = true).
  { intros f Hf. vm_compute in Hf.
    repeat (destruct Hf as [<-|Hf]; [vm_compute; reflexivity|]). contradiction. }
  split; [exact H|].
  refine (proj1 (check_sex_chr_metrics_reports grch38_in_x_nonpar sex_chr_table
                   sex_chr_metrics_list ["chrX"; "chrY"] false "_" H _)).
  intros m1 m2 H1 H2. vm_compute in H1, H2.
  destruct H1 as [<-|[<-|[]]], H2 as [<-|[<-|[]]]; intros E;
    try reflexivity; vm_compute in E; discriminate E.
Defined.

(** C5. In [check_missingness_of_struct] a leaf of array or set type counts
    as missing on a row exactly when it is absent, empty, or has only
    missing elements, and a scalar leaf exactly when it is absent.  On the
    five-row table of the test the flattened fractions are s.a: 0,
    s.b: 1/5, s.c.d: 3/5, s.c.e: 2/5, s.c.f: 3/5; and on every table every
    fraction computed lies between 0 and 1.  The fractions are those of
    the struct [hl.struct] makes of the walker's dictionary, aggregated and
    flattened, as in the test. *)
Theorem check_missingness_of_struct_fractions :
  (forall elt struct_expr prefix,
     check_missingness_of_struct (TArray elt) struct_expr prefix
     = MFraction (fun r => or_else (all_is_missing (struct_expr r)) true)
     /\ check_missingness_of_struct (TSet elt) struct_expr prefix
        = MFraction (fun r => or_else (all_is_missing (struct_expr r)) true))
  /\ (forall v,
        or_else (all_is_missing v) true = Some true
        <-> v = None
            \/ exists xs, (v = Some (HArray xs) \/ v = Some (HSet xs))
                          /\ (xs = [] \/ Forall (fun x => x = None) xs))
  /\ (forall ty struct_expr prefix,
        In ty [TInt32; TFloat64; TStr; TBool] ->
        check_missingness_of_struct ty struct_expr prefix
        = MFraction (fun r => is_missing (struct_expr r)))
  /\ (forall v, is_missing v = Some true <-> v = None)
  /\ (exists s,
        hl_struct (check_missingness_of_struct nested_type (row_field "s") "s")
        = Ok s
        /\ flatten_missingness_struct (aggregate_missingness nested_table s)
           = [("s.a", Some (0 # 1)); ("s.b", Some (1 # 5));
              ("s.c.d", Some (3 # 5)); ("s.c.e", Some (2 # 5));
              ("s.c.f", Some (3 # 5))])
  /\ (forall ht ty struct_expr prefix s k q,
        hl_struct (check_missingness_of_struct ty struct_expr prefix) = Ok s ->
        dict_get k (flatten_missingness_struct (aggregate_missingness ht s))
        = Some (Some q) ->
        (0 <= q <= 1)%Q).
Proof.
  split; [intros; split; reflexivity|].
  split; [exact collection_missing_iff|].
  split.
  { intros ty e prefix [<-|[<-|[<-|[<-|[]]]]]; reflexivity. }
  split.
  { intros [v|]; unfold is_missing; simpl; split; intros H;
      try reflexivity; discriminate H. }
  split.
  { eexists. split; [vm_compute; reflexivity|]. vm_compute. reflexivity. }
  intros ht ty e prefix s k q _ Hget.
  apply dict_get_Some_In in Hget.
  destruct (flatten_missingness_structs_are_fractions ht _ _ _ Hget) as [p Hp].
  symmetry in Hp. now apply fraction_bounds in Hp.
Qed.

(** C6, as stated, fails: in [clash_table] the array and its index
    dictionary are present, the struct has two fields and the dictionary two
    keys, yet three flat expressions are produced for the four pairs: the
    name AN_eas_adj of (AN_eas, adj) is also that of (AN, eas_adj), whose
    expression replaces it, so that on the row its value is element 1's AN
    and not element 0's AN_eas. *)
Lemma unfurl_array_annotations_names_clash :
  exists expr_dict e r,
    outcome (unfurl_array_annotations clash_table [("freq", "freq_index_dict")])
    = Ok expr_dict
    /\ List.length expr_dict = 3%nat
    /\ List.length (unfurled_fields "freq" ["AN"; "AN_eas"] [("adj", 0); ("eas_adj", 1)])
       = 4%nat
    /\ array_rows clash_table = [r]
    /\ dict_get "AN_eas_adj" expr_dict = Some e
    /\ e r = Ok (Some (HNum (2 # 1)))
    /\ unfurled "freq" 0 "AN_eas" r = Ok (Some (HNum (4 # 1))).
Proof.
  eexists. eexists. eexists.
  split; [vm_compute; reflexivity|].
  split; [reflexivity|]. split; [reflexivity|]. split; [reflexivity|].
  split; [vm_compute; reflexivity|].
  split; vm_compute; reflexivity.
Qed.

(** C6, amended. Given a table in which the named array of structs is a row
    field and its index dictionary a global, and provided the names
    subfield_key of the (subfield, key) pairs are pairwise distinct,
    [unfurl_array_annotations] returns exactly one flat expression per pair,
    named subfield_key, in the order of the dictionary and of the struct; on
    every row where the recorded index lies within the array the value is
    the element's subfield, and it is missing for every subfield when the
    element itself is absent.  If the array is not a row field, or the
    dictionary not a global, the call raises ValueError. *)
Theorem unfurl_array_annotations_flat_fields
    (ht : ArrayTable) (array idx : string) (fields : list (string * htype))
    (d : dict Z)
    (Harray : dict_get array (row_type ht) = Some (TArray (TStruct fields)))
    (Hdict : dict_get idx (globals ht) = Some (GIndexDict d))
    (Hnames : NoDup (map fst (unfurled_fields array (map fst fields) d))) :
  unfurl_array_annotations ht [(array, idx)]
  = ret (unfurled_fields array (map fst fields) d)
  /\ (forall r xs i f,
        row_field array r = Some (HArray xs) ->
        0 <= i < Z.of_nat (List.length xs) ->
        unfurled array i f r
        = Ok match nth (Z.to_nat i) xs None with
             | Some (HStruct fs) =>
                 match dict_get f fs with Some v => v | None => None end
             | _ => None
             end
        /\ (nth (Z.to_nat i) xs None = None -> unfurled array i f r = Ok None))
  /\ (forall ht' array' idx' rest,
        str_in array' (map fst (row_type ht')) = false ->
        unfurl_array_annotations ht' ((array', idx') :: rest)
        = raise (ValueError ("Annotation '" +:+ array'
                             +:+ "' not found in the Table rows.")))
  /\ (forall ht' array' idx' rest,
        str_in array' (map fst (row_type ht')) = true ->
        str_in idx' (dict_keys (globals ht')) = false ->
        unfurl_array_annotations ht' ((array', idx') :: rest)
        = raise (ValueError ("Annotation '" +:+ idx'
                             +:+ "' not found in the Table globals."))).
Proof.
  split; [|split; [|split]].
  - rewrite (unfurl_array_annotations_run ht array idx fields d Harray Hdict).
    unfold dict_of. rewrite assign_all_distinct; [reflexivity | exact Hnames|].
    intros k _ [].
  - intros r xs i f Hxs Hi.
    assert (E : unfurled array i f r
                = Ok match nth (Z.to_nat i) xs None with
                     | Some (HStruct fs) =>
                         match dict_get f fs with Some v => v | None => None end
                     | _ => None
                     end).
    { unfold unfurled, element_field.
      rewrite (index_array_in_range array r xs i Hxs Hi).
      now destruct (nth (Z.to_nat i) xs None) as [[]|]. }
    split; [exact E|]. intros Hnone. now rewrite E, Hnone.
  - intros ht' array' idx' rest H. unfold unfurl_array_annotations.
    cbn [fold_]. now rewrite H.
  - intros ht' array' idx' rest H1 H2. unfold unfurl_array_annotations.
    cbn [fold_]. now rewrite H1, H2.
Qed.

Lemma unfurl_array_annotations_flat_fields_witness :
  dict_get "freq" (row_type freq_table)
  = Some (TArray (TStruct [("AC", TInt32); ("AF", TFloat64);
                           ("AN_eas", TInt32); ("AN_sas", TInt32)]))
  /\ dict_get "freq_index_dict" (globals freq_table)
     = Some (GIndexDict [("adj", 0); ("raw", 1)])
  /\ unfurl_array_annotations freq_table [("freq", "freq_index_dict")]
     = ret (unfurled_fields "freq" ["AC"; "AF"; "AN_eas"; "AN_sas"]
              [("adj", 0); ("raw", 1)]).
Proof.
  split; [reflexivity|]. split; [reflexivity|].
  refine (proj1 (unfurl_array_annotations_flat_fields freq_table "freq"
                   "freq_index_dict"
                   [("AC", TInt32); ("AF", TFloat64);
                    ("AN_eas", TInt32); ("AN_sas", TInt32)]
                   [("adj", 0); ("raw", 1)] eq_refl eq_refl _)).
  repeat constructor; simpl; intros H;
    repeat (destruct H as [H|H]; [discriminate H|]); exact H.
Defined.

(* ===================================================================== *)
(** * Further properties *)

Lemma assign_all_get_other {V} (kvs : list (string * V)) (d : dict V) (k : string) :
  ~ In k (map fst kvs) -> dict_get k (fold_left assign kvs d) = dict_get k d.
Proof.
  revert d. induction kvs as [|[k' v'] kvs IH]; intros d Hnot; simpl; [reflexivity|].
  rewrite IH by (intros H; apply Hnot; now right).
  unfold assign; cbn [fst snd]. apply dict_get_set_ne.
  intros ->. apply Hnot. now left.
Qed.

Lemma annotate_fields_in (keys fs : list string) (k : string) :
  In k (fold_left (fun fs k => if str_in k fs then fs else fs ++ [k]) keys fs)
  <-> In k fs \/ In k keys.
Proof.
  revert fs. induction keys as [|k' keys IH]; intros fs; simpl.
  - tauto.
  - rewrite IH. destruct (str_in k' fs) eqn:E.
    + apply str_in_In in E. split; [tauto|]. intros [H|[<-|H]]; auto.
    + rewrite in_app_iff. simpl. tauto.
Qed.

Lemma py_sum_fold (es : list NumExpr) (a : NumExpr) (r : NumRow) :
  fold_left hl_add es a r
  = match a r, fold_right (fun e acc => match e r, acc with
                                       | Some x, Some xs => Some (x :: xs)
                                       | _, _ => None
                                       end) (Some []) es with
    | Some x, Some xs => Some (fold_left Qplus xs x)
    | _, _ => None
    end.
Proof.
  revert a. induction es as [|e es IH]; intros a; simpl.
  - now destruct (a r).
  - rewrite IH. unfold hl_add.
    destruct (a r) as [x|], (e r) as [y|];
      destruct (fold_right _ _ es) as [xs|]; reflexivity.
Qed.

Lemma present_values_fold (ht : NumTable) (fields : list string) (r : NumRow) :
  fold_right (fun e acc => match e r, acc with
                           | Some x, Some xs => Some (x :: xs)
                           | _, _ => None
                           end) (Some [])
    (map num_value (filter (fun field => str_in field (num_fields ht)) fields))
  = present_values ht fields r.
Proof.
  induction fields as [|f fields IH]; simpl; [reflexivity|].
  destruct (str_in f (num_fields ht)); simpl; now rewrite IH.
Qed.

Lemma built_all_ok {A B} (f : A -> built B) (g : A -> B) (xs : list A) :
  (forall x, In x xs -> f x = Built (g x)) -> built_all f xs = Built (map g xs).
Proof.
  induction xs as [|x xs IH]; intros H; simpl; [reflexivity|].
  rewrite (H x) by now left. simpl.
  rewrite IH by (intros y Hy; apply H; now right). reflexivity.
Qed.

Lemma dict_of_distinct {V} (kvs : list (string * V)) :
  NoDup (map fst kvs) -> dict_of kvs = kvs.
Proof.
  intros H. unfold dict_of. rewrite assign_all_distinct; auto.
Qed.

Lemma filter_map_length {A B} (h : A -> B) (p : B -> bool) (xs : list A) :
  List.length (filter p (map h xs)) = List.length (filter (fun x => p (h x)) xs).
Proof.
  induction xs as [|x xs IH]; simpl; [reflexivity|].
  destruct (p (h x)); simpl; now rewrite IH.
Qed.

Lemma filter_ext_length {A} (p q : A -> bool) (xs : list A) :
  (forall x, In x xs -> p x = q x) ->
  List.length (filter p xs) = List.length (filter q xs).
Proof.
  intros H. now rewrite (filter_ext_in p q xs H).
Qed.

Lemma NoDup_keys_unique {V} (d : dict V) (k : string) (v v' : V) :
  NoDup (dict_keys d) -> In (k, v) d -> In (k, v') d -> v' = v.
Proof.
  intros Hnd H1 H2.
  pose proof (dict_get_In k v d Hnd H1) as E1.
  pose proof (dict_get_In k v' d Hnd H2) as E2.
  congruence.
Qed.

Lemma summation_of_row (ht : NumTable) (g : ComparisonGroup) (r : NumRow) :
  summation_of ht g r
  = option_map (fun xs => fold_left Qplus xs (0 # 1))
               (present_values ht (values_to_sum g) r).
Proof.
  unfold summation_of, py_sum. rewrite py_sum_fold, present_values_fold.
  now destruct (present_values ht (values_to_sum g) r).
Qed.

Section Summations.
Variables (ht : NumTable) (comparison_groups : dict ComparisonGroup).
Hypothesis Hkeys : NoDup (dict_keys comparison_groups).


Lemma summations_keys : map fst (summations_of ht comparison_groups) = dict_keys comparison_groups.
Proof. unfold summations_of, dict_keys. rewrite map_map. reflexivity. Qed.

Lemma summations_dict :
  dict_of (map (fun g =>
              (fst g,
               py_sum (map num_value
                         (filter (fun field => str_in field (num_fields ht))
                                 (values_to_sum (snd g))))))
           comparison_groups) = (summations_of ht comparison_groups).
Proof.
  apply (dict_of_distinct (summations_of ht comparison_groups)).
  now rewrite summations_keys.
Qed.

Lemma annotated_fields (k : string) :
  In k (num_fields (num_annotate ht (summations_of ht comparison_groups)))
  <-> In k (num_fields ht) \/ In k (dict_keys comparison_groups).
Proof.
  unfold num_annotate; cbn [num_fields]. rewrite annotate_fields_in.
  unfold dict_keys at 1. now rewrite summations_keys.
Qed.

(** the value of a group's field on an annotated row *)
Lemma annotated_group_value (g : string) (i : ComparisonGroup) (r : NumRow) :
  In (g, i) comparison_groups ->
  num_value g (fold_left assign (map (fun kv => (fst kv, snd kv r)) (summations_of ht comparison_groups)) r)
  = summation_of ht i r.
Proof.
  intros Hin. unfold num_value.
  rewrite (assign_all_get _ r g (summation_of ht i r)); [reflexivity| |].
  - unfold summations_of. rewrite map_map. apply in_map_iff.
    exists (g, i). split; [reflexivity | exact Hin].
  - intros v' Hv'. unfold summations_of in Hv'. rewrite map_map in Hv'.
    apply in_map_iff in Hv'. destruct Hv' as [[g' i'] [E Hin']].
    cbn [fst snd] in E. inversion E; subst g'.
    now rewrite (NoDup_keys_unique _ _ _ _ Hkeys Hin Hin').
Qed.

(** a field that is no group's name keeps its value *)
Lemma annotated_other_value (e : string) (r : NumRow) :
  ~ In e (dict_keys comparison_groups) ->
  num_value e (fold_left assign (map (fun kv => (fst kv, snd kv r)) (summations_of ht comparison_groups)) r)
  = num_value e r.
Proof.
  intros Hnot. unfold num_value. rewrite assign_all_get_other; [reflexivity|].
  rewrite map_map.
  rewrite (map_ext _ fst) by reflexivity.
  intros H. apply Hnot. rewrite <- summations_keys. exact H.
Qed.

End Summations.

(** the groups' aggregations on a table that has the expected totals *)
Lemma compute_and_check_summations_built (ht : NumTable)
    (comparison_groups : dict ComparisonGroup) :
  NoDup (dict_keys comparison_groups) ->
  (forall g i, In (g, i) comparison_groups ->
     In (expected_total i) (num_fields ht)
     \/ In (expected_total i) (dict_keys comparison_groups)) ->
  compute_and_check_summations ht comparison_groups
  = Built (map (fun g =>
             (fst g,
              tcount (tfilter
                (num_rows (num_annotate ht
                   (summations_of ht comparison_groups)))
                (num_ne (num_value (fst g))
                        (num_value (expected_total (snd g)))))))
           comparison_groups).
Proof.
  intros Hkeys Htotal. unfold compute_and_check_summations.
  rewrite (summations_dict ht comparison_groups Hkeys).
  set (ht' := num_annotate ht _).
  rewrite (built_all_ok _
             (fun g => (fst g, count_where (num_ne (num_value (fst g))
                                  (num_value (expected_total (snd g))))))).
  - cbn [built_bind]. f_equal.
    rewrite dict_of_distinct by (rewrite map_map; exact Hkeys).
    rewrite aggregate_struct_each, map_map. apply map_ext.
    intros [g i]; cbn [fst snd]. now rewrite count_where_filter.
  - intros [g i] Hin; cbn [fst snd]. unfold num_field.
    assert (Hg : str_in g (num_fields ht') = true).
    { apply str_in_In. apply (annotated_fields ht comparison_groups). right.
      unfold dict_keys. change g with (fst (g, i)). now apply in_map. }
    assert (He : str_in (expected_total i) (num_fields ht') = true).
    { apply str_in_In. apply (annotated_fields ht comparison_groups).
      exact (Htotal g i Hin). }
    now rewrite Hg, He.
Qed.

(** X1. On a table that has the expected totals, none of them named like a
    group, [compute_and_check_summations] returns for each group, in the
    order of the dictionary, the number of rows where every summed field
    the table has and the expected total are defined and the sum differs
    from the total.  Fields to sum that the table does not have are
    left out of the sum. *)
Theorem compute_and_check_summations_counts (ht : NumTable)
    (comparison_groups : dict ComparisonGroup)
    (Hkeys : NoDup (dict_keys comparison_groups))
    (Htotal : forall g i, In (g, i) comparison_groups ->
       In (expected_total i) (num_fields ht)
       /\ ~ In (expected_total i) (dict_keys comparison_groups)) :
  compute_and_check_summations ht comparison_groups
  = Built (map (fun g =>
             (fst g,
              Z.of_nat (List.length
                          (filter (sum_mismatch ht (snd g)) (num_rows ht)))))
           comparison_groups).
Proof.
  rewrite compute_and_check_summations_built;
    [|exact Hkeys | intros g i Hin; left; apply (Htotal g i Hin)].
  f_equal. apply map_ext_in. intros [g i] Hin; cbn [fst snd]. f_equal.
  unfold tcount, tfilter, num_annotate; cbn [num_rows]. f_equal.
  rewrite filter_map_length. apply filter_ext_length.
  intros r _. unfold holds, num_ne.
  rewrite (annotated_group_value ht comparison_groups Hkeys g i r Hin).
  rewrite (annotated_other_value ht comparison_groups (expected_total i) r)
    by apply (Htotal g i Hin).
  rewrite summation_of_row. unfold sum_mismatch.
  destruct (present_values ht (values_to_sum i) r) as [xs|]; cbn [option_map];
    [|reflexivity].
  destruct (num_value (expected_total i) r) as [e|]; [|reflexivity].
  now destruct (negb _).
Qed.

Lemma compute_and_check_summations_counts_witness :
  compute_and_check_summations summations_table summations_groups
  = Built [("AC_group_adj_gen_anc", 1); ("AN_group_adj_gen_anc_sex", 1)].
Proof.
  rewrite (compute_and_check_summations_counts summations_table summations_groups).
  - reflexivity.
  - repeat constructor; simpl; intros H;
      repeat (destruct H as [H|H]; [discriminate H|]); exact H.
  - intros g i Hin. simpl in Hin.
    destruct Hin as [E|[E|[]]]; inversion E; subst; simpl; split;
      try (intros H; repeat (destruct H as [H|H]; [discriminate H|]); exact H);
      auto 10.
Defined.

Lemma built_all_first_error {A B} (f : A -> built B) (bad : A -> bool)
    (e : A -> string) (xs : list A) (x : A) :
  (forall y, In y xs -> bad y = false -> exists b, f y = Built b) ->
  (forall y, In y xs -> bad y = true -> f y = LookupError (e y)) ->
  find bad xs = Some x ->
  built_all f xs = LookupError (e x).
Proof.
  induction xs as [|y xs IH]; intros Hok Hbad Hfind; simpl in *; [discriminate|].
  destruct (bad y) eqn:E.
  - inversion Hfind; subst. rewrite (Hbad x) by auto. reflexivity.
  - destruct (Hok y (or_introl eq_refl) E) as [b ->]. cbn [built_bind].
    rewrite IH; auto.
Qed.

Lemma dict_get_map_kv {V W} (h : string -> V -> W) (k : string) (d : dict V) :
  dict_get k (map (fun kv => (fst kv, h (fst kv) (snd kv))) d)
  = option_map (h k) (dict_get k d).
Proof.
  induction d as [|[k' v] d IH]; simpl; [reflexivity|].
  destruct (String.eqb_spec k' k) as [->|_]; [reflexivity | exact IH].
Qed.

Lemma annotated_fields_all (ht : NumTable) (comparison_groups : dict ComparisonGroup)
    (k : string) :
  str_in k (num_fields (num_annotate ht
     (dict_of (map (fun g =>
              (fst g,
               py_sum (map num_value
                         (filter (fun field => str_in field (num_fields ht))
                                 (values_to_sum (snd g))))))
           comparison_groups))))
  = str_in k (num_fields ht ++ dict_keys comparison_groups).
Proof.
  apply eq_true_iff_eq. rewrite !str_in_In.
  unfold num_annotate; cbn [num_fields]. rewrite annotate_fields_in.
  rewrite dict_of_keys_in, map_map, in_app_iff. reflexivity.
Qed.

(** X2. An expected total that is neither a field of the table nor the name
    of a group stops [compute_and_check_summations] with a LookupError that
    names it (the first such total, in the order of the groups); nothing is
    counted.  A field to sum that the table lacks does not. *)
Theorem compute_and_check_summations_lookup_error (ht : NumTable)
    (comparison_groups : dict ComparisonGroup) (g : string) (i : ComparisonGroup)
    (Hfirst : find (fun g => negb (str_in (expected_total (snd g))
                                     (num_fields ht ++ dict_keys comparison_groups)))
                   comparison_groups = Some (g, i)) :
  compute_and_check_summations ht comparison_groups
  = LookupError (expected_total i).
Proof.
  unfold compute_and_check_summations.
  match goal with
  | |- built_bind (built_all ?f _) _ = _ =>
      rewrite (built_all_first_error f
                 (fun g => negb (str_in (expected_total (snd g))
                                   (num_fields ht ++ dict_keys comparison_groups)))
                 (fun g => expected_total (snd g))
                 comparison_groups (g, i))
  end; [reflexivity| | |exact Hfirst].
  - intros [g' i'] Hin Hok; cbn [fst snd] in *. unfold num_field.
    rewrite !annotated_fields_all.
    apply negb_false_iff in Hok. rewrite Hok.
    assert (Hg : str_in g' (num_fields ht ++ dict_keys comparison_groups) = true).
    { apply str_in_In, in_or_app. right. unfold dict_keys.
      change g' with (fst (g', i')). now apply in_map. }
    rewrite Hg. cbn [built_bind]. eauto.
  - intros [g' i'] Hin Hbad; cbn [fst snd] in *. unfold num_field.
    rewrite !annotated_fields_all.
    apply negb_true_iff in Hbad. rewrite Hbad.
    assert (Hg : str_in g' (num_fields ht ++ dict_keys comparison_groups) = true).
    { apply str_in_In, in_or_app. right. unfold dict_keys.
      change g' with (fst (g', i')). now apply in_map. }
    rewrite Hg. reflexivity.
Qed.

Lemma compute_and_check_summations_lookup_error_witness :
  compute_and_check_summations summations_table
    [("AC_group_adj_gen_anc",
      {| values_to_sum := ["AC_afr_adj"; "AC_amr_adj"];
         expected_total := "AC_adj" |});
     ("AN_group_adj_gen_anc_sex",
      {| values_to_sum := ["AN_afr_XX_adj"];
         expected_total := "AN_total" |})]
  = LookupError "AN_total".
Proof.
  apply (compute_and_check_summations_lookup_error summations_table _
           "AN_group_adj_gen_anc_sex"
           {| values_to_sum := ["AN_afr_XX_adj"]; expected_total := "AN_total" |}).
  reflexivity.
Defined.

Lemma sums_differ_self (ht : NumTable) (i : ComparisonGroup) (rs : list NumRow) :
  filter (sums_differ ht i i) rs = [].
Proof.
  induction rs as [|r rs IH]; simpl; [reflexivity|].
  unfold sums_differ at 1.
  destruct (summation_of ht i r) as [x|]; [|exact IH].
  assert (Hx : Qeq_bool x x = true) by (apply Qeq_bool_iff; reflexivity).
  rewrite Hx. exact IH.
Qed.

(** X3. The expected total is read from the annotated table: when it is the
    name of a group, the sum of that group stands for it, over the field
    the table may have had under that name.  The count of the group is then
    the number of rows where the two sums are defined and differ, and a
    group named like its own expected total counts no row at all. *)
Theorem compute_and_check_summations_total_names_group (ht : NumTable)
    (comparison_groups : dict ComparisonGroup)
    (g : string) (i j : ComparisonGroup)
    (Hkeys : NoDup (dict_keys comparison_groups))
    (Htotal : forall g i, In (g, i) comparison_groups ->
       In (expected_total i) (num_fields ht)
       \/ In (expected_total i) (dict_keys comparison_groups))
    (Hg : In (g, i) comparison_groups)
    (Hj : In (expected_total i, j) comparison_groups) :
  exists counts,
    compute_and_check_summations ht comparison_groups = Built counts
    /\ dict_get g counts
       = Some (Z.of_nat (List.length (filter (sums_differ ht i j) (num_rows ht))))
    /\ (expected_total i = g -> dict_get g counts = Some 0).
Proof.
  rewrite (compute_and_check_summations_built ht comparison_groups Hkeys Htotal).
  eexists. split; [reflexivity|].
  assert (Hcount :
    dict_get g
      (map (fun g0 : string * ComparisonGroup =>
         (fst g0,
          tcount (tfilter
            (num_rows (num_annotate ht (summations_of ht comparison_groups)))
            (num_ne (num_value (fst g0)) (num_value (expected_total (snd g0)))))))
         comparison_groups)
    = Some (Z.of_nat (List.length (filter (sums_differ ht i j) (num_rows ht))))).
  { rewrite (dict_get_map_kv (fun g0 i0 => tcount (tfilter
            (num_rows (num_annotate ht (summations_of ht comparison_groups)))
            (num_ne (num_value g0) (num_value (expected_total i0)))))).
    rewrite (dict_get_In g i comparison_groups Hkeys Hg). cbn [option_map].
    f_equal. unfold tcount, tfilter, num_annotate; cbn [num_rows]. f_equal.
    rewrite filter_map_length. apply filter_ext_length.
    intros r _. unfold holds, num_ne.
    rewrite (annotated_group_value ht comparison_groups Hkeys g i r Hg).
    rewrite (annotated_group_value ht comparison_groups Hkeys _ j r Hj).
    unfold sums_differ.
    destruct (summation_of ht i r), (summation_of ht j r); try reflexivity.
    now destruct (negb _). }
  split; [exact Hcount|].
  intros Hself. rewrite Hcount. f_equal.
  assert (Hij : j = i).
  { rewrite Hself in Hj. exact (NoDup_keys_unique _ _ _ _ Hkeys Hg Hj). }
  subst j.
  now rewrite sums_differ_self.
Qed.

Lemma compute_and_check_summations_total_names_group_witness :
  exists counts,
    compute_and_check_summations summations_table
      [("AC_adj", {| values_to_sum := ["AC_afr_adj"; "AC_amr_adj"];
                     expected_total := "AC_adj" |})]
    = Built counts
    /\ dict_get "AC_adj" counts = Some 0.
Proof.
  destruct (compute_and_check_summations_total_names_group summations_table
              [("AC_adj", {| values_to_sum := ["AC_afr_adj"; "AC_amr_adj"];
                             expected_total := "AC_adj" |})]
              "AC_adj"
              {| values_to_sum := ["AC_afr_adj"; "AC_amr_adj"];
                 expected_total := "AC_adj" |}
              {| values_to_sum := ["AC_afr_adj"; "AC_amr_adj"];
                 expected_total := "AC_adj" |})
    as [counts [Hc [_ H0]]].
  - repeat constructor. simpl. tauto.
  - intros g i [E|[]]. inversion E; subst. simpl. auto 10.
  - simpl. auto.
  - simpl. auto.
  - exists counts. split; [exact Hc | now apply H0].
Defined.

(** the fields of one item that count as missing, and those without
    description *)
Lemma vcf_check_fields_lists (is_matrix_table : bool)
    (header_dict : dict (dict (dict string))) (item : string)
    (annots : list string) :
  snd (vcf_check_fields is_matrix_table header_dict item annots)
  = (filter (fun field =>
       match header_description header_dict item field with
       | Some _ => false
       | None => is_matrix_table && negb (String.eqb field "END")
       end) annots,
     filter (fun field =>
       match header_description header_dict item field with
       | Some description => (List.length description =? 0)%nat
       | None => false
       end) annots).
Proof.
  unfold vcf_check_fields.
  assert (H : forall log mf md,
    snd (fold_left (fun st field =>
      let '(log, (temp_missing_fields, temp_missing_descriptions)) := st in
      match header_description header_dict item field with
      | Some description =>
          if (List.length description =? 0)%nat then
            (log ++ [EmptyDescription field],
             (temp_missing_fields, temp_missing_descriptions ++ [field]))
          else st
      | None =>
          (log ++ [NotInHeader field],
           (if is_matrix_table && negb (String.eqb field "END")
            then temp_missing_fields ++ [field] else temp_missing_fields,
            temp_missing_descriptions))
      end) annots (log, (mf, md)))
    = (mf ++ filter (fun field =>
         match header_description header_dict item field with
         | Some _ => false
         | None => is_matrix_table && negb (String.eqb field "END")
         end) annots,
       md ++ filter (fun field =>
         match header_description header_dict item field with
         | Some description => (List.length description =? 0)%nat
         | None => false
         end) annots)).
  { induction annots as [|f annots IH]; intros log mf md; simpl.
    - now rewrite !app_nil_r.
    - destruct (header_description header_dict item f) as [d|].
      + destruct (List.length d =? 0)%nat; rewrite IH; [|reflexivity].
        now rewrite <- app_assoc.
      + destruct (is_matrix_table && negb (String.eqb f "END"));
          rewrite IH; [|reflexivity].
        now rewrite <- app_assoc. }
  exact (H [] [] []).
Qed.

Lemma filter_nil_iff {A} (p : A -> bool) (xs : list A) :
  filter p xs = [] <-> forall x, In x xs -> p x = false.
Proof.
  induction xs as [|x xs IH]; simpl; [tauto|].
  destruct (p x) eqn:E.
  - split; [discriminate|]. intros H. specialize (H x (or_introl eq_refl)). congruence.
  - rewrite IH. split.
    + intros H y [<-|Hy]; auto.
    + intros H y Hy. apply H. now right.
Qed.

Lemma length_zero_iff {A} (xs : list A) : (List.length xs =? 0)%nat = true <-> xs = [].
Proof. destruct xs; simpl; split; congruence. Qed.

(** the log of one item only grows, and a field that is not in the header
    is warned about *)
Lemma vcf_check_fields_warns (is_matrix_table : bool)
    (header_dict : dict (dict (dict string))) (item : string)
    (annots : list string) (field : string) :
  In field annots ->
  header_description header_dict item field = None ->
  In (NotInHeader field)
     (fst (vcf_check_fields is_matrix_table header_dict item annots)).
Proof.
  unfold vcf_check_fields.
  set (step := fun (st : list vcf_line * (list string * list string)) field => _).
  assert (Hkeep : forall l annots st, In l (fst st) ->
                    In l (fst (fold_left step annots st))).
  { intros l xs. induction xs as [|f xs IH]; intros st Hl; simpl; [exact Hl|].
    apply IH. destruct st as [log [mf md]]. unfold step.
    destruct (header_description header_dict item f) as [d|].
    - destruct (List.length d =? 0)%nat; cbn [fst]; [|exact Hl].
      apply in_or_app. now left.
    - cbn [fst]. apply in_or_app. now left. }
  generalize (@nil vcf_line, (@nil string, @nil string)).
  induction annots as [|f annots IH]; intros st Hin Hnone; [contradiction|].
  simpl. destruct Hin as [->|Hin]; [|now apply IH].
  apply Hkeep. destruct st as [log [mf md]]. unfold step. rewrite Hnone.
  cbn [fst]. apply in_or_app. right. now left.
Qed.

Lemma vcf_check_items_run (is_matrix_table : bool) (rows : list Site)
    (header_dict : dict (dict (dict string)))
    (row_annotations entry_annotations : option (list string))
    (annots_of : string -> list string) (items : list string) :
  (forall item, In item items ->
     vcf_annots rows row_annotations entry_annotations item
     = Some (annots_of item)) ->
  forall log missing_fields missing_descriptions,
    vcf_check_items is_matrix_table rows header_dict row_annotations
      entry_annotations items log missing_fields missing_descriptions
    = (log ++ flat_map (fun item =>
                 fst (vcf_check_fields is_matrix_table header_dict item
                        (annots_of item))) items,
       Ok (missing_fields
             ++ flat_map (fun item =>
                  fst (snd (vcf_check_fields is_matrix_table header_dict item
                              (annots_of item)))) items,
           missing_descriptions
             ++ flat_map (fun item =>
                  snd (snd (vcf_check_fields is_matrix_table header_dict item
                              (annots_of item)))) items)).
Proof.
  induction items as [|item items IH]; intros Hannots log mf md; simpl.
  - now rewrite !app_nil_r.
  - rewrite (Hannots item) by now left.
    destruct (vcf_check_fields is_matrix_table header_dict item (annots_of item))
      as [lines [tmf tmd]] eqn:E.
    rewrite IH by (intros i Hi; apply Hannots; now right).
    cbn [fst snd]. now rewrite <- !app_assoc.
Qed.

Lemma vcf_annots_given (rows : list Site) (row_annotations : list string)
    (entry_annotations : option (list string)) (item : string) :
  In item (vcf_items entry_annotations) ->
  vcf_annots rows (Some row_annotations) entry_annotations item
  = Some (vcf_annots_of rows row_annotations entry_annotations item).
Proof.
  unfold vcf_items, vcf_annots, vcf_annots_of.
  destruct entry_annotations as [[|f fs]|]; simpl;
    intros H; repeat (destruct H as [<-|H]; [reflexivity|]); contradiction.
Qed.

Lemma vcf_checked_items (rows : list Site) (row_annotations : list string)
    (entry_annotations : option (list string)) :
  vcf_checked rows row_annotations entry_annotations
  = flat_map (fun item =>
      map (pair item) (vcf_annots_of rows row_annotations entry_annotations item))
      (vcf_items entry_annotations).
Proof.
  unfold vcf_checked, vcf_items, vcf_annots_of.
  destruct entry_annotations as [[|f fs]|]; simpl; now rewrite ?app_nil_r.
Qed.

(** the run of [vcf_field_check] when the row annotations are given *)
Lemma vcf_field_check_run (is_matrix_table : bool) (rows : list Site)
    (header_dict : dict (dict (dict string)))
    (row_annotations : list string) (entry_annotations : option (list string))
    (hists : list string) :
  let per (proj : list vcf_line * (list string * list string) -> list string) :=
    flat_map (fun item =>
      proj (vcf_check_fields is_matrix_table header_dict item
              (vcf_annots_of rows row_annotations entry_annotations item)))
      (vcf_items entry_annotations) in
  let log :=
    flat_map (fun item =>
      fst (vcf_check_fields is_matrix_table header_dict item
             (vcf_annots_of rows row_annotations entry_annotations item)))
      (vcf_items entry_annotations) in
  vcf_field_check is_matrix_table rows header_dict (Some row_annotations)
    entry_annotations hists
  = match per (fun x => fst (snd x)), per (fun x => snd (snd x)) with
    | [], [] => (log ++ [PassedVcfFields], Ok true)
    | mf, md =>
        (log ++ [Reconcile; MissingFields mf; MissingDescriptions md], Ok false)
    end.
Proof.
  cbv zeta. unfold vcf_field_check. fold (vcf_items entry_annotations).
  rewrite (vcf_check_items_run is_matrix_table rows header_dict
             (Some row_annotations) entry_annotations
             (vcf_annots_of rows row_annotations entry_annotations))
    by (intros item Hin; now apply vcf_annots_given).
  cbn [app].
  destruct (flat_map (fun item => fst (snd _)) (vcf_items entry_annotations));
    destruct (flat_map (fun item => snd (snd _)) (vcf_items entry_annotations));
    reflexivity.
Qed.

Lemma flat_map_nil_iff {A B} (f : A -> list B) (xs : list A) :
  flat_map f xs = [] <-> forall x, In x xs -> f x = [].
Proof.
  induction xs as [|x xs IH]; simpl; [tauto|]. split.
  - intros H. apply app_eq_nil in H. destruct H as [H1 H2].
    intros y [<-|Hy]; [exact H1|]. now apply IH.
  - intros H. rewrite (H x) by now left. apply IH. intros y Hy. apply H. now right.
Qed.

(** no field counts as missing or as without description exactly when no
    field looked up fails *)
Lemma vcf_missing_none_iff (is_matrix_table : bool) (rows : list Site)
    (header_dict : dict (dict (dict string)))
    (row_annotations : list string) (entry_annotations : option (list string)) :
  let items := vcf_items entry_annotations in
  let annots := vcf_annots_of rows row_annotations entry_annotations in
  (flat_map (fun item => fst (snd (vcf_check_fields is_matrix_table header_dict
                                     item (annots item)))) items = []
     /\ flat_map (fun item => snd (snd (vcf_check_fields is_matrix_table header_dict
                                          item (annots item)))) items = [])
    <-> forall item_field,
          In item_field (vcf_checked rows row_annotations entry_annotations) ->
          vcf_fails is_matrix_table header_dict item_field = false.
Proof.
  intros items annots.
  rewrite vcf_checked_items. fold items annots.
  rewrite !flat_map_nil_iff. split.
  - intros [Hmf Hmd] [item field] Hin. apply in_flat_map in Hin.
    destruct Hin as [item' [Hitem Hin]]. apply in_map_iff in Hin.
    destruct Hin as [f [E Hf]]. inversion E; subst item' f.
    specialize (Hmf item Hitem). specialize (Hmd item Hitem).
    rewrite vcf_check_fields_lists in Hmf, Hmd. cbn [fst snd] in Hmf, Hmd.
    rewrite filter_nil_iff in Hmf, Hmd.
    specialize (Hmf field Hf). specialize (Hmd field Hf).
    unfold vcf_fails; cbn [fst snd].
    destruct (header_description header_dict item field); assumption.
  - intros H. split; intros item Hitem; rewrite vcf_check_fields_lists;
      cbn [fst snd]; apply filter_nil_iff; intros field Hf;
      assert (Hin : In (item, field)
                (flat_map (fun item => map (pair item) (annots item)) items))
        by (apply in_flat_map; exists item; split; [exact Hitem|];
            now apply in_map);
      specialize (H (item, field) Hin); unfold vcf_fails in H;
      cbn [fst snd] in H;
      destruct (header_description header_dict item field); auto.
Qed.

Lemma exists_or_all {A} (p : A -> bool) (xs : list A) :
  (exists x, In x xs /\ p x = true) \/ (forall x, In x xs -> p x = false).
Proof.
  induction xs as [|x xs IH].
  - right. intros x [].
  - destruct (p x) eqn:Ex.
    + left. exists x. split; [now left | exact Ex].
    + destruct IH as [[y [Hy Hf]]|IH].
      * left. exists y. split; [now right | exact Hf].
      * right. intros y [<-|Hy]; [exact Ex | now apply IH].
Qed.

(** X4. Given the row annotations, [vcf_field_check] returns, and returns
    False exactly when one of the fields it looks up (the row annotations
    under "info", the filters found in the rows under "filter", the entry
    annotations under "format" when there are any) is in the header with
    an empty description or, on a MatrixTable, is not in the header and is
    not named END.  Left at its default None, [row_annotations] stops the
    check with a TypeError before a line is logged. *)
Theorem vcf_field_check_fails_iff (is_matrix_table : bool) (rows : list Site)
    (header_dict : dict (dict (dict string)))
    (row_annotations : list string) (entry_annotations : option (list string))
    (hists : list string) :
  (exists b,
     snd (vcf_field_check is_matrix_table rows header_dict
            (Some row_annotations) entry_annotations hists) = Ok b
     /\ (b = false <->
         exists item_field,
           In item_field (vcf_checked rows row_annotations entry_annotations)
           /\ vcf_fails is_matrix_table header_dict item_field = true))
  /\ vcf_field_check is_matrix_table rows header_dict None entry_annotations hists
     = ([], Raise TypeError).
Proof.
  split; [|reflexivity].
  rewrite vcf_field_check_run. cbv zeta.
  set (items := vcf_items entry_annotations).
  set (annots := vcf_annots_of rows row_annotations entry_annotations).
  pose proof (vcf_missing_none_iff is_matrix_table rows header_dict
                row_annotations entry_annotations) as Hnone.
  cbv zeta in Hnone. fold items annots in Hnone.
  pose proof (exists_or_all (vcf_fails is_matrix_table header_dict)
                (vcf_checked rows row_annotations entry_annotations)) as Hdec.
  destruct (flat_map (fun item => fst (snd _)) items) as [|f mf] eqn:Emf;
    destruct (flat_map (fun item => snd (snd _)) items) as [|d md] eqn:Emd;
    cbn [snd].
  1: exists true. 2-4: exists false.
  all: split; [reflexivity|].
  - split; [discriminate|]. intros [x [Hin Hx]].
    destruct Hnone as [Hnone _]. rewrite (Hnone (conj eq_refl eq_refl) x Hin) in Hx.
    discriminate.
  - split; [intros _ | reflexivity].
    destruct Hdec as [Hex|Hall]; [exact Hex|].
    apply Hnone in Hall. destruct Hall as [_ Habs]. discriminate.
  - split; [intros _ | reflexivity].
    destruct Hdec as [Hex|Hall]; [exact Hex|].
    apply Hnone in Hall. destruct Hall as [Habs _]. discriminate.
  - split; [intros _ | reflexivity].
    destruct Hdec as [Hex|Hall]; [exact Hex|].
    apply Hnone in Hall. destruct Hall as [Habs _]. discriminate.
Qed.

(** X5. On a Table a field that is not in the header is warned about and
    nothing more: when no field looked up has an empty description in the
    header, [vcf_field_check] passes and returns True, whatever the header
    lacks; each field it lacks has its warning in the log. *)
Theorem vcf_field_check_table_passes_absent_fields (rows : list Site)
    (header_dict : dict (dict (dict string)))
    (row_annotations : list string) (entry_annotations : option (list string))
    (hists : list string)
    (Hdescribed : forall item field description,
       In (item, field) (vcf_checked rows row_annotations entry_annotations) ->
       header_description header_dict item field = Some description ->
       description <> []) :
  snd (vcf_field_check false rows header_dict (Some row_annotations)
         entry_annotations hists) = Ok true
  /\ In PassedVcfFields
        (fst (vcf_field_check false rows header_dict (Some row_annotations)
                entry_annotations hists))
  /\ forall item field,
       In (item, field) (vcf_checked rows row_annotations entry_annotations) ->
       header_description header_dict item field = None ->
       In (NotInHeader field)
          (fst (vcf_field_check false rows header_dict (Some row_annotations)
                  entry_annotations hists)).
Proof.
  rewrite vcf_field_check_run. cbv zeta.
  destruct (proj2 (vcf_missing_none_iff false rows header_dict row_annotations
                     entry_annotations)) as [Hmf Hmd].
  { intros [item field] Hin. unfold vcf_fails; cbn [fst snd].
    destruct (header_description header_dict item field) as [d|] eqn:E;
      [|reflexivity].
    pose proof (Hdescribed item field d Hin E) as Hne.
    destruct d; [contradiction | reflexivity]. }
  rewrite Hmf, Hmd. cbn [fst snd].
  split; [reflexivity|]. split.
  - apply in_or_app. right. now left.
  - intros item field Hin Hnone. apply in_or_app. left.
    rewrite vcf_checked_items in Hin. apply in_flat_map in Hin.
    destruct Hin as [item' [Hitem Hin]]. apply in_map_iff in Hin.
    destruct Hin as [f [E Hf]]. inversion E; subst item' f.
    apply in_flat_map. exists item. split; [exact Hitem|].
    now apply vcf_check_fields_warns.
Qed.

Lemma vcf_field_check_table_passes_absent_fields_witness :
  snd (vcf_field_check false [filtered_site ["AC0"]] ac_header
         (Some ["AC"; "AN"]) None []) = Ok true
  /\ In (NotInHeader "AN")
        (fst (vcf_field_check false [filtered_site ["AC0"]] ac_header
                (Some ["AC"; "AN"]) None []))
  /\ In (NotInHeader "AC0")
        (fst (vcf_field_check false [filtered_site ["AC0"]] ac_header
                (Some ["AC"; "AN"]) None []))
  /\ snd (vcf_field_check true [filtered_site ["AC0"]] ac_header
            (Some ["AC"; "AN"]) None []) = Ok false.
Proof.
  destruct (vcf_field_check_table_passes_absent_fields
              [filtered_site ["AC0"]] ac_header ["AC"; "AN"] None [])
    as [Hok [_ Hwarn]].
  - intros item field d Hin Hd. simpl in Hin.
    destruct Hin as [E|[E|[E|[]]]]; inversion E; subst; simpl in Hd;
      try discriminate Hd.
    inversion Hd. discriminate.
  - split; [exact Hok|]. split; [|split].
    + apply (Hwarn "info" "AN"); [simpl; auto | reflexivity].
    + apply (Hwarn "filter" "AC0"); [simpl; auto | reflexivity].
    + reflexivity.
Defined.

Lemma built_fold_ok {A S} (f : S -> A -> built S) (g : S -> A -> S)
    (xs : list A) (acc : S) :
  (forall s x, In x xs -> f s x = Built (g s x)) ->
  built_fold f xs acc = Built (fold_left g xs acc).
Proof.
  revert acc. induction xs as [|x xs IH]; intros acc H; simpl; [reflexivity|].
  rewrite (H acc x) by now left. cbn [built_bind].
  apply IH. intros s y Hy. apply H. now right.
Qed.

Lemma fold_left_assign_app {V} (kvs1 kvs2 : list (string * V)) (d : dict V) :
  fold_left assign kvs2 (fold_left assign kvs1 d) = fold_left assign (kvs1 ++ kvs2) d.
Proof. now rewrite fold_left_app. Qed.

(** the number of failed checks is the number of metrics that fail *)
Lemma count_failures (failed : Z -> bool) (output : list (string * Z)) (n : Z) :
  fold_left (fun n_fail (item : string * Z) =>
               if failed (snd item) then n_fail + 1 else n_fail) output n
  = n + Z.of_nat (List.length (filter (fun item => failed (snd item)) output)).
Proof.
  revert n. induction output as [|[k c] output IH]; intros n; simpl; [lia|].
  rewrite IH. destruct (failed c); simpl List.length; lia.
Qed.

Lemma dict_get_key_in {V} (k : string) (d : dict V) :
  In k (dict_keys d) -> exists v, dict_get k d = Some v.
Proof.
  induction d as [|[k' v'] d IH]; simpl; [contradiction|].
  intros H. destruct (String.eqb_spec k' k) as [->|Hne]; [eauto|].
  destruct H as [H|H]; [contradiction | auto].
Qed.

(** a name of the table is found by [t[x]] *)
Lemma table_fields_found (t : AnnotatedTable) (x : string) :
  In x (table_fields t) -> exists p, row_field_missing t x = Built p.
Proof.
  unfold table_fields, row_field_missing. intros H.
  destruct (String.eqb_spec x "locus") as [->|H1]; [eauto|].
  destruct (String.eqb_spec x "filters") as [->|H2]; [eauto|].
  destruct (String.eqb_spec x "info") as [->|H3]; [eauto|].
  destruct (str_in x (other_row_fields t)) eqn:E; [eauto|].
  cbn [app] in H.
  destruct H as [H|[H|[H|H]]]; try (symmetry in H; contradiction).
  apply in_app_iff in H. destruct H as [H|H].
  - apply str_in_In in H. congruence.
  - apply dict_get_key_in in H. destruct H as [v ->]. eauto.
Qed.

Lemma row_field_missing_count_eq (t : AnnotatedTable) (x : string)
    (p : BooleanExpression AnnotatedSite) :
  row_field_missing t x = Built p ->
  tcount (tfilter (annotated_rows t) p) = row_field_missing_count t x.
Proof.
  unfold row_field_missing, row_field_missing_count, annotation_missing,
    tcount, tfilter.
  intros E. do 2 f_equal. apply filter_ext. intros r. unfold holds.
  destruct (String.eqb x "locus"); [inversion E; reflexivity|].
  destruct (String.eqb x "filters").
  { inversion E. now destruct (filters (site_fields r)). }
  destruct (String.eqb x "info"); [inversion E; reflexivity|].
  destruct (str_in x (other_row_fields t)).
  { inversion E. now destruct (dict_get x (other_missing r)) as [[|]|]. }
  destruct (dict_get x (global_missing t)) as [[|]|]; inversion E; reflexivity.
Qed.

Lemma info_missing_count_eq (t : AnnotatedTable) (x : string) :
  tcount (tfilter (annotated_rows t)
            (fun r => hl_is_missing (info_value x) (site_fields r)))
  = info_missing_count t x.
Proof.
  unfold info_missing_count, tcount, tfilter. do 2 f_equal.
  apply filter_ext. intros r. unfold holds, hl_is_missing, info_value.
  now destruct (dict_get x (info (site_fields r))) as [[v|]|].
Qed.

(** the aggregation [compute_missingness] asks for, metric by metric *)
Lemma compute_missingness_output (t : AnnotatedTable)
    (info_metrics non_info_metrics : list string) :
  (forall x, In x info_metrics -> In x (annotated_info_fields t)) ->
  (forall x, In x non_info_metrics -> In x (table_fields t)) ->
  NoDup (info_metrics ++ non_info_metrics) ->
  exists metrics_missing,
    fold_ info_metrics (fun metrics_missing x =>
      p <- lift (info_metric_missing t x) ;;
      ret (dict_set x (count_where p) metrics_missing)) []
    = ret (fold_left assign
             (map (fun x =>
                     (x, count_where
                           (fun r => hl_is_missing (info_value x)
                                       (site_fields r))))
                  info_metrics) [])
    /\ built_fold (fun metrics_missing x =>
          built_bind (row_field_missing t x) (fun p =>
          Built (dict_set x (count_where p) metrics_missing)))
          non_info_metrics
          (fold_left assign
             (map (fun x =>
                     (x, count_where
                           (fun r => hl_is_missing (info_value x)
                                       (site_fields r))))
                  info_metrics) [])
       = Built metrics_missing
    /\ aggregate_struct (annotated_rows t) metrics_missing
       = missing_counts t info_metrics non_info_metrics.
Proof.
  intros Hinfo Hrow Hnd.
  set (info_pred := fun x (r : AnnotatedSite) =>
                      hl_is_missing (info_value x) (site_fields r)).
  set (pred := fun x => match row_field_missing t x with
                        | Built p => p
                        | LookupError _ => fun _ => None
                        end).
  exists (map (fun x => (x, count_where (info_pred x))) info_metrics
          ++ map (fun x => (x, count_where (pred x))) non_info_metrics).
  split; [|split].
  - rewrite <- (fold_left_map assign (fun x => (x, count_where (info_pred x)))).
    apply fold_quiet. intros s x Hx. unfold info_metric_missing.
    rewrite (proj2 (str_in_In x _) (Hinfo x Hx)).
    now rewrite bind_lift_ok.
  - rewrite (built_fold_ok _
               (fun s x => assign s (x, count_where (pred x)))).
    + rewrite (fold_left_map assign (fun x => (x, count_where (pred x)))).
      rewrite fold_left_assign_app.
      rewrite assign_all_distinct; [reflexivity| |intros k _ []].
      rewrite map_app, !map_map. cbn [fst]. now rewrite !map_id.
    + intros s x Hx. unfold pred.
      destruct (table_fields_found t x (Hrow x Hx)) as [p ->]. reflexivity.
  - rewrite aggregate_struct_each, map_app, !map_map. unfold missing_counts.
    f_equal; apply map_ext_in; intros x Hx; cbn [fst snd]; f_equal;
      rewrite count_where_filter.
    + apply info_missing_count_eq.
    + apply row_field_missing_count_eq. unfold pred.
      destruct (table_fields_found t x (Hrow x Hx)) as [p ->]. reflexivity.
Qed.

(** the counts are counts of rows *)
Lemma missing_counts_bounded (t : AnnotatedTable)
    (info_metrics non_info_metrics : list string) (item : string * Z) :
  In item (missing_counts t info_metrics non_info_metrics) ->
  0 <= snd item <= Z.of_nat (List.length (annotated_rows t)).
Proof.
  unfold missing_counts, info_missing_count, row_field_missing_count.
  intros H. apply in_app_iff in H.
  destruct H as [H|H]; apply in_map_iff in H; destruct H as [x [<- _]];
    cbn [snd];
    match goal with
    | |- context [filter ?p ?l] => pose proof (filter_length_le p l)
    end; lia.
Qed.

(** X6. On a table of fewer than 2^63 rows that has the metrics, each named
    once, and with a number of sites that is not 0, [compute_missingness]
    logs the threshold, asks for one aggregation and logs one line per
    metric, the info metrics first.  The line of a metric carries the
    number of rows where the metric is missing and 100 times that number
    over [n_sites], as a float; it says FAILED exactly when the float that
    the number over [n_sites] rounds to is greater than the threshold, and
    Passed otherwise.  The last line carries the number of metrics that
    failed. *)
Theorem compute_missingness_report (t : AnnotatedTable)
    (info_metrics non_info_metrics : list string) (n_sites : Z)
    (missingness_threshold : float)
    (Hinfo : forall x, In x info_metrics -> In x (annotated_info_fields t))
    (Hrow : forall x, In x non_info_metrics -> In x (table_fields t))
    (Hnames : NoDup (info_metrics ++ non_info_metrics))
    (Hsites : n_sites <> 0)
    (Hsize : Z.of_nat (List.length (annotated_rows t)) < 2 ^ 63) :
  let counts := missing_counts t info_metrics non_info_metrics in
  let operand := fun z : Z => match z with
                              | Z0 => S754_zero false
                              | Zpos p => S754_finite false p 0
                              | Zneg p => S754_finite true p 0
                              end in
  let over_sites := fun n : Z => SFdiv 53 1024 (operand n) (operand n_sites) in
  let failed := fun n : Z => SFltb missingness_threshold (over_sites n) in
  compute_missingness t info_metrics non_info_metrics n_sites
    missingness_threshold
  = (Info ("Missingness threshold (upper cutoff for what is allowed for "
           +:+ "missingness checks): %.2f") [AFloat missingness_threshold]
       :: EngineAggregate
       :: map (fun item =>
                 Info (if failed (snd item)
                       then "FAILED missingness check for %s: %d sites or %.2f%% missing"
                       else "Passed missingness check for %s: %d sites or %.2f%% missing")
                      [AStr (fst item); AInt (snd item);
                       AFloat (over_sites (100 * snd item))]) counts
       ++ [Info "%d missing metrics checks failed"
             [AInt (Z.of_nat (List.length
                (filter (fun item => failed (snd item)) counts)))]],
     Ok (Built tt)).
Proof.
  intros counts operand over_sites failed. unfold compute_missingness.
  destruct (compute_missingness_output t info_metrics non_info_metrics
              Hinfo Hrow Hnames) as [metrics_missing [Hloop [Hbuilt Hout]]].
  rewrite Hloop, bind_emit, bind_ret_l, Hbuilt, bind_emit. cbv zeta.
  rewrite Hout. fold counts.
  rewrite (fold_ok counts _
             (fun item =>
                [Info (if failed (snd item)
                       then "FAILED missingness check for %s: %d sites or %.2f%% missing"
                       else "Passed missingness check for %s: %d sites or %.2f%% missing")
                      [AStr (fst item); AInt (snd item);
                       AFloat (over_sites (100 * snd item))]])
             (fun n_fail item =>
                if failed (snd item) then n_fail + 1 else n_fail)).
  - rewrite bind_ok, bind_emit. cbn [events outcome fst snd ret].
    rewrite count_failures. cbn [Z.add]. f_equal.
  - intros s [metric n_missing] Hitem. cbn [fst snd].
    pose proof (missing_counts_bounded t info_metrics non_info_metrics _ Hitem)
      as Hn. cbn [snd] in Hn.
    rewrite (int_truediv_bounded n_missing n_sites Hsites) by lia.
    rewrite (int_truediv_bounded (100 * n_missing) n_sites Hsites) by lia.
    rewrite !bind_lift_ok. unfold float_gt.
    change (SFdiv 53 1024 (exact_int n_missing) (exact_int n_sites))
      with (over_sites n_missing).
    change (SFdiv 53 1024 (exact_int (100 * n_missing)) (exact_int n_sites))
      with (over_sites (100 * n_missing)).
    fold (failed n_missing).
    destruct (failed n_missing); rewrite bind_emit; reflexivity.
Qed.

Lemma compute_missingness_report_witness :
  Z.of_nat (List.length (annotated_rows missingness_table)) < 2 ^ 63
  /\ compute_missingness missingness_table ["AC"; "AN"]
       ["locus"; "alleles"; "filters"; "freq_meta"] 10 float_0_3
     = ([Info ("Missingness threshold (upper cutoff for what is allowed for "
               +:+ "missingness checks): %.2f") [AFloat float_0_3];
         EngineAggregate;
         Info "Passed missingness check for %s: %d sites or %.2f%% missing"
           [AStr "AC"; AInt 3;
            AFloat (S754_finite false 8444249301319680 (-48))];
         Info "FAILED missingness check for %s: %d sites or %.2f%% missing"
           [AStr "AN"; AInt 4;
            AFloat (S754_finite false 5629499534213120 (-47))];
         Info "Passed missingness check for %s: %d sites or %.2f%% missing"
           [AStr "locus"; AInt 0; AFloat (S754_zero false)];
         Info "FAILED missingness check for %s: %d sites or %.2f%% missing"
           [AStr "alleles"; AInt 6;
            AFloat (S754_finite false 8444249301319680 (-47))];
         Info "Passed missingness check for %s: %d sites or %.2f%% missing"
           [AStr "filters"; AInt 0; AFloat (S754_zero false)];
         Info "Passed missingness check for %s: %d sites or %.2f%% missing"
           [AStr "freq_meta"; AInt 0; AFloat (S754_zero false)];
         Info "%d missing metrics checks failed" [AInt 2]],
        Ok (Built tt))
  /\ float_value float_0_3 = Some (5404319552844595 # 18014398509481984)
  /\ (5404319552844595 # 18014398509481984 < 3 # 10)%Q
  /\ float_value (S754_finite false 8444249301319680 (-48))
     = Some (8444249301319680 # 281474976710656)
  /\ (8444249301319680 # 281474976710656 == 30)%Q.
Proof.
  assert (Hsize : Z.of_nat (List.length (annotated_rows missingness_table))
                  < 2 ^ 63) by reflexivity.
  split; [exact Hsize|]. split; [|repeat split].
  rewrite (compute_missingness_report missingness_table ["AC"; "AN"]
             ["locus"; "alleles"; "filters"; "freq_meta"] 10 float_0_3).
  - reflexivity.
  - simpl. tauto.
  - simpl. tauto.
  - repeat constructor; simpl; intros H;
      repeat (destruct H as [H|H]; [discriminate H|]); exact H.
  - discriminate.
  - exact Hsize.
Defined.

(** X7. With 0 for the number of sites, which is what [validate_release_t]
    hands over for a table without rows, [compute_missingness] stops with
    a ZeroDivisionError at the first metric: the threshold is logged, the
    aggregation is asked for, and no metric is reported.  Without any metric
    it returns, with 0 failed checks. *)
Theorem compute_missingness_no_sites (t : AnnotatedTable)
    (info_metrics non_info_metrics : list string)
    (missingness_threshold : float)
    (Hinfo : forall x, In x info_metrics -> In x (annotated_info_fields t))
    (Hrow : forall x, In x non_info_metrics -> In x (table_fields t))
    (Hnames : NoDup (info_metrics ++ non_info_metrics)) :
  compute_missingness t info_metrics non_info_metrics 0 missingness_threshold
  = (Info ("Missingness threshold (upper cutoff for what is allowed for "
           +:+ "missingness checks): %.2f") [AFloat missingness_threshold]
       :: EngineAggregate
       :: match info_metrics ++ non_info_metrics with
          | [] => [Info "%d missing metrics checks failed" [AInt 0]]
          | _ :: _ => []
          end,
     match info_metrics ++ non_info_metrics with
     | [] => Ok (Built tt)
     | _ :: _ => Raise ZeroDivisionError
     end).
Proof.
  unfold compute_missingness.
  destruct (compute_missingness_output t info_metrics non_info_metrics
              Hinfo Hrow Hnames) as [metrics_missing [Hloop [Hbuilt Hout]]].
  rewrite Hloop, bind_emit, bind_ret_l, Hbuilt, bind_emit. cbv zeta.
  rewrite Hout. unfold missing_counts.
  destruct info_metrics as [|x xs]; [destruct non_info_metrics as [|y ys]|];
    reflexivity.
Qed.

Lemma compute_missingness_no_sites_witness :
  compute_missingness
    {| annotated_info_fields := ["AC"]; other_row_fields := ["alleles"];
       global_missing := []; annotated_rows := [] |}
    ["AC"] ["locus"; "alleles"; "filters"] 0 float_0_5
  = ([Info ("Missingness threshold (upper cutoff for what is allowed for "
            +:+ "missingness checks): %.2f") [AFloat float_0_5];
      EngineAggregate],
     Raise ZeroDivisionError).
Proof.
  rewrite (compute_missingness_no_sites
             {| annotated_info_fields := ["AC"]; other_row_fields := ["alleles"];
                global_missing := []; annotated_rows := [] |}
             ["AC"] ["locus"; "alleles"; "filters"] float_0_5).
  - reflexivity.
  - simpl. tauto.
  - simpl. tauto.
  - repeat constructor; simpl; intros H;
      repeat (destruct H as [H|H]; [discriminate H|]); exact H.
Defined.

(** assignments leave the first key of a dictionary in place *)
Lemma assign_all_head {V} (kvs : list (string * V)) (k : string) (v : V)
    (d : dict V) :
  exists v' d', fold_left assign kvs ((k, v) :: d) = (k, v') :: d'.
Proof.
  revert v d. induction kvs as [|[k1 v1] kvs IH]; intros v d; simpl; [eauto|].
  unfold assign at 2; cbn [fst snd dict_set].
  destruct (String.eqb k k1); apply IH.
Qed.

Lemma dict_of_head {V} (k : string) (v : V) (kvs : list (string * V)) :
  exists keys, dict_keys (dict_of ((k, v) :: kvs)) = k :: keys.
Proof.
  unfold dict_of. cbn [fold_left]. unfold assign at 2; cbn [fst snd dict_set].
  destruct (assign_all_head kvs k v []) as [v' [d' E]].
  rewrite E. now exists (dict_keys d').
Qed.

Lemma unfurled_first_key (array : string) (f : string) (fs : list string)
    (k : string) (i : Z) (d : dict Z) :
  exists keys,
    dict_keys (dict_of (unfurled_fields array (f :: fs) ((k, i) :: d)))
    = (f +:+ "_" +:+ k) :: keys.
Proof.
  assert (E : exists rest,
             unfurled_fields array (f :: fs) ((k, i) :: d)
             = (f +:+ "_" +:+ k, unfurled array i f) :: rest)
    by (eexists; reflexivity).
  destruct E as [rest ->]. apply dict_of_head.
Qed.

(** X8. [check_array_struct_missingness] reads the flat fields from the
    table, not from the expressions it has just unfurled: handed a table
    that holds the array and its index dictionary and not yet the flat
    fields, it stops with a LookupError at the first flat name,
    subfield_key for the first subfield and the first key. *)
Theorem check_array_struct_missingness_lookup_error
    (ht : ArrayTable) (array idx : string) (f : string) (ty : htype)
    (fields : list (string * htype)) (k : string) (i : Z) (d : dict Z)
    (Harray : dict_get array (row_type ht)
              = Some (TArray (TStruct ((f, ty) :: fields))))
    (Hdict : dict_get idx (globals ht) = Some (GIndexDict ((k, i) :: d)))
    (Hrow : ~ In (f +:+ "_" +:+ k) (map fst (row_type ht)))
    (Hglobal : ~ In (f +:+ "_" +:+ k) (dict_keys (globals ht))) :
  check_array_struct_missingness ht [(array, idx)]
  = ([], Ok (LookupError (f +:+ "_" +:+ k))).
Proof.
  unfold check_array_struct_missingness.
  rewrite (unfurl_array_annotations_run ht array idx _ _ Harray Hdict).
  rewrite bind_ret_l. cbn [map fst].
  destruct (unfurled_first_key array f (map fst fields) k i d) as [keys ->].
  cbn [built_all]. unfold table_field_missing at 1.
  destruct (str_in (f +:+ "_" +:+ k) (map fst (row_type ht))) eqn:E1;
    [apply str_in_In in E1; contradiction|].
  destruct (str_in (f +:+ "_" +:+ k) (dict_keys (globals ht))) eqn:E2;
    [apply str_in_In in E2; contradiction|].
  reflexivity.
Qed.

Lemma check_array_struct_missingness_lookup_error_witness :
  check_array_struct_missingness freq_table [("freq", "freq_index_dict")]
  = ([], Ok (LookupError "AC_adj")).
Proof.
  apply (check_array_struct_missingness_lookup_error freq_table
           "freq" "freq_index_dict" "AC" TInt32
           [("AF", TFloat64); ("AN_eas", TInt32); ("AN_sas", TInt32)]
           "adj" 0 [("raw", 1)]).
  - reflexivity.
  - reflexivity.
  - simpl. intros [H|[H|[]]]; discriminate H.
  - simpl. intros [H|[]]; discriminate H.
Defined.

(** X9. When the flat names are row fields of the table,
    [check_array_struct_missingness] returns, for each flat name once, the
    fraction of the rows where the row field of that name is missing,
    whatever the array holds. *)
Theorem check_array_struct_missingness_fractions
    (ht : ArrayTable) (array idx : string)
    (fields : list (string * htype)) (d : dict Z)
    (Harray : dict_get array (row_type ht) = Some (TArray (TStruct fields)))
    (Hdict : dict_get idx (globals ht) = Some (GIndexDict d))
    (Hflat : forall name,
       In name (map fst (unfurled_fields array (map fst fields) d)) ->
       In name (map fst (row_type ht))) :
  check_array_struct_missingness ht [(array, idx)]
  = ([EngineAggregate],
     Ok (Built (map (fun name =>
                  (name, fraction (array_rows ht)
                           (fun r => is_missing (row_field name r))))
               (dict_keys (dict_of (unfurled_fields array (map fst fields) d)))))).
Proof.
  unfold check_array_struct_missingness.
  rewrite (unfurl_array_annotations_run ht array idx _ _ Harray Hdict).
  rewrite bind_ret_l.
  rewrite (built_all_ok _
             (fun name => (name, fun r => is_missing (row_field name r)))).
  - rewrite bind_emit, map_map. reflexivity.
  - intros name Hin. unfold table_field_missing.
    apply (proj1 (dict_of_keys_in _ _)) in Hin. apply Hflat in Hin.
    apply str_in_In in Hin. now rewrite Hin.
Qed.

Lemma check_array_struct_missingness_fractions_witness :
  check_array_struct_missingness annotated_freq_table
    [("freq", "freq_index_dict")]
  = ([EngineAggregate],
     Ok (Built [("AC_adj", Some (0 # 1)); ("AF_adj", Some (0 # 1));
                ("AN_eas_adj", Some (1 # 2)); ("AN_sas_adj", Some (0 # 1));
                ("AC_raw", Some (1 # 4)); ("AF_raw", Some (1 # 4));
                ("AN_eas_raw", Some (3 # 4)); ("AN_sas_raw", Some (1 # 1))])).
Proof.
  rewrite (check_array_struct_missingness_fractions annotated_freq_table
             "freq" "freq_index_dict"
             [("AC", TInt32); ("AF", TFloat64); ("AN_eas", TInt32);
              ("AN_sas", TInt32)]
             [("adj", 0); ("raw", 1)]).
  - vm_compute. reflexivity.
  - reflexivity.
  - reflexivity.
  - simpl. intros name H.
    repeat (destruct H as [<-|H]; [auto 20|]). contradiction.
Defined.

Section ReporterFacts.
Context {Row : Type}.
Implicit Types (ht : list Row) (c : BooleanExpression Row).

Lemma select_In (df : list (string * (Row -> dval))) ht
    (row : list (string * dval)) :
  In row (select df ht) ->
  exists r, In r ht /\ row = map (fun kf => (fst kf, snd kf r)) df.
Proof.
  unfold select. intros H. apply in_map_iff in H.
  destruct H as [r [E Hr]]. exists r. split; [exact Hr | now symmetry].
Qed.

Lemma firstn_In {A} (n : nat) (xs : list A) (x : A) :
  In x (firstn n xs) -> In x xs.
Proof.
  revert xs. induction n as [|n IH]; intros [|y xs]; simpl; try tauto.
  intros [->|H]; [now left | right; now apply IH].
Qed.

Lemma tfilter_In ht c (r : Row) : In r (tfilter ht c) -> In r ht /\ c r = Some true.
Proof.
  unfold tfilter. intros H. apply filter_In in H. destruct H as [Hin Hh].
  split; [exact Hin|]. unfold holds in Hh.
  destruct (c r) as [[|]|]; [reflexivity | discriminate | discriminate].
Qed.

(** X10. What the reporter shows.  With a count above 0 and a predicate,
    a call that returns shows one table: the display fields of the first
    rows that satisfy the predicate, ten at most, whatever the count handed
    in; every row shown is a row of the table on which the predicate holds.
    With a count of 0 (or below) it shows the first ten rows when verbose is
    set and nothing otherwise. *)
Theorem generic_field_check_shows ht check_description display_fields c
    verbose show_percent_sites (n_fail : Z) (ht_count : option Z)
    (Hreturns : outcome (generic_field_check ht check_description display_fields
                           (Some c) verbose show_percent_sites (Some n_fail)
                           ht_count) = Ok tt) :
  shown_tables (generic_field_check ht check_description display_fields
                  (Some c) verbose show_percent_sites (Some n_fail) ht_count)
  = (if n_fail >? 0
     then [firstn 10 (select display_fields (tfilter ht c))]
     else if verbose then [firstn 10 (select display_fields ht)] else [])
  /\ (List.length (firstn 10 (select display_fields (tfilter ht c))) <= 10)%nat
  /\ forall row,
       In row (firstn 10 (select display_fields (tfilter ht c))) ->
       exists r, In r ht /\ c r = Some true
                 /\ row = map (fun kf => (fst kf, snd kf r)) display_fields.
Proof.
  split; [|split].
  - revert Hreturns. unfold shown_tables, generic_field_check. cbv zeta.
    generalize (select display_fields (tfilter ht c)); intros failing.
    generalize (select display_fields ht); intros all.
    generalize (tcount ht); intros total.
    destruct (n_fail >? 0), show_percent_sites, ht_count as [hc|], verbose;
      simpl;
      repeat match goal with
             | |- context [percentage ?a ?b] => destruct (percentage a b); simpl
             | |- context [if ?b then _ else _] => destruct b; simpl
             end;
      intros H; try discriminate H; reflexivity.
  - apply firstn_le_length.
  - intros row Hin. apply firstn_In in Hin. apply select_In in Hin.
    destruct Hin as [r [Hr ->]]. apply tfilter_In in Hr.
    exists r. tauto.
Qed.

Lemma bind_events {A B} (m : M A) (k : A -> M B) :
  events (bind m k)
  = events m ++ match outcome m with
                | Ok a => events (k a)
                | Raise _ => []
                end.
Proof.
  destruct m as [l [a|e]]; unfold bind, events, outcome; cbn [fst snd].
  - now destruct (k a).
  - now rewrite app_nil_r.
Qed.

(** a call of the loop, count in hand: it returns unless it has to divide
    by a row count of 0, and asks the engine for the row count when the
    percentage is wanted and no row count was handed in, and for the rows
    it shows *)
Lemma generic_field_check_requests ht desc df c verbose sp hc :
  (sp = true -> hc <> Some 0) ->
  tcount ht < 2 ^ 63 ->
  outcome (generic_field_check ht desc df (Some c) verbose sp
             (Some (tcount (tfilter ht c))) hc) = Ok tt
  /\ engine_requests (generic_field_check ht desc df (Some c) verbose sp
                        (Some (tcount (tfilter ht c))) hc)
     = (if sp && is_none hc then [EngineCount] else [])
       ++ (if tcount (tfilter ht c) >? 0
           then [EngineShow (firstn 10 (select df (tfilter ht c)))]
           else if verbose then [EngineShow (firstn 10 (select df ht))] else []).
Proof.
  intros Hcount Hsize. pose proof (tfilter_count_le ht c) as Hle.
  unfold engine_requests, generic_field_check, show. cbv zeta.
  revert Hle Hsize. generalize (select df (tfilter ht c)). intros shown.
  generalize (tcount (tfilter ht c)); intros n.
  generalize (select df ht); intros shown'.
  generalize (tcount ht); intros total Hle Hsize.
  destruct sp, hc as [z|], verbose; simpl;
    destruct (Z.gtb_spec n 0); simpl; try (split; reflexivity).
  all: match goal with
       | |- context [percentage ?a ?b] =>
           let x := fresh "x" in
           let E := fresh "E" in
           destruct (percentage_bounded a b) as [x E];
           [ | | rewrite E; simpl; split; reflexivity ]
       end.
  all: try lia.
  all: intros ->; now apply (Hcount eq_refl).
Qed.

Lemma filter_flat_map {A B} (p : B -> bool) (f : A -> list B) (xs : list A) :
  filter p (flat_map f xs) = flat_map (fun x => filter p (f x)) xs.
Proof.
  induction xs as [|x xs IH]; simpl; [reflexivity|].
  now rewrite filter_app, IH.
Qed.

Lemma flat_map_length_sum {A B} (f : A -> list B) (xs : list A) :
  List.length (flat_map f xs)
  = fold_right (fun x n => (List.length (f x) + n)%nat) O xs.
Proof.
  induction xs as [|x xs IH]; simpl; [reflexivity|].
  now rewrite length_app, IH.
Qed.

(** X11. The passes [generic_field_check_loop] asks of the engine, on a
    table of fewer than 2^63 rows and when no percentage has to be taken of
    a row count of 0.  The loop returns, and its requests are, in order:
    one aggregation for all the checks, whatever their number; then, check
    by check, one count of the rows when the percentage is wanted and no
    row count is handed in, and one query for the rows shown when the check
    fails (the failing rows) or when it passes and verbose is set (the
    table).  No other pass is asked for: the number of requests is 1, plus
    the number of checks when each recounts the rows, plus the number of
    checks that show rows. *)
Theorem generic_field_check_loop_requests ht
    (field_check_expr : dict (FieldCheck Row)) verbose show_percent_sites
    (ht_count : option Z)
    (Hkeys : NoDup (dict_keys field_check_expr))
    (Hagg : forall k v, In (k, v) field_check_expr -> fc_agg_func v = count_where)
    (Hcount : show_percent_sites = true -> ht_count <> Some 0)
    (Hsize : Z.of_nat (List.length ht) < 2 ^ 63) :
  outcome (generic_field_check_loop ht field_check_expr verbose
             show_percent_sites ht_count) = Ok tt
  /\ engine_requests (generic_field_check_loop ht field_check_expr verbose
                        show_percent_sites ht_count)
     = EngineAggregate
         :: flat_map
              (fun kv =>
                 (if show_percent_sites && is_none ht_count
                  then [EngineCount] else [])
                 ++ (if tcount (tfilter ht (fc_expr (snd kv))) >? 0
                     then [EngineShow
                             (firstn 10 (select (fc_display_fields (snd kv))
                                           (tfilter ht (fc_expr (snd kv)))))]
                     else if verbose
                          then [EngineShow
                                  (firstn 10 (select (fc_display_fields (snd kv))
                                                ht))]
                          else []))
              field_check_expr
  /\ List.length (engine_requests (generic_field_check_loop ht field_check_expr
                                     verbose show_percent_sites ht_count))
     = (1 + (if show_percent_sites && is_none ht_count
             then List.length field_check_expr else 0)
        + List.length
            (filter (fun kv =>
                       (tcount (tfilter ht (fc_expr (snd kv))) >? 0) || verbose)
                    field_check_expr))%nat.
Proof.
  assert (Hrun :
    outcome (generic_field_check_loop ht field_check_expr verbose
               show_percent_sites ht_count) = Ok tt
    /\ engine_requests (generic_field_check_loop ht field_check_expr verbose
                          show_percent_sites ht_count)
       = EngineAggregate
           :: flat_map
                (fun kv =>
                   (if show_percent_sites && is_none ht_count
                    then [EngineCount] else [])
                   ++ (if tcount (tfilter ht (fc_expr (snd kv))) >? 0
                       then [EngineShow
                               (firstn 10 (select (fc_display_fields (snd kv))
                                             (tfilter ht (fc_expr (snd kv)))))]
                       else if verbose
                            then [EngineShow
                                    (firstn 10 (select (fc_display_fields (snd kv))
                                                  ht))]
                            else []))
                field_check_expr).
  { rewrite generic_field_check_loop_counts by assumption.
    rewrite bind_emit.
    rewrite for_ok
      by (intros kv _;
          apply (generic_field_check_requests ht (fst kv)
                   (fc_display_fields (snd kv)) (fc_expr (snd kv)) verbose
                   show_percent_sites ht_count Hcount Hsize)).
    split; [reflexivity|].
    unfold engine_requests at 1. cbn [events fst filter is_request]. f_equal.
    rewrite filter_flat_map. apply flat_map_ext. intros kv.
    exact (proj2 (generic_field_check_requests ht (fst kv)
                    (fc_display_fields (snd kv)) (fc_expr (snd kv)) verbose
                    show_percent_sites ht_count Hcount Hsize)). }
  destruct Hrun as [Hok Hreq]. split; [exact Hok|]. split; [exact Hreq|].
  rewrite Hreq. cbn [List.length]. rewrite flat_map_length_sum.
  match goal with
  | |- S ?a = (1 + ?b + ?c)%nat => enough (H : a = (b + c)%nat) by lia
  end.
  clear. induction field_check_expr as [|kv d IH]; [now destruct (_ && _)|].
  cbn [fold_right filter]. rewrite IH, length_app. clear IH.
  destruct (show_percent_sites && is_none ht_count);
    destruct (tcount (tfilter ht (fc_expr (snd kv))) >? 0), verbose;
    cbn [List.length orb]; lia.
Qed.

(** X12. The reporter divides by the row count only for a percentage of a
    count above 0.  When it counts itself (a predicate, no count and no
    row count handed in) it always returns; handed a count above 0 and a
    row count of 0 with the percentage wanted, it stops with a
    ZeroDivisionError right after the line that says how many sites fail,
    and shows nothing. *)
Theorem generic_field_check_division ht check_description display_fields c
    cond_expr verbose show_percent_sites (n_fail : Z)
    (Hfail : 0 < n_fail) :
  outcome (generic_field_check ht check_description display_fields (Some c)
             verbose show_percent_sites None None) = Ok tt
  /\ generic_field_check ht check_description display_fields cond_expr
       verbose true (Some n_fail) (Some 0)
     = ([found_line n_fail check_description], Raise ZeroDivisionError).
Proof.
  split.
  - pose proof (tfilter_count_le ht c) as Hle.
    unfold generic_field_check. cbv zeta. rewrite bind_emit.
    unfold outcome at 1; cbn [snd].
    revert Hle. generalize (select display_fields (tfilter ht c)). intros shown.
    generalize (tcount (tfilter ht c)); intros n.
    generalize (select display_fields ht); intros shown'.
    generalize (tcount ht); intros total Hle.
    destruct show_percent_sites, verbose; simpl;
      destruct (Z.gtb_spec n 0); simpl; try reflexivity.
    all: destruct (percentage_of_part n total ltac:(lia)) as [x ->];
      reflexivity.
  - unfold generic_field_check, found_line. cbv zeta.
    destruct (Z.gtb_spec n_fail 0); [|lia].
    cbn [bind emit ret]. rewrite percentage_zero.
    destruct cond_expr; reflexivity.
Qed.

End ReporterFacts.

Lemma generic_field_check_shows_witness :
  shown_tables
    (generic_field_check sex_chr_x_sites "nhomalt_XX == nhomalt"
       (display [("nhomalt_XX", info_value "nhomalt_XX")])
       (Some (hl_ne (info_value "nhomalt_XX") (info_value "nhomalt")))
       false false (Some 1) None)
  = [[[("nhomalt_XX", DNum (Some (2 # 1)))]]].
Proof.
  destruct (generic_field_check_shows sex_chr_x_sites "nhomalt_XX == nhomalt"
              (display [("nhomalt_XX", info_value "nhomalt_XX")])
              (hl_ne (info_value "nhomalt_XX") (info_value "nhomalt"))
              false false 1 None) as [H _].
  - reflexivity.
  - rewrite H. reflexivity.
Defined.

Lemma generic_field_check_loop_requests_witness :
  (true = true -> @None Z <> Some 0)
  /\ Z.of_nat (List.length (rows subset_table)) < 2 ^ 63
  /\ engine_requests (generic_field_check_loop (rows subset_table)
                        coincidence_check false true None)
     = [EngineAggregate; EngineCount; EngineCount;
        EngineShow [[("AN-adj", DNum (Some (4 # 1)));
                     ("AN-s-adj", DNum (Some (4 # 1)))]]]
  /\ shown_tables (generic_field_check_loop (rows subset_table)
                     coincidence_check false true None)
     = [[[("AN-adj", DNum (Some (4 # 1))); ("AN-s-adj", DNum (Some (4 # 1)))]]].
Proof.
  assert (Hcount : true = true -> @None Z <> Some 0) by discriminate.
  assert (Hsize : Z.of_nat (List.length (rows subset_table)) < 2 ^ 63)
    by reflexivity.
  split; [exact Hcount|]. split; [exact Hsize|]. split; [|reflexivity].
  rewrite (proj1 (proj2 (generic_field_check_loop_requests (rows subset_table)
             coincidence_check false true None
             ltac:(repeat constructor; simpl; intros H;
                   repeat (destruct H as [H|H]; [discriminate H|]); exact H)
             ltac:(intros k v H; simpl in H;
                   destruct H as [E|[E|[]]]; inversion E; reflexivity)
             Hcount Hsize))).
  reflexivity.
Defined.

Lemma generic_field_check_division_witness :
  generic_field_check (@nil Site) "AC-raw >= AC-adj" [] None false true
    (Some 3) (Some 0)
  = ([found_line 3 "AC-raw >= AC-adj"], Raise ZeroDivisionError).
Proof.
  apply (generic_field_check_division (@nil Site) "AC-raw >= AC-adj" []
           (fun _ => None) None false true 3).
  lia.
Defined.

Lemma htype_induction (P : htype -> Prop) :
  P TInt32 -> P TFloat64 -> P TStr -> P TBool ->
  (forall elt, P (TArray elt)) -> (forall elt, P (TSet elt)) ->
  (forall fields, (forall k ty, In (k, ty) fields -> P ty) -> P (TStruct fields)) ->
  forall ty, P ty.
Proof.
  intros Hi Hf Hs Hb Ha Hset Hst.
  refine (fix IH (ty : htype) : P ty :=
            match ty with
            | TInt32 => Hi
            | TFloat64 => Hf
            | TStr => Hs
            | TBool => Hb
            | TArray elt => Ha elt
            | TSet elt => Hset elt
            | TStruct fields =>
                Hst fields ((fix go (fields : list (string * htype))
                               : forall k ty, In (k, ty) fields -> P ty :=
                               match fields with
                               | [] => fun k ty H => match H with end
                               | (k0, ty0) :: fields' => fun k ty H => _
                               end) fields)
            end).
  destruct H as [E|H].
  - replace ty with ty0 by congruence. exact (IH ty0).
  - exact (go fields' k ty H).
Qed.

Lemma distinctb_NoDup (xs : list string) : distinctb xs = true -> NoDup xs.
Proof.
  induction xs as [|x xs IH]; simpl; intros H; [constructor|].
  apply andb_prop in H. destruct H as [Hx Hxs]. constructor; [|now apply IH].
  intros Hin. apply str_in_In in Hin. rewrite Hin in Hx. discriminate.
Qed.

Lemma NoDup_app_inv {A} (l1 l2 : list A) :
  NoDup (l1 ++ l2) ->
  NoDup l1 /\ NoDup l2 /\ forall a, In a l1 -> ~ In a l2.
Proof.
  induction l1 as [|x l1 IH]; simpl; intros H.
  - split; [constructor|]. split; [exact H|]. intros a [].
  - inversion H as [|? ? Hx Hnd]; subst. destruct (IH Hnd) as [H1 [H2 H3]].
    split; [|split; [exact H2|]].
    + constructor; [|exact H1]. intros Hin. apply Hx, in_or_app. now left.
    + intros a [<-|Ha]; [|now apply H3].
      intros Hin. apply Hx, in_or_app. now right.
Qed.

Lemma leaf_fraction_keys (ht : list HRow)
    (l : list (string * BooleanExpression HRow)) :
  map fst (map (leaf_fraction ht) l) = map fst l.
Proof. rewrite map_map. now apply map_ext. Qed.

(** flattening keeps every fraction under its key, in order, when the keys
    of the fractions are distinct *)
Lemma flatten_missingness_leaves (ht : list HRow) (m : missingness) :
  NoDup (map fst (missingness_leaves m)) ->
  flatten_missingness_struct (aggregate_missingness ht m)
  = map (leaf_fraction ht) (missingness_leaves m).
Proof.
  induction m as [p|d IH] using missingness_induction; intros Hnd; [reflexivity|].
  cbn [aggregate_missingness flatten_missingness_struct].
  change (missingness_leaves (MDict d))
    with ((fix go (d : list (string * missingness)) :=
             match d with
             | [] => []
             | (k, v) :: d' =>
                 match v with
                 | MFraction p => [(k, p)]
                 | MDict _ => missingness_leaves v
                 end ++ go d'
             end) d) in *.
  rewrite <- (app_nil_l (map (leaf_fraction ht) _)).
  assert (Hacc : NoDup (map fst (@nil (string * option Q))
                        ++ map fst ((fix go (d : list (string * missingness)) :=
             match d with
             | [] => []
             | (k, v) :: d' =>
                 match v with
                 | MFraction p => [(k, p)]
                 | MDict _ => missingness_leaves v
                 end ++ go d'
             end) d))) by exact Hnd.
  clear Hnd. revert Hacc. generalize (@nil (string * option Q)) as acc.
  induction d as [|[k0 m0] d IHd]; intros acc Hacc; cbn [map].
  - now rewrite app_nil_r.
  - cbn [fst snd].
    rewrite map_app, app_assoc.
    rewrite map_app, app_assoc in Hacc.
    destruct m0 as [p0|d0]; cbn [aggregate_missingness].
    + rewrite IHd.
      * f_equal. cbn [map]. apply dict_set_new.
        apply NoDup_app_inv in Hacc. destruct Hacc as [H1 _].
        apply NoDup_app_inv in H1. destruct H1 as [_ [_ H3]].
        intros Hin. apply (H3 k0 Hin). now left.
      * intros k m Hin. apply (IH k). now right.
      * rewrite dict_set_new.
        -- rewrite map_app. exact Hacc.
        -- apply NoDup_app_inv in Hacc. destruct Hacc as [H1 _].
           apply NoDup_app_inv in H1. destruct H1 as [_ [_ H3]].
           intros Hin. apply (H3 k0 Hin). now left.
    + assert (Hd0 : NoDup (map fst acc ++ map fst (missingness_leaves (MDict d0)))).
      { now apply NoDup_app_inv in Hacc. }
      assert (Hflat : fold_left assign
                 (flatten_missingness_struct
                    (aggregate_missingness ht (MDict d0))) acc
               = acc ++ map (leaf_fraction ht) (missingness_leaves (MDict d0))).
      { rewrite (IH k0 (MDict d0) (or_introl eq_refl))
          by (now apply NoDup_app_inv in Hd0).
        apply assign_all_distinct.
        - rewrite leaf_fraction_keys. now apply NoDup_app_inv in Hd0.
        - rewrite leaf_fraction_keys. intros k Hk Hin.
          apply NoDup_app_inv in Hd0. destruct Hd0 as [_ [_ H3]].
          exact (H3 k Hin Hk). }
      cbn [aggregate_missingness] in Hflat. rewrite Hflat.
      rewrite IHd.
      * reflexivity.
      * intros k m Hin. apply (IH k). now right.
      * rewrite map_app, leaf_fraction_keys. exact Hacc.
Qed.

Lemma fields_distinct_struct (fields : list (string * htype)) :
  fields_distinct (TStruct fields) = true ->
  NoDup (map fst fields)
  /\ forall k ty, In (k, ty) fields -> fields_distinct ty = true.
Proof.
  cbn [fields_distinct]. intros H. apply andb_prop in H. destruct H as [Hd Hall].
  split; [now apply distinctb_NoDup|]. clear Hd.
  induction fields as [|[k0 ty0] fields IH]; intros k ty Hin; [contradiction|].
  apply andb_prop in Hall. destruct Hall as [H0 Hall].
  destruct Hin as [E|Hin]; [inversion E; now subst | now apply (IH Hall k)].
Qed.

Lemma NoDup_map_inj {A B} (f : A -> B) (xs : list A) :
  (forall x y, f x = f y -> x = y) -> NoDup xs -> NoDup (map f xs).
Proof.
  intros Hinj. induction 1 as [|x xs Hx Hnd IH]; simpl; constructor; [|exact IH].
  intros Hin. apply in_map_iff in Hin. destruct Hin as [y [E Hy]].
  apply Hinj in E. now subst.
Qed.

(** the walker's result for a type: a fraction for a leaf, and for a
    struct a dictionary whose fractions are those of the leaves *)
Lemma check_missingness_of_struct_leaves (ty : htype) :
  forall (e : Expression) (prefix : string),
    fields_distinct ty = true ->
    (exists p, check_missingness_of_struct ty e prefix = MFraction p
               /\ struct_leaves ty e prefix = [(prefix, p)])
    \/ (exists d, check_missingness_of_struct ty e prefix = MDict d
                  /\ missingness_leaves (MDict d) = struct_leaves ty e prefix).
Proof.
  induction ty as [| | | |elt|elt|fields IH] using htype_induction;
    intros e prefix Hwf.
  1-6: left; eexists; split; reflexivity.
  right. destruct (fields_distinct_struct fields Hwf) as [Hnd Hall].
  cbn [check_missingness_of_struct]. eexists. split; [reflexivity|].
  rewrite dict_of_distinct.
  2:{ rewrite map_map.
      rewrite (map_ext _ (fun kf => prefix +:+ "." +:+ fst kf))
        by (now intros [k ty]).
      rewrite <- (map_map fst (fun k => prefix +:+ "." +:+ k)).
      apply NoDup_map_inj; [|exact Hnd].
      intros x y E. apply append_inv_head in E. now apply append_inv_head in E. }
  clear Hnd Hwf.
  change (struct_leaves (TStruct fields) e prefix)
    with ((fix go (fields : list (string * htype)) :=
             match fields with
             | [] => []
             | (key, fty) :: fields' =>
                 struct_leaves fty (get_field key e) (prefix +:+ "." +:+ key)
                 ++ go fields'
             end) fields).
  induction fields as [|[key fty] fields IHf]; [reflexivity|].
  cbn [map]. cbn [missingness_leaves].
  assert (Hrest :
    missingness_leaves
      (MDict (map (fun kf : string * htype =>
                let '(key, fty) := kf in
                (prefix +:+ "." +:+ key,
                 check_missingness_of_struct fty (get_field key e)
                   (prefix +:+ "." +:+ key))) fields))
    = (fix go (fields : list (string * htype)) :=
             match fields with
             | [] => []
             | (key, fty) :: fields' =>
                 struct_leaves fty (get_field key e) (prefix +:+ "." +:+ key)
                 ++ go fields'
             end) fields).
  { apply IHf.
    - intros k ty Hin. apply (IH k). now right.
    - intros k ty Hin. apply (Hall k). now right. }
  cbn [missingness_leaves] in Hrest. rewrite Hrest. f_equal.
  destruct (IH key fty (or_introl eq_refl) (get_field key e)
              (prefix +:+ "." +:+ key) (Hall key fty (or_introl eq_refl)))
    as [[p [-> ->]]|[d [-> <-]]]; reflexivity.
Qed.

Lemma append_empty_r (s : string) : s +:+ EmptyString = s.
Proof. induction s as [|c s IH]; simpl; [reflexivity | now rewrite IH]. Qed.

(** the name of a leaf begins with the prefix it was reached under *)
Lemma struct_leaves_prefix (ty : htype) :
  forall (e : Expression) (prefix k : string) (p : BooleanExpression HRow),
    In (k, p) (struct_leaves ty e prefix) -> exists rest, k = prefix +:+ rest.
Proof.
  induction ty as [| | | |elt|elt|fields IH] using htype_induction;
    intros e prefix k p Hin.
  1-6: destruct Hin as [E|[]]; inversion E; exists EmptyString;
    now rewrite append_empty_r.
  change (struct_leaves (TStruct fields) e prefix)
    with ((fix go (fields : list (string * htype)) :=
             match fields with
             | [] => []
             | (key, fty) :: fields' =>
                 struct_leaves fty (get_field key e) (prefix +:+ "." +:+ key)
                 ++ go fields'
             end) fields) in Hin.
  induction fields as [|[key fty] fields IHf]; [contradiction|].
  apply in_app_or in Hin. destruct Hin as [Hin|Hin].
  - destruct (IH key fty (or_introl eq_refl) _ _ _ _ Hin) as [rest ->].
    exists ("." +:+ key +:+ rest). now rewrite !append_assoc.
  - apply IHf; [|exact Hin]. intros k0 ty0 H0. apply (IH k0). now right.
Qed.

(** the leaves of a dictionary, entry by entry *)
Lemma missingness_leaves_entries (d : list (string * missingness)) :
  missingness_leaves (MDict d)
  = flat_map (fun kv => match snd kv with
                        | MFraction p => [(fst kv, p)]
                        | MDict _ => missingness_leaves (snd kv)
                        end) d.
Proof.
  cbn [missingness_leaves].
  induction d as [|[k v] d IH]; [reflexivity|].
  cbn [flat_map fst snd]. now rewrite IH.
Qed.

Lemma insert_entry_perm {V} (kv : string * V) (l : list (string * V)) :
  Permutation (insert_entry kv l) (kv :: l).
Proof.
  induction l as [|kv' l IH]; simpl; [reflexivity|].
  destruct (String.leb (fst kv) (fst kv')); [reflexivity|].
  rewrite IH. apply perm_swap.
Qed.

Lemma sorted_entries_perm {V} (l : list (string * V)) :
  Permutation (sorted_entries l) l.
Proof.
  induction l as [|kv l IH]; simpl; [reflexivity|].
  rewrite insert_entry_perm. now constructor.
Qed.

(** blocks that are permutations of one another, taken entry by entry *)
Lemma flat_map_perm_pointwise {A B C} (f : A -> list C) (g : B -> list C)
    (h : A -> B) (xs : list A) :
  (forall x, In x xs -> Permutation (g (h x)) (f x)) ->
  Permutation (flat_map g (map h xs)) (flat_map f xs).
Proof.
  induction xs as [|x xs IH]; intros H; simpl; [reflexivity|].
  apply Permutation_app; [apply H; now left|].
  apply IH. intros y Hy. apply H. now right.
Qed.

Lemma hail_value_entries (d : list (string * missingness)) :
  hail_value (MDict d)
  = MDict (sorted_entries (map (fun kv => (fst kv, hail_value (snd kv))) d)).
Proof.
  cbn [hail_value]. do 2 f_equal.
  induction d as [|[k v] d IH]; [reflexivity|].
  cbn [map fst snd]. now rewrite IH.
Qed.

(** a Hail dict holds the fractions of the Python dictionary, in another
    order *)
Lemma hail_value_leaves (m : missingness) :
  Permutation (missingness_leaves (hail_value m)) (missingness_leaves m).
Proof.
  induction m as [p|d IH] using missingness_induction; [reflexivity|].
  rewrite hail_value_entries, !missingness_leaves_entries.
  rewrite (Permutation_flat_map _ (sorted_entries_perm _)).
  apply flat_map_perm_pointwise. intros [k v] Hin. cbn [fst snd].
  pose proof (IH k v Hin) as Hv.
  destruct v as [p|d']; [reflexivity|].
  rewrite hail_value_entries in *. exact Hv.
Qed.

Lemma hl_struct_leaves (m s : missingness) :
  hl_struct m = Ok s ->
  Permutation (missingness_leaves s) (missingness_leaves m).
Proof.
  unfold hl_struct. destruct m as [p|d]; [discriminate|].
  destruct (forallb _ d); [|discriminate].
  intros E. inversion E; subst s. clear E.
  rewrite !missingness_leaves_entries.
  apply flat_map_perm_pointwise. intros [k v] _. cbn [fst snd].
  pose proof (hail_value_leaves v) as Hv.
  destruct v as [p|d']; [reflexivity|].
  rewrite hail_value_entries in *. exact Hv.
Qed.

Lemma forallb_map_in {A B} (p : B -> bool) (q : A -> bool) (f : A -> B)
    (xs : list A) :
  (forall x, In x xs -> p (f x) = q x) ->
  forallb p (map f xs) = forallb q xs.
Proof.
  induction xs as [|x xs IH]; intros H; simpl; [reflexivity|].
  rewrite (H x) by now left. f_equal. apply IH. intros y Hy. apply H. now right.
Qed.

Lemma impute_type_entries (k : string) (v : missingness)
    (d : list (string * missingness)) :
  impute_type (MDict ((k, v) :: d))
  = match impute_type v with
    | None => None
    | Some t =>
        if forallb (fun kv => match impute_type (snd kv) with
                              | Some t' => missingness_type_eqb t' t
                              | None => false
                              end) d
        then Some (DictType t)
        else None
    end.
Proof.
  cbn [impute_type]. destruct (impute_type v) as [t|]; [|reflexivity].
  match goal with
  | |- (if ?a then _ else _) = (if ?b then _ else _) =>
      replace a with b; [reflexivity|]
  end.
  induction d as [|[k' v'] d IH]; [reflexivity|].
  cbn [forallb snd]. now rewrite IH.
Qed.

Lemma walker_type_fields (k : string) (fty : htype)
    (fields : list (string * htype)) :
  walker_type (TStruct ((k, fty) :: fields))
  = match walker_type fty with
    | None => None
    | Some t =>
        if forallb (fun kf => match walker_type (snd kf) with
                              | Some t' => missingness_type_eqb t' t
                              | None => false
                              end) fields
        then Some (DictType t)
        else None
    end.
Proof.
  cbn [walker_type]. destruct (walker_type fty) as [t|]; [|reflexivity].
  match goal with
  | |- (if ?a then _ else _) = (if ?b then _ else _) =>
      replace a with b; [reflexivity|]
  end.
  induction fields as [|[k' fty'] fields IH]; [reflexivity|].
  cbn [forallb snd]. now rewrite IH.
Qed.

(** the walker's dictionary for a struct, field by field *)
Lemma check_missingness_of_struct_fields (fields : list (string * htype))
    (e : Expression) (prefix : string) :
  fields_distinct (TStruct fields) = true ->
  check_missingness_of_struct (TStruct fields) e prefix
  = MDict (map (fun kf =>
                  (prefix +:+ "." +:+ fst kf,
                   check_missingness_of_struct (snd kf) (get_field (fst kf) e)
                     (prefix +:+ "." +:+ fst kf))) fields).
Proof.
  intros Hwf. destruct (fields_distinct_struct fields Hwf) as [Hnd _].
  cbn [check_missingness_of_struct]. f_equal.
  rewrite dict_of_distinct.
  - apply map_ext. now intros [k ty].
  - rewrite map_map.
    rewrite (map_ext _ (fun kf => prefix +:+ "." +:+ fst kf))
      by (now intros [k ty]).
    rewrite <- (map_map fst (fun k => prefix +:+ "." +:+ k)).
    apply NoDup_map_inj; [|exact Hnd].
    intros x y E. apply append_inv_head in E. now apply append_inv_head in E.
Qed.

(** the type of the walker's result is read off the type walked *)
Lemma impute_type_walker (ty : htype) :
  forall (e : Expression) (prefix : string),
    fields_distinct ty = true ->
    impute_type (check_missingness_of_struct ty e prefix) = walker_type ty.
Proof.
  induction ty as [| | | |elt|elt|fields IH] using htype_induction;
    intros e prefix Hwf; try reflexivity.
  rewrite check_missingness_of_struct_fields by exact Hwf.
  destruct (fields_distinct_struct fields Hwf) as [_ Hall].
  destruct fields as [|[k fty] fields]; [reflexivity|].
  cbn [map fst snd]. rewrite impute_type_entries, walker_type_fields.
  rewrite (IH k fty (or_introl eq_refl)) by (apply (Hall k); now left).
  destruct (walker_type fty) as [t|]; [|reflexivity].
  match goal with
  | |- (if ?a then _ else _) = (if ?b then _ else _) =>
      replace a with b; [reflexivity|]
  end.
  symmetry. apply forallb_map_in. intros [k' fty'] Hin. cbn [fst snd].
  rewrite (IH k' fty' (or_intror Hin)) by (apply (Hall k'); now right).
  reflexivity.
Qed.

(** [hl.struct] takes the walker's dictionary of a struct exactly when each
    field gives a value Hail can type *)
Lemma hl_struct_walker (fields : list (string * htype)) (e : Expression)
    (prefix : string) :
  fields_distinct (TStruct fields) = true ->
  hl_struct (check_missingness_of_struct (TStruct fields) e prefix)
  = if forallb (fun kf => match walker_type (snd kf) with
                          | Some _ => true
                          | None => false
                          end) fields
    then Ok (MDict
               (map (fun kv => (fst kv, hail_value (snd kv)))
                    (map (fun kf =>
                            (prefix +:+ "." +:+ fst kf,
                             check_missingness_of_struct (snd kf)
                               (get_field (fst kf) e)
                               (prefix +:+ "." +:+ fst kf))) fields)))
    else Raise TypeError.
Proof.
  intros Hwf. rewrite check_missingness_of_struct_fields by exact Hwf.
  destruct (fields_distinct_struct fields Hwf) as [_ Hall].
  unfold hl_struct.
  rewrite (forallb_map_in _
             (fun kf => match walker_type (snd kf) with
                        | Some _ => true
                        | None => false
                        end)); [reflexivity|].
  intros [k fty] Hin. cbn [fst snd].
  now rewrite (impute_type_walker fty _ _ (Hall k fty Hin)).
Qed.

(** X13. For a struct whose dotted leaf names are pairwise distinct, the
    walker, [hl.struct], the aggregation and [flatten_missingness_struct]
    together.
    - If every field of the struct gives a value Hail can type (a leaf, or
      a struct that has a field and whose fields all give the same type),
      [hl.struct] takes the dictionary, and the flattened result has
      exactly one entry per leaf of the struct, nested ones included, and
      no other: it is a rearrangement of the list of the leaves' fractions;
      under the dotted path of a leaf it holds the fraction of rows where
      the leaf counts as missing; every key begins with the prefix and a
      dot.
    - If some field gives a value Hail cannot type (an empty struct, or a
      struct with a leaf beside a struct), [hl.struct] raises TypeError and
      there is no result. *)
Theorem flatten_missingness_struct_leaves (ht : list HRow)
    (fields : list (string * htype)) (e : Expression) (prefix : string)
    (Htype : fields_distinct (TStruct fields) = true)
    (Hnames : NoDup (map fst (struct_leaves (TStruct fields) e prefix))) :
  ((forall k fty, In (k, fty) fields -> walker_type fty <> None) ->
   exists s,
     hl_struct (check_missingness_of_struct (TStruct fields) e prefix) = Ok s
     /\ Permutation
          (flatten_missingness_struct (aggregate_missingness ht s))
          (map (leaf_fraction ht) (struct_leaves (TStruct fields) e prefix))
     /\ (forall k p,
           In (k, p) (struct_leaves (TStruct fields) e prefix) ->
           dict_get k (flatten_missingness_struct (aggregate_missingness ht s))
           = Some (fraction ht p))
     /\ (forall k v,
           In (k, v) (flatten_missingness_struct (aggregate_missingness ht s)) ->
           exists rest, k = prefix +:+ "." +:+ rest))
  /\ ((exists k fty, In (k, fty) fields /\ walker_type fty = None) ->
      hl_struct (check_missingness_of_struct (TStruct fields) e prefix)
      = Raise TypeError).
Proof.
  pose proof (hl_struct_walker fields e prefix Htype) as Hstruct.
  split.
  - intros Htyped.
    rewrite (proj2 (forallb_forall _ fields)) in Hstruct.
    2:{ intros [k fty] Hin. cbn [snd].
        destruct (walker_type fty) eqn:E; [reflexivity|].
        now elim (Htyped k fty Hin). }
    eexists. split; [exact Hstruct|].
    match type of Hstruct with
    | _ = Ok ?s0 => set (s := s0) in *
    end.
    assert (Hperm : Permutation (missingness_leaves s)
                      (struct_leaves (TStruct fields) e prefix)).
    { rewrite (hl_struct_leaves _ _ Hstruct).
      destruct (check_missingness_of_struct_leaves (TStruct fields) e prefix
                  Htype) as [[p [E _]]|[d [E Hleaves]]]; [discriminate E|].
      rewrite E, Hleaves. reflexivity. }
    assert (Hnd : NoDup (map fst (missingness_leaves s))).
    { apply (Permutation_NoDup (l := map fst (struct_leaves (TStruct fields)
                                                e prefix)));
        [|exact Hnames].
      apply Permutation_map. now symmetry. }
    rewrite (flatten_missingness_leaves ht s Hnd).
    split; [now apply Permutation_map|]. split.
    + intros k p Hin.
      apply (dict_get_In k (fraction ht p)).
      * unfold dict_keys. now rewrite leaf_fraction_keys.
      * change (k, fraction ht p) with (leaf_fraction ht (k, p)).
        apply in_map. apply (Permutation_in (l := struct_leaves (TStruct fields)
                                                     e prefix));
          [now symmetry | exact Hin].
    + intros k v Hin. apply in_map_iff in Hin.
      destruct Hin as [[k' p] [E Hin]].
      unfold leaf_fraction in E; cbn [fst snd] in E. inversion E; subst k'.
      apply (Permutation_in _ Hperm) in Hin. clear - Hin.
      change (struct_leaves (TStruct fields) e prefix)
        with ((fix go (fields : list (string * htype)) :=
                 match fields with
                 | [] => []
                 | (key, fty) :: fields' =>
                     struct_leaves fty (get_field key e) (prefix +:+ "." +:+ key)
                     ++ go fields'
                 end) fields) in Hin.
      induction fields as [|[key fty] fields IHf]; [contradiction|].
      apply in_app_or in Hin. destruct Hin as [Hin|Hin]; [|now apply IHf].
      destruct (struct_leaves_prefix fty _ _ _ _ Hin) as [rest ->].
      exists (key +:+ rest). now rewrite !append_assoc.
  - intros [k [fty [Hin Hnone]]].
    rewrite Hstruct.
    destruct (forallb _ fields) eqn:E; [|reflexivity].
    rewrite forallb_forall in E. specialize (E (k, fty) Hin). cbn [snd] in E.
    rewrite Hnone in E. discriminate E.
Qed.

Lemma flatten_missingness_struct_leaves_witness :
  (exists s,
     hl_struct (check_missingness_of_struct unordered_type (row_field "s") "s")
     = Ok s
     /\ flatten_missingness_struct (aggregate_missingness unordered_table s)
        = [("s.n", Some (1 # 2)); ("s.c.d", Some (1 # 2));
           ("s.c.e", Some (0 # 1))])
  /\ map (leaf_fraction unordered_table)
         (struct_leaves unordered_type (row_field "s") "s")
     = [("s.n", Some (1 # 2)); ("s.c.e", Some (0 # 1));
        ("s.c.d", Some (1 # 2))]
  /\ hl_struct (check_missingness_of_struct mixed_type (row_field "s") "s")
     = Raise TypeError.
Proof.
  assert (Hnames : forall ty,
            ty = unordered_type \/ ty = mixed_type ->
            NoDup (map fst (struct_leaves ty (row_field "s") "s"))).
  { intros ty [->| ->]; repeat constructor; simpl; intros H;
      repeat (destruct H as [H|H]; [discriminate H|]); exact H. }
  split; [|split; [reflexivity|]].
  - destruct (proj1 (flatten_missingness_struct_leaves unordered_table
                       [("n", TInt32); ("c", TStruct [("e", TStr); ("d", TStr)])]
                       (row_field "s") "s" eq_refl
                       (Hnames unordered_type (or_introl eq_refl))))
      as [s [Hs _]].
    + intros k fty H. simpl in H.
      destruct H as [E|[E|[]]]; inversion E; discriminate.
    + exists s. split; [exact Hs|].
      vm_compute in Hs. injection Hs as <-. vm_compute. reflexivity.
  - apply (proj2 (flatten_missingness_struct_leaves unordered_table
                    [("a", TInt32);
                     ("c", TStruct [("d", TStr); ("g", TStruct [("h", TStr)])])]
                    (row_field "s") "s" eq_refl
                    (Hnames mixed_type (or_intror eq_refl)))).
    exists "c", (TStruct [("d", TStr); ("g", TStruct [("h", TStr)])]).
    split; [simpl; auto | reflexivity].
Defined.
